(** * cmt: the hunk absorption engine

    A shallow embedding of the parts of [github.com/gussy/cmt] that split a
    diff into hunks, post-process the oracle's answer, let a reviewer edit
    it, apply fixup commits, keep the undo record and list and clean up
    the backups, together with the properties of these parts.

    Conventions.
    - Go strings are byte strings: [string] (a list of [ascii]).
    - White space is what [unicode.IsSpace] says of the runes of a text
      in UTF-8: [strings.TrimSpace], [strings.Fields] and the scanner of
      [fmt] cut at the six white-space bytes of ASCII and at the encodings
      of U+0085, U+00A0, U+1680, U+2000 to U+200A, U+2028, U+2029, U+202F,
      U+205F and U+3000.
    - Go [int]/[int64] values are [Z]; a well-formed value lies in the
      64-bit range.
    - [float64] confidences are the rationals they denote ([Q]): the code
      only copies and compares them, and the comparison of finite floats is
      the comparison of their values.
    - A run-time panic (slice bounds out of range) is an outcome of its own.
    - Calls to git and to the operating system are events answered by an
      environment. *)

From Stdlib Require Import ZArith QArith Lia List Ascii String.
From Stdlib Require Import DecimalString DecimalZ.
From stdpp Require Import gmap strings list.

Local Open Scope Z_scope.

(* ===================================================================== *)
(** * Part I: definitions                                                 *)
(* ===================================================================== *)

(** ** Outcomes *)

(** A Go function returning [(T, error)] that may also panic. *)
Inductive Res (A : Type) : Type :=
| Ok (a : A)
| Err (msg : string)
| Panic.
Arguments Ok {A} a.
Arguments Err {A} msg.
Arguments Panic {A}.

(** ** Package [strings] on byte strings *)

Definition LF : ascii := "010"%char.
Definition CR : ascii := "013"%char.

Fixpoint HasPrefix (s p : string) : bool :=
  match p, s with
  | EmptyString, _ => true
  | String c p', String d s' => Ascii.eqb c d && HasPrefix s' p'
  | String _ _, EmptyString => false
  end.

Fixpoint str_drop (n : nat) (s : string) : string :=
  match n, s with
  | O, _ => s
  | S n', String _ s' => str_drop n' s'
  | S _, EmptyString => EmptyString
  end.

Fixpoint str_take (n : nat) (s : string) : string :=
  match n, s with
  | O, _ => EmptyString
  | S n', String c s' => String c (str_take n' s')
  | S _, EmptyString => EmptyString
  end.

Definition TrimPrefix (s p : string) : string :=
  if HasPrefix s p then str_drop (String.length p) s else s.

(** [strings.Index]: byte offset of the first occurrence. *)
Fixpoint Index (s sub : string) : option nat :=
  if HasPrefix s sub then Some O
  else match s with
       | EmptyString => None
       | String _ s' => option_map S (Index s' sub)
       end.

(** [strings.LastIndex]: byte offset of the last occurrence. *)
Fixpoint LastIndex (s sub : string) : option nat :=
  match s with
  | EmptyString => if HasPrefix s sub then Some O else None
  | String _ s' =>
      match LastIndex s' sub with
      | Some i => Some (S i)
      | None => if HasPrefix s sub then Some O else None
      end
  end.

Definition Contains (s sub : string) : bool :=
  match Index s sub with Some _ => true | None => false end.

(** [strings.Split(s, sep)] for a one-byte separator: never empty. *)
Fixpoint Split (s : string) (sep : ascii) : list string :=
  match s with
  | EmptyString => [EmptyString]
  | String c s' =>
      if Ascii.eqb c sep then EmptyString :: Split s' sep
      else match Split s' sep with
           | l :: ls => String c l :: ls
           | [] => [String c EmptyString]
           end
  end.

(** [strings.SplitN(s, sep, 2)] for a one-byte separator: cut at the first
    separator only. *)
Fixpoint SplitN2 (s : string) (sep : ascii) : list string :=
  match s with
  | EmptyString => [EmptyString]
  | String c s' =>
      if Ascii.eqb c sep then [EmptyString; s']
      else match SplitN2 s' sep with
           | l :: ls => String c l :: ls
           | [] => [String c EmptyString]
           end
  end.

(** *** White space

    [unicode.IsSpace] on a text in UTF-8, which [strings.TrimSpace],
    [strings.Fields] and the scanner of [fmt] apply rune by rune. The
    white-space runes are the six of ASCII (tab, newline, vertical tab,
    form feed, carriage return, blank: [Ascii.is_space]), U+0085 and
    U+00A0 (the two bytes [C2 85] and [C2 A0]), and U+1680, U+2000 to
    U+200A, U+2028, U+2029, U+202F, U+205F and U+3000 (three bytes). A
    byte that begins one of them is never a later byte of a rune, so
    looking for these encodings byte by byte finds the runes the decoder
    finds. *)
Definition space2 (c1 c2 : ascii) : bool :=
  Ascii.eqb c1 "194"%char
  && (Ascii.eqb c2 "133"%char || Ascii.eqb c2 "160"%char).

Definition space3 (c1 c2 c3 : ascii) : bool :=
  (Ascii.eqb c1 "225"%char && Ascii.eqb c2 "154"%char
   && Ascii.eqb c3 "128"%char)
  || (Ascii.eqb c1 "226"%char && Ascii.eqb c2 "128"%char
      && existsb (Ascii.eqb c3)
           [ "128"%char; "129"%char; "130"%char; "131"%char; "132"%char;
             "133"%char; "134"%char; "135"%char; "136"%char; "137"%char;
             "138"%char; "168"%char; "169"%char; "175"%char ])
  || (Ascii.eqb c1 "226"%char && Ascii.eqb c2 "129"%char
      && Ascii.eqb c3 "159"%char)
  || (Ascii.eqb c1 "227"%char && Ascii.eqb c2 "128"%char
      && Ascii.eqb c3 "128"%char).

(** The text without the white-space runes it begins with, [sp2] and [sp3]
    telling the runes of two and of three bytes. *)
Fixpoint trimLeftBy (sp2 : ascii -> ascii -> bool)
  (sp3 : ascii -> ascii -> ascii -> bool) (s : string) : string :=
  match s with
  | EmptyString => EmptyString
  | String c1 r1 =>
      if Ascii.is_space c1 then trimLeftBy sp2 sp3 r1
      else
        match r1 with
        | EmptyString => s
        | String c2 r2 =>
            if sp2 c1 c2 then trimLeftBy sp2 sp3 r2
            else
              match r2 with
              | EmptyString => s
              | String c3 r3 =>
                  if sp3 c1 c2 c3 then trimLeftBy sp2 sp3 r3 else s
              end
        end
  end.

Definition TrimLeftSpace (s : string) : string := trimLeftBy space2 space3 s.

(** From the end: the same on the text read backwards, where the bytes of
    a rune come last byte first. *)
Definition TrimRightSpace (s : string) : string :=
  String.rev
    (trimLeftBy (fun c1 c2 => space2 c2 c1) (fun c1 c2 c3 => space3 c3 c2 c1)
       (String.rev s)).

(** [strings.TrimSpace]. *)
Definition TrimSpace (s : string) : string := TrimRightSpace (TrimLeftSpace s).

Definition endField (cur : string) : list string :=
  if String.eqb cur EmptyString then [] else [cur].

(** The fields of [s] after the bytes [cur] of a field that has begun. *)
Fixpoint fieldsFrom (cur : string) (s : string) : list string :=
  match s with
  | EmptyString => endField cur
  | String c1 r1 =>
      if Ascii.is_space c1 then endField cur ++ fieldsFrom EmptyString r1
      else
        match r1 with
        | EmptyString => fieldsFrom (cur +:+ String c1 EmptyString) r1
        | String c2 r2 =>
            if space2 c1 c2 then endField cur ++ fieldsFrom EmptyString r2
            else
              match r2 with
              | EmptyString => fieldsFrom (cur +:+ String c1 EmptyString) r1
              | String c3 r3 =>
                  if space3 c1 c2 c3
                  then endField cur ++ fieldsFrom EmptyString r3
                  else fieldsFrom (cur +:+ String c1 EmptyString) r1
              end
        end
  end.

(** [strings.Fields]: the maximal runs of runes that are no white space. *)
Definition Fields (s : string) : list string := fieldsFrom EmptyString s.

(** The first line of a text: [strings.Split(s, "\n")[0]]. *)
Definition first_line (s : string) : string :=
  match Split s LF with l :: _ => l | [] => EmptyString end.

(** Every line followed by a newline, as a sequence of [Fprintf("...\n")]
    or of [s += line + "\n"] builds it. *)
Definition unlines (ls : list string) : string :=
  fold_right (fun l acc => l +:+ String LF acc) EmptyString ls.

(** ** [bufio.Scanner] with the default [ScanLines] split function *)

(** The raw tokens: the text cut at every newline; a last line without a
    newline is a token when it is not empty. *)
Fixpoint scan_tokens (s : string) : list string :=
  match s with
  | EmptyString => []
  | String c s' =>
      if Ascii.eqb c LF then EmptyString :: scan_tokens s'
      else match scan_tokens s' with
           | l :: ls => String c l :: ls
           | [] => [String c EmptyString]
           end
  end.

(** [dropCR]: one trailing carriage return is not part of the line. *)
Fixpoint dropCR (s : string) : string :=
  match s with
  | EmptyString => EmptyString
  | String c EmptyString => if Ascii.eqb c CR then EmptyString else s
  | String c s' => String c (dropCR s')
  end.

(** [bufio.MaxScanTokenSize]: the buffer holds at most this many bytes, so a
    line of that many bytes or more (its carriage return included) stops
    the scanner with [ErrTooLong]. *)
Definition MaxScanTokenSize : Z := 64 * 1024.

Definition token_fits (t : string) : bool :=
  Z.of_nat (String.length t) <? MaxScanTokenSize.

(** The lines [scanner.Scan()] / [scanner.Text()] deliver one after the
    other, and whether the scanner then stopped with [ErrTooLong]
    ([scanner.Err() != nil]) instead of reaching the end of the input. *)
Fixpoint scanner_deliver (toks : list string) : list string * bool :=
  match toks with
  | [] => ([], false)
  | t :: ts =>
      if token_fits t then
        let '(ls, e) := scanner_deliver ts in (dropCR t :: ls, e)
      else ([], true)
  end.

Definition scanner_run (text : string) : list string * bool :=
  scanner_deliver (scan_tokens text).

(** ** Package [fmt]: the verb [%d] *)

(** [fmt.Sprintf("%d", z)]. *)
Definition fmt_d (z : Z) : string := NilZero.string_of_int (Z.to_int z).

Definition is_digit (c : ascii) : bool :=
  match Ascii.is_nat c with Some _ => true | None => false end.

(** [scanNumber] for [%d]: the longest prefix of decimal digits. *)
Fixpoint scan_number (s : string) : string :=
  match s with
  | String c s' =>
      if is_digit c then String c (scan_number s') else EmptyString
  | EmptyString => EmptyString
  end.

Definition int64_min : Z := - 2 ^ 63.
Definition int64_max : Z := 2 ^ 63 - 1.
Definition in_int64 (z : Z) : bool := (int64_min <=? z) && (z <=? int64_max).

(** [SkipSpace] of the scanner for [Sscanf]: white-space runes are passed
    over, but a newline stops the scan with an error. *)
Fixpoint skipSpace (s : string) : option string :=
  match s with
  | EmptyString => Some EmptyString
  | String c1 r1 =>
      if Ascii.eqb c1 LF then None
      else if Ascii.is_space c1 then skipSpace r1
      else
        match r1 with
        | EmptyString => Some s
        | String c2 r2 =>
            if space2 c1 c2 then skipSpace r2
            else
              match r2 with
              | EmptyString => Some s
              | String c3 r3 =>
                  if space3 c1 c2 c3 then skipSpace r3 else Some s
              end
        end
  end.

(** [fmt.Sscanf(s, "%d", &n)]: white space before the number is skipped,
    one sign is accepted, then the decimal digits are read, at least one;
    what follows them is left unread. [None] is any scan error (a newline
    before the number, no digit, a value outside 64 bits); the target is
    not assigned then. *)
Definition Sscanf_d (s : string) : option Z :=
  match skipSpace s with
  | None => None
  | Some s1 =>
      let '(neg, s2) :=
        match s1 with
        | String c r =>
            if Ascii.eqb c "-"%char then (true, r)
            else if Ascii.eqb c "+"%char then (false, r)
            else (false, s1)
        | EmptyString => (false, s1)
        end in
      match scan_number s2 with
      | EmptyString => None
      | tok =>
          match NilEmpty.uint_of_string tok with
          | Some d =>
              let z := if neg then - Z.of_uint d else Z.of_uint d in
              if in_int64 z then Some z else None
          | None => None
          end
      end
  end.

(** ** The undo record ([internal/git/absorb.go]) *)

Record AbsorbState : Type := mkAbsorbState {
  OriginalHEAD : string;
  BackupRef : string;
  Operations : list string;
  Timestamp : Z;
  CurrentBranch : string;
  StashSHA : string
}.

Definition emptyAbsorbState : AbsorbState :=
  mkAbsorbState EmptyString EmptyString [] 0 EmptyString EmptyString.

(** The lines [SaveAbsorbState] prints into the state file. *)
Definition absorbStateLines (state : AbsorbState) : list string :=
  [ "original_head=" +:+ OriginalHEAD state;
    "backup_ref=" +:+ BackupRef state;
    "current_branch=" +:+ CurrentBranch state;
    "timestamp=" +:+ fmt_d (Timestamp state) ]
  ++ (if String.eqb (StashSHA state) EmptyString then []
      else [ "stash_sha=" +:+ StashSHA state ])
  ++ map (fun op => "operation=" +:+ op) (Operations state).

(** The content of the state file after [SaveAbsorbState]. *)
Definition renderAbsorbState (state : AbsorbState) : string :=
  unlines (absorbStateLines state).

(** One turn of the loop of [LoadAbsorbState]. *)
Definition loadLine (state : AbsorbState) (line : string) : AbsorbState :=
  match SplitN2 line "="%char with
  | [key; value] =>
      if String.eqb key "original_head" then
        mkAbsorbState value (BackupRef state) (Operations state)
          (Timestamp state) (CurrentBranch state) (StashSHA state)
      else if String.eqb key "backup_ref" then
        mkAbsorbState (OriginalHEAD state) value (Operations state)
          (Timestamp state) (CurrentBranch state) (StashSHA state)
      else if String.eqb key "current_branch" then
        mkAbsorbState (OriginalHEAD state) (BackupRef state) (Operations state)
          (Timestamp state) value (StashSHA state)
      else if String.eqb key "timestamp" then
        mkAbsorbState (OriginalHEAD state) (BackupRef state) (Operations state)
          (match Sscanf_d value with Some z => z | None => Timestamp state end)
          (CurrentBranch state) (StashSHA state)
      else if String.eqb key "stash_sha" then
        mkAbsorbState (OriginalHEAD state) (BackupRef state) (Operations state)
          (Timestamp state) (CurrentBranch state) value
      else if String.eqb key "operation" then
        mkAbsorbState (OriginalHEAD state) (BackupRef state)
          (Operations state ++ [value])
          (Timestamp state) (CurrentBranch state) (StashSHA state)
      else state
  | _ => state
  end.

(** [LoadAbsorbState] once the state file is open: scan it line by line. *)
Definition parseAbsorbState (content : string) : Res AbsorbState :=
  let '(lines, tooLong) := scanner_run content in
  let state := fold_left loadLine lines emptyAbsorbState in
  if tooLong then Err "failed to read state file" else Ok state.

(** ** Hunks and the diff parser ([internal/git/absorb.go]) *)

Record Hunk : Type := mkHunk {
  FilePath : string;
  OldFilePath : string;
  IsNew : bool;
  IsDeleted : bool;
  IsRenamed : bool;
  Header : string;
  Content : string;
  Lines : list string;
  ContextBefore : list string;
  ContextAfter : list string;
  AddedLines : list string;
  RemovedLines : list string;
  OldStartLine : Z;
  OldLineCount : Z;
  NewStartLine : Z;
  NewLineCount : Z
}.

(** [parseLineRange]: ["10,5"] or ["10"]; the count defaults to 1. *)
Definition parseLineRange (rangeStr : string) : Res (Z * Z) :=
  let parts := Split rangeStr ","%char in
  let p0 := nth 0 parts EmptyString in
  let start :=
    if String.eqb p0 EmptyString then Some 0 else Sscanf_d p0 in
  match start with
  | None => Err ("invalid start line: " +:+ p0)
  | Some st =>
      match parts with
      | _ :: p1 :: _ =>
          match Sscanf_d p1 with
          | Some c => Ok (st, c)
          | None => Err ("invalid line count: " +:+ p1)
          end
      | _ => Ok (st, 1)
      end
  end.

(** [parseHunkHeader]: the line numbers of the [@@] line. The slice
    [header[startIdx+2 : endIdx]] panics when the two markers overlap. *)
Definition parseHunkHeader (header : string) (hunk : Hunk) : Res Hunk :=
  match Index header "@@", LastIndex header "@@" with
  | Some startIdx, Some endIdx =>
      if Nat.eqb startIdx endIdx then
        Err ("invalid hunk header format: " +:+ header)
      else if Nat.ltb endIdx (startIdx + 2) then Panic
      else
        let lineInfo :=
          TrimSpace (str_take (endIdx - (startIdx + 2))
                              (str_drop (startIdx + 2) header)) in
        match Fields lineInfo with
        | [part0; part1] =>
            match parseLineRange (TrimPrefix part0 "-") with
            | Ok (os, oc) =>
                match parseLineRange (TrimPrefix part1 "+") with
                | Ok (ns, nc) =>
                    Ok (mkHunk (FilePath hunk) (OldFilePath hunk) (IsNew hunk)
                          (IsDeleted hunk) (IsRenamed hunk) (Header hunk)
                          (Content hunk) (Lines hunk) (ContextBefore hunk)
                          (ContextAfter hunk) (AddedLines hunk)
                          (RemovedLines hunk) os oc ns nc)
                | Err m => Err ("failed to parse new line range: " +:+ m)
                | Panic => Panic
                end
            | Err m => Err ("failed to parse old line range: " +:+ m)
            | Panic => Panic
            end
        | _ => Err ("invalid line info format: " +:+ lineInfo)
        end
  | _, _ => Err ("invalid hunk header format: " +:+ header)
  end.

(** The body of the branch "add line to current hunk". *)
Definition addLine (h : Hunk) (line : string) : Hunk :=
  let content := Content h +:+ line +:+ String LF EmptyString in
  let lines := Lines h ++ [line] in
  if HasPrefix line "+" && negb (HasPrefix line "+++") then
    mkHunk (FilePath h) (OldFilePath h) (IsNew h) (IsDeleted h) (IsRenamed h)
      (Header h) content lines (ContextBefore h) (ContextAfter h)
      (AddedLines h ++ [TrimPrefix line "+"]) (RemovedLines h)
      (OldStartLine h) (OldLineCount h) (NewStartLine h) (NewLineCount h)
  else if HasPrefix line "-" && negb (HasPrefix line "---") then
    mkHunk (FilePath h) (OldFilePath h) (IsNew h) (IsDeleted h) (IsRenamed h)
      (Header h) content lines (ContextBefore h) (ContextAfter h)
      (AddedLines h) (RemovedLines h ++ [TrimPrefix line "-"])
      (OldStartLine h) (OldLineCount h) (NewStartLine h) (NewLineCount h)
  else if HasPrefix line " " then
    if Nat.eqb (length (AddedLines h)) 0 && Nat.eqb (length (RemovedLines h)) 0
    then
      mkHunk (FilePath h) (OldFilePath h) (IsNew h) (IsDeleted h) (IsRenamed h)
        (Header h) content lines (ContextBefore h ++ [TrimPrefix line " "])
        (ContextAfter h) (AddedLines h) (RemovedLines h)
        (OldStartLine h) (OldLineCount h) (NewStartLine h) (NewLineCount h)
    else
      mkHunk (FilePath h) (OldFilePath h) (IsNew h) (IsDeleted h) (IsRenamed h)
        (Header h) content lines (ContextBefore h)
        (ContextAfter h ++ [TrimPrefix line " "]) (AddedLines h)
        (RemovedLines h)
        (OldStartLine h) (OldLineCount h) (NewStartLine h) (NewLineCount h)
  else
    mkHunk (FilePath h) (OldFilePath h) (IsNew h) (IsDeleted h) (IsRenamed h)
      (Header h) content lines (ContextBefore h) (ContextAfter h)
      (AddedLines h) (RemovedLines h)
      (OldStartLine h) (OldLineCount h) (NewStartLine h) (NewLineCount h).

(** The local variables of [SplitDiffIntoHunks]. *)
Record ParseState : Type := mkParseState {
  hunks : list Hunk;
  currentFile : string;
  oldFile : string;
  isNew : bool;
  isDeleted : bool;
  isRenamed : bool;
  currentHunk : option Hunk;
  inHunk : bool
}.

Definition initParseState : ParseState :=
  mkParseState [] EmptyString EmptyString false false false None false.

(** "Save previous hunk if exists": [hunks] extended by the open hunk. *)
Definition flushed (st : ParseState) : list Hunk :=
  match currentHunk st with
  | Some h => if inHunk st then hunks st ++ [h] else hunks st
  | None => hunks st
  end.

(** First block of the loop body: a [diff --git] file header. *)
Definition fileHeaderStep (st : ParseState) (line : string) : ParseState :=
  if HasPrefix line "diff --git" then
    let saved := match currentHunk st with Some _ => inHunk st | None => false end in
    let parts := Split line " "%char in
    let named := Nat.leb 4 (length parts) in
    mkParseState
      (flushed st)
      (if named then TrimPrefix (nth 3 parts EmptyString) "b/" else currentFile st)
      (if named then TrimPrefix (nth 2 parts EmptyString) "a/" else oldFile st)
      false false false
      (if saved then None else currentHunk st)
      (if saved then false else inHunk st)
  else st.

(** Second block: the file status headers. *)
Definition statusStep (st : ParseState) (line : string) : ParseState :=
  if HasPrefix line "new file mode" then
    mkParseState (hunks st) (currentFile st) (oldFile st) true (isDeleted st)
      (isRenamed st) (currentHunk st) (inHunk st)
  else if HasPrefix line "deleted file mode" then
    mkParseState (hunks st) (currentFile st) (oldFile st) (isNew st) true
      (isRenamed st) (currentHunk st) (inHunk st)
  else if HasPrefix line "rename from" then
    mkParseState (hunks st) (currentFile st) (TrimPrefix line "rename from ")
      (isNew st) (isDeleted st) true (currentHunk st) (inHunk st)
  else if HasPrefix line "rename to" then
    mkParseState (hunks st) (TrimPrefix line "rename to ") (oldFile st)
      (isNew st) (isDeleted st) (isRenamed st) (currentHunk st) (inHunk st)
  else st.

(** Third block: a hunk header opens a hunk, any other line goes to the
    open hunk. *)
Definition hunkStep (st : ParseState) (line : string) : Res ParseState :=
  if HasPrefix line "@@" && Contains line "@@" then
    let fresh :=
      mkHunk (currentFile st) (oldFile st) (isNew st) (isDeleted st)
        (isRenamed st) line (line +:+ String LF EmptyString)
        [] [] [] [] [] 0 0 0 0 in
    match parseHunkHeader line fresh with
    | Ok h =>
        Ok (mkParseState (flushed st) (currentFile st) (oldFile st) (isNew st)
              (isDeleted st) (isRenamed st) (Some h) true)
    | Err m => Err ("failed to parse hunk header: " +:+ m)
    | Panic => Panic
    end
  else
    match currentHunk st with
    | Some h =>
        if inHunk st then
          Ok (mkParseState (hunks st) (currentFile st) (oldFile st) (isNew st)
                (isDeleted st) (isRenamed st) (Some (addLine h line)) true)
        else Ok st
    | None => Ok st
    end.

(** One turn of the scanning loop. *)
Definition parseStep (st : ParseState) (line : string) : Res ParseState :=
  hunkStep (statusStep (fileHeaderStep st line) line) line.

Fixpoint parseLoop (st : ParseState) (lines : list string) : Res ParseState :=
  match lines with
  | [] => Ok st
  | line :: rest =>
      match parseStep st line with
      | Ok st' => parseLoop st' rest
      | Err m => Err m
      | Panic => Panic
      end
  end.

(** [SplitDiffIntoHunks]. *)
Definition SplitDiffIntoHunks (diff : string) : Res (list Hunk) :=
  let '(lines, tooLong) := scanner_run diff in
  match parseLoop initParseState lines with
  | Ok st =>
      if tooLong then Err "failed to scan diff" else Ok (flushed st)
  | Err m => Err m
  | Panic => Panic
  end.

(** *** Rebuilding a hunk body from its four line groups *)

Inductive LineKind : Type := KAdded | KRemoved | KContext | KOther.

(** The classification the parser applies to a body line. *)
Definition kind_of (line : string) : LineKind :=
  if HasPrefix line "+" && negb (HasPrefix line "+++") then KAdded
  else if HasPrefix line "-" && negb (HasPrefix line "---") then KRemoved
  else if HasPrefix line " " then KContext
  else KOther.

(** The order in which added and removed lines follow one another in a
    body. *)
Definition change_order (body : list string) : list LineKind :=
  List.filter (fun k => match k with KAdded | KRemoved => true | _ => false end)
              (map kind_of body).

(** Removed and added lines put back in the given order, with their
    markers. *)
Fixpoint interleave (order : list LineKind) (removed added : list string)
  : list string :=
  match order with
  | KAdded :: order' =>
      match added with
      | a :: added' => String "+" a :: interleave order' removed added'
      | [] => interleave order' removed added
      end
  | KRemoved :: order' =>
      match removed with
      | r :: removed' => String "-" r :: interleave order' removed' added
      | [] => interleave order' removed added
      end
  | _ :: order' => interleave order' removed added
  | [] => []
  end.

(** [ContextBefore], then the removed and added lines interleaved in their
    original order, then [ContextAfter], every line with its marker. *)
Definition reconstruct (h : Hunk) : list string :=
  map (String " ") (ContextBefore h)
  ++ interleave (change_order (Lines h)) (RemovedLines h) (AddedLines h)
  ++ map (String " ") (ContextAfter h).

(** A body that is a run of context lines, a run of added and removed
    lines, and a run of context lines, and nothing else. *)
Fixpoint only_context (body : list string) : bool :=
  match body with
  | [] => true
  | l :: rest =>
      match kind_of l with KContext => only_context rest | _ => false end
  end.

Fixpoint changes_then_context (body : list string) : bool :=
  match body with
  | [] => true
  | l :: rest =>
      match kind_of l with
      | KAdded | KRemoved => changes_then_context rest
      | KContext => only_context rest
      | KOther => false
      end
  end.

Fixpoint contiguous_body (body : list string) : bool :=
  match body with
  | [] => true
  | l :: rest =>
      match kind_of l with
      | KContext => contiguous_body rest
      | KAdded | KRemoved => changes_then_context rest
      | KOther => false
      end
  end.

(** ** The oracle client ([internal/ai]) *)

Record CommitInfo : Type := mkCommitInfo {
  SHA : string;
  Message : string;
  Diff : string
}.

Record AlternativeAssignment : Type := mkAlternativeAssignment {
  alt_CommitSHA : string;
  alt_CommitMessage : string;
  alt_Confidence : Q;
  alt_Reasoning : string
}.

Record HunkAssignment : Type := mkHunkAssignment {
  ha_Hunk : Hunk;
  ha_CommitSHA : string;
  ha_CommitMessage : string;
  ha_Confidence : Q;
  ha_Reasoning : string;
  ha_Alternatives : list AlternativeAssignment
}.

Record AbsorbResponse : Type := mkAbsorbResponse {
  Assignments : list HunkAssignment;
  UnmatchedHunks : list Hunk;
  TokensUsed : Z;
  Model : string
}.

Record AbsorbRequest : Type := mkAbsorbRequest {
  req_Hunks : list Hunk;
  req_Commits : list CommitInfo;
  req_Strategy : string;
  req_ConfidenceThreshold : Q;
  req_Model : string
}.

(** [absorbJSONResponse]: the oracle's document once [json.Unmarshal] has
    decoded it. *)
Record jsonAlternative : Type := mkJsonAlternative {
  ja_CommitSHA : string;
  ja_Confidence : Q;
  ja_Reasoning : string
}.

Record jsonAssignment : Type := mkJsonAssignment {
  js_HunkIndex : Z;
  js_CommitSHA : string;
  js_Confidence : Q;
  js_Reasoning : string;
  js_Alternatives : list jsonAlternative
}.

Record absorbJSONResponse : Type := mkAbsorbJSONResponse {
  json_Assignments : list jsonAssignment;
  json_UnmatchedHunks : list Z
}.

(** [x < y] on confidences. *)
Definition Qltb (x y : Q) : bool :=
  match Qcompare x y with Lt => true | _ => false end.

(** The loop "find commit message for this SHA": the full identifier and
    the first message line of the first commit matching the first eight
    bytes; the identifier as given and no message when none matches.
    [sha[:8]] panics on a shorter identifier as soon as there is a commit
    to compare with. *)
Fixpoint resolveCommit (commits : list CommitInfo) (sha : string)
  : Res (string * string) :=
  match commits with
  | [] => Ok (sha, EmptyString)
  | commit :: rest =>
      if Nat.ltb (String.length sha) 8 then Panic
      else if HasPrefix (SHA commit) (str_take 8 sha) then
        Ok (SHA commit, first_line (Message commit))
      else resolveCommit rest sha
  end.

(** The loop "process alternatives". *)
Fixpoint processAlternatives (commits : list CommitInfo)
  (alts : list jsonAlternative) : Res (list AlternativeAssignment) :=
  match alts with
  | [] => Ok []
  | alt :: rest =>
      match resolveCommit commits (ja_CommitSHA alt) with
      | Ok (sha, altMessage) =>
          match processAlternatives commits rest with
          | Ok out =>
              Ok (mkAlternativeAssignment sha altMessage (ja_Confidence alt)
                    (ja_Reasoning alt) :: out)
          | Err m => Err m
          | Panic => Panic
          end
      | Err m => Err m
      | Panic => Panic
      end
  end.

(** What the three loops of [parseAbsorbResponse] build up. *)
Record PostState : Type := mkPostState {
  ps_Assignments : list HunkAssignment;
  ps_Unmatched : list Hunk;
  assignedHunks : gmap Z bool
}.

(** A Go map read: the zero value for a missing key. *)
Definition wasAssigned (m : gmap Z bool) (idx : Z) : bool :=
  default false (m !! idx).

Definition hunkAt (hs : list Hunk) (idx : Z) : option Hunk :=
  if (idx <? 0) || (Z.of_nat (length hs) <=? idx) then None
  else hs !! Z.to_nat idx.

(** One turn of the loop "process assignments". *)
Definition processAssignment (req : AbsorbRequest) (st : PostState)
  (assignment : jsonAssignment) : Res PostState :=
  match hunkAt (req_Hunks req) (js_HunkIndex assignment) with
  | None => Ok st
  | Some hunk =>
      let assigned := <[js_HunkIndex assignment := true]> (assignedHunks st) in
      match resolveCommit (req_Commits req) (js_CommitSHA assignment) with
      | Ok (sha, commitMessage) =>
          match processAlternatives (req_Commits req)
                  (js_Alternatives assignment) with
          | Ok alts =>
              let hunkAssignment :=
                mkHunkAssignment hunk sha commitMessage
                  (js_Confidence assignment) (js_Reasoning assignment) alts in
              if String.eqb (req_Strategy req) "best-match"
                 && Qltb (js_Confidence assignment)
                         (req_ConfidenceThreshold req)
              then Ok (mkPostState (ps_Assignments st)
                         (ps_Unmatched st ++ [hunk]) assigned)
              else Ok (mkPostState (ps_Assignments st ++ [hunkAssignment])
                         (ps_Unmatched st) assigned)
          | Err m => Err m
          | Panic => Panic
          end
      | Err m => Err m
      | Panic => Panic
      end
  end.

Fixpoint processAssignments (req : AbsorbRequest) (st : PostState)
  (l : list jsonAssignment) : Res PostState :=
  match l with
  | [] => Ok st
  | a :: rest =>
      match processAssignment req st a with
      | Ok st' => processAssignments req st' rest
      | Err m => Err m
      | Panic => Panic
      end
  end.

(** One turn of the loop "process unmatched hunks". *)
Definition processUnmatched (req : AbsorbRequest) (assigned : gmap Z bool)
  (unmatched : list Hunk) (idx : Z) : list Hunk :=
  match hunkAt (req_Hunks req) idx with
  | Some hunk =>
      if wasAssigned assigned idx then unmatched else unmatched ++ [hunk]
  | None => unmatched
  end.

(** The loop "check for any hunks that weren't mentioned", from index [i]
    on. *)
Fixpoint closeUnmentioned (assigned : gmap Z bool) (mentioned : list Z)
  (i : Z) (rest : list Hunk) (unmatched : list Hunk) : list Hunk :=
  match rest with
  | [] => unmatched
  | hunk :: rest' =>
      closeUnmentioned assigned mentioned (i + 1) rest'
        (if negb (wasAssigned assigned i)
            && negb (existsb (Z.eqb i) mentioned)
         then unmatched ++ [hunk] else unmatched)
  end.

(** [parseAbsorbResponse], from the decoded document on. *)
Definition parseAbsorbResponse (jsonResp : absorbJSONResponse)
  (req : AbsorbRequest) : Res AbsorbResponse :=
  match processAssignments req (mkPostState [] [] ∅)
          (json_Assignments jsonResp) with
  | Ok st =>
      let unmatched1 :=
        fold_left (processUnmatched req (assignedHunks st))
                  (json_UnmatchedHunks jsonResp) (ps_Unmatched st) in
      let unmatched2 :=
        closeUnmentioned (assignedHunks st) (json_UnmatchedHunks jsonResp)
          0 (req_Hunks req) unmatched1 in
      Ok (mkAbsorbResponse (ps_Assignments st) unmatched2 0 EmptyString)
  | Err m => Err m
  | Panic => Panic
  end.

(** ** The review state ([internal/ui/absorb.go]) *)

(** A Go slice together with the cells of its backing array, from the
    slice's first cell on: the slice shows the first [len] cells. Two slice
    values over the same cells see one another's writes. *)
Record Slice (A : Type) : Type := mkSlice {
  array : list A;
  len : nat
}.
Arguments mkSlice {A} array len.
Arguments array {A} s.
Arguments len {A} s.

Definition elems {A : Type} (s : Slice A) : list A := take (len s) (array s).

(** [append(s[:i], s[i+1:]...)] for [i < len s]: the cells after [i] move
    down by one inside the same array; the cell that was last keeps its
    content and leaves the slice. *)
Definition removeAt {A : Type} (i : nat) (s : Slice A) : Slice A :=
  mkSlice (take i (array s)
           ++ take (len s - (i + 1)) (drop (i + 1) (array s))
           ++ drop (len s - 1) (array s))
          (len s - 1).

Record AbsorbReviewModel : Type := mkAbsorbReviewModel {
  assignments : Slice HunkAssignment;
  unmatched : list Hunk;
  commits : list CommitInfo;
  currentIndex : Z;
  showAlternatives : bool;
  selectedAlt : Z;
  width : Z;
  height : Z;
  ready : bool;
  accepted : bool;
  cancelled : bool;
  mode : string;
  modifications : gmap Z string
}.

(** The messages of the terminal program; a key press carries its name. *)
Inductive Msg : Type :=
| WindowSizeMsg (w h : Z)
| KeyMsg (name : string)
| OtherMsg.

(** [absorbKeys] and [key.Matches]. *)
Definition key_in (name : string) (keys : list string) : bool :=
  existsb (String.eqb name) keys.
Definition keys_Up : list string := ["up"; "k"].
Definition keys_Down : list string := ["down"; "j"].
Definition keys_Accept : list string := ["y"; "enter"].
Definition keys_Cancel : list string := ["n"; "q"].
Definition keys_Alternatives : list string := ["a"].
Definition keys_Unassign : list string := ["u"].
Definition keys_NextHunk : list string := ["tab"; "right"; "l"].
Definition keys_PrevHunk : list string := ["shift+tab"; "left"; "h"].

(** [NewAbsorbReviewModel]: the model's slices are the response's. *)
Definition NewAbsorbReviewModel (resp : AbsorbResponse)
  (cs : list CommitInfo) : AbsorbReviewModel :=
  mkAbsorbReviewModel
    (mkSlice (Assignments resp) (length (Assignments resp)))
    (UnmatchedHunks resp) cs 0 false 0 0 0 false false false "review" ∅.

Definition set_nav (m : AbsorbReviewModel) (idx : Z) (md : string) (alt : Z)
  : AbsorbReviewModel :=
  mkAbsorbReviewModel (assignments m) (unmatched m) (commits m) idx
    (showAlternatives m) alt (width m) (height m) (ready m)
    (accepted m) (cancelled m) md (modifications m).

Definition set_done (m : AbsorbReviewModel) (acc canc : bool)
  : AbsorbReviewModel :=
  mkAbsorbReviewModel (assignments m) (unmatched m) (commits m)
    (currentIndex m) (showAlternatives m) (selectedAlt m) (width m) (height m)
    (ready m) acc canc (mode m) (modifications m).

(** [m.assignments[i]]. *)
Definition assignmentAt (m : AbsorbReviewModel) (i : Z)
  : option HunkAssignment :=
  if i <? 0 then None else elems (assignments m) !! Z.to_nat i.

(** The case [absorbKeys.Unassign]. *)
Definition unassign (m : AbsorbReviewModel) : Res AbsorbReviewModel :=
  if currentIndex m <? Z.of_nat (len (assignments m)) then
    match assignmentAt m (currentIndex m) with
    | Some assignment =>
        let assignments' := removeAt (Z.to_nat (currentIndex m)) (assignments m) in
        Ok (mkAbsorbReviewModel assignments'
          (unmatched m ++ [ha_Hunk assignment]) (commits m)
          (if (Z.of_nat (len assignments') <=? currentIndex m)
              && (0 <? currentIndex m)
           then currentIndex m - 1 else currentIndex m)
          (showAlternatives m) (selectedAlt m) (width m) (height m) (ready m)
          (accepted m) (cancelled m) (mode m) (modifications m))
    | None => Panic
    end
  else Ok m.

(** The case ["enter"] of the alternatives view. The bound check reads
    [m.assignments[m.currentIndex]] only when [m.selectedAlt > 0]. *)
Definition applyAlternative (m : AbsorbReviewModel) : Res AbsorbReviewModel :=
  if 0 <? selectedAlt m then
    match assignmentAt m (currentIndex m) with
    | None => Panic
    | Some cur =>
        if selectedAlt m <=? Z.of_nat (length (ha_Alternatives cur)) then
          match ha_Alternatives cur !! Z.to_nat (selectedAlt m - 1) with
          | Some alt =>
              let cur' :=
                mkHunkAssignment (ha_Hunk cur) (alt_CommitSHA alt)
                  (alt_CommitMessage alt) (alt_Confidence alt)
                  (alt_Reasoning alt) (ha_Alternatives cur) in
              Ok (mkAbsorbReviewModel
                    (mkSlice (<[Z.to_nat (currentIndex m) := cur']>
                                (array (assignments m)))
                             (len (assignments m)))
                    (unmatched m) (commits m) (currentIndex m)
                    (showAlternatives m) (selectedAlt m) (width m) (height m)
                    (ready m) (accepted m) (cancelled m) "review"
                    (<[currentIndex m := alt_CommitSHA alt]> (modifications m)))
          | None => Panic
          end
        else Ok (set_nav m (currentIndex m) "review" (selectedAlt m))
    end
  else Ok (set_nav m (currentIndex m) "review" (selectedAlt m)).

(** The key handling of the review view ([m.mode == "review"]): the new
    model and whether the program quits. *)
Definition updateReview (m : AbsorbReviewModel) (name : string)
  : Res (AbsorbReviewModel * bool) :=
  if key_in name keys_Accept then Ok (set_done m true (cancelled m), true)
  else if key_in name keys_Cancel then Ok (set_done m (accepted m) true, true)
  else if key_in name keys_NextHunk then
    if currentIndex m <? Z.of_nat (len (assignments m)) - 1
    then Ok (set_nav m (currentIndex m + 1) (mode m) (selectedAlt m), false)
    else Ok (m, false)
  else if key_in name keys_PrevHunk then
    if 0 <? currentIndex m
    then Ok (set_nav m (currentIndex m - 1) (mode m) (selectedAlt m), false)
    else Ok (m, false)
  else if key_in name keys_Alternatives then
    if currentIndex m <? Z.of_nat (len (assignments m)) then
      match assignmentAt m (currentIndex m) with
      | Some cur =>
          if Nat.ltb 0 (length (ha_Alternatives cur))
          then Ok (set_nav m (currentIndex m) "alternatives" 0, false)
          else Ok (m, false)
      | None => Panic
      end
    else Ok (m, false)
  else if key_in name keys_Unassign then
    match unassign m with
    | Ok m' => Ok (m', false)
    | Err e => Err e
    | Panic => Panic
    end
  else if key_in name keys_Up then Ok (m, false)
  else if key_in name keys_Down then Ok (m, false)
  else if String.eqb name "ctrl+c" then
    Ok (set_done m (accepted m) true, true)
  else Ok (m, false).

(** The key handling of the alternatives view. *)
Definition updateAlternatives (m : AbsorbReviewModel) (name : string)
  : Res (AbsorbReviewModel * bool) :=
  if key_in name ["up"; "k"] then
    if 0 <? selectedAlt m
    then Ok (set_nav m (currentIndex m) (mode m) (selectedAlt m - 1), false)
    else Ok (m, false)
  else if key_in name ["down"; "j"] then
    match assignmentAt m (currentIndex m) with
    | Some cur =>
        if selectedAlt m <? Z.of_nat (length (ha_Alternatives cur))
        then Ok (set_nav m (currentIndex m) (mode m) (selectedAlt m + 1), false)
        else Ok (m, false)
    | None => Panic
    end
  else if String.eqb name "enter" then
    match applyAlternative m with
    | Ok m' => Ok (m', false)
    | Err e => Err e
    | Panic => Panic
    end
  else if key_in name ["q"; "esc"] then
    Ok (set_nav m (currentIndex m) "review" (selectedAlt m), false)
  else Ok (m, false).

(** [AbsorbReviewModel.Update], without the rendering into the viewport. *)
Definition Update (m : AbsorbReviewModel) (msg : Msg)
  : Res (AbsorbReviewModel * bool) :=
  match msg with
  | WindowSizeMsg w h =>
      Ok (mkAbsorbReviewModel (assignments m) (unmatched m) (commits m)
            (currentIndex m) (showAlternatives m) (selectedAlt m) w h true
            (accepted m) (cancelled m) (mode m) (modifications m), false)
  | KeyMsg name =>
      if String.eqb (mode m) "review" then updateReview m name
      else if String.eqb (mode m) "alternatives" then updateAlternatives m name
      else Ok (m, false)
  | OtherMsg => Ok (m, false)
  end.

(** [AbsorbReviewModel.GetResult]: [None] is Go's [nil] response. *)
Definition GetResult (m : AbsorbReviewModel) : bool * option AbsorbResponse :=
  if cancelled m then (false, None)
  else if negb (accepted m) then (false, None)
  else if Nat.ltb 0 (size (modifications m)) then
    (true, Some (mkAbsorbResponse (elems (assignments m)) (unmatched m)
                   0 EmptyString))
  else (true, None).

(** The program loop of [ShowAbsorbReview]: messages are handled until one
    quits; [None] while the program is still waiting for input. *)
Fixpoint runReview (m : AbsorbReviewModel) (msgs : list Msg)
  : Res (option AbsorbReviewModel) :=
  match msgs with
  | [] => Ok None
  | msg :: rest =>
      match Update m msg with
      | Ok (m', true) => Ok (Some m')
      | Ok (m', false) => runReview m' rest
      | Err e => Err e
      | Panic => Panic
      end
  end.

Definition ShowAbsorbReview (resp : AbsorbResponse) (cs : list CommitInfo)
  (msgs : list Msg) : Res (option (AbsorbReviewModel * bool * option AbsorbResponse)) :=
  match runReview (NewAbsorbReviewModel resp cs) msgs with
  | Ok (Some m) => Ok (Some (m, fst (GetResult m), snd (GetResult m)))
  | Ok None => Ok None
  | Err e => Err e
  | Panic => Panic
  end.

(** Step 8 of [runAbsorb]: the response the command goes on with after an
    accepted review. Without a modified response it keeps [absorbResp],
    whose slices still have their old lengths and read the cells the
    review wrote to. *)
Definition responseAfterReview (resp : AbsorbResponse)
  (m : AbsorbReviewModel) (modified : option AbsorbResponse) : AbsorbResponse :=
  match modified with
  | Some r => r
  | None =>
      mkAbsorbResponse (array (assignments m)) (UnmatchedHunks resp)
        (TokensUsed resp) (Model resp)
  end.

(** ** Calls to git and to the operating system *)

(** What opening the state file can give. *)
Inductive FileRead : Type :=
| FileContent (text : string)
| FileNotExist
| FileOpenError.

(** What [git show-ref --heads refs/cmt-backup/], the command of
    [ListBackupRefs], can give: the reference names of its output lines
    (the second field of each), exit status 1 (nothing found), or another
    failure. *)
Inductive ShowRef : Type :=
| ShowRefOutput (refs : list string)
| ShowRefExit1
| ShowRefError.

(** One external call; the index is what the code reads from its outcome:
    [true] is a nil error, [unit] an outcome the code discards. *)
Inductive gitE : Type -> Type :=
| GitCheckoutHead (path : string) : gitE bool
| GitApplyIndex (patchFile : string) : gitE bool
| GitCommitFixup (targetSHA message : string) : gitE bool
| CreatePatchFile (hs : list Hunk) : gitE (option string)
| OsRemove (path : string) : gitE unit
| GitCheckout (branch : string) : gitE bool
| GitResetMixed (ref : string) : gitE bool
| GitStashPop : gitE bool
| GitUpdateRefDelete (refPath : string) : gitE bool
| GitShowRef : gitE ShowRef
| OsOpen (path : string) : gitE FileRead
| OsMkdirAll (path : string) : gitE bool
| OsCreate (path content : string) : gitE bool
| Print (msg : string) : gitE unit.

(** A program: a result, or a call and what to do with its outcome. *)
Inductive Prog (A : Type) : Type :=
| Ret (a : A)
| Vis (X : Type) (e : gitE X) (k : X -> Prog A).
Arguments Ret {A} a.
Arguments Vis {A X} e k.

Fixpoint bind {A B : Type} (p : Prog A) (f : A -> Prog B) : Prog B :=
  match p with
  | Ret a => f a
  | Vis e k => Vis e (fun x => bind (k x) f)
  end.

Definition call {X : Type} (e : gitE X) : Prog X := Vis e Ret.

#[global] Instance prog_ret : MRet Prog := fun A a => Ret a.
#[global] Instance prog_bind : MBind Prog := fun A B f p => bind p f.

(** A call that happened, with its outcome. *)
Inductive Event : Type :=
| Ev (X : Type) (e : gitE X) (x : X).
Arguments Ev {X} e x.

(** The environment answers every call, knowing what happened before. *)
Definition Env : Type := forall X : Type, list Event -> gitE X -> X.

(** Running a program: its result and the calls made, oldest first. *)
Fixpoint run {A : Type} (env : Env) (hist : list Event) (p : Prog A)
  : A * list Event :=
  match p with
  | Ret a => (a, hist)
  | Vis e k =>
      let x := env _ hist e in
      run env (hist ++ [Ev e x]) (k x)
  end.

(** A repository: its working directory and what
    [git rev-parse --show-toplevel] answers there ([GetRootPath]). This
    call reads only and is answered the same every time; it is not listed
    among the events of a run. *)
Record Repository : Type := mkRepository {
  Path : string;
  RootPath : option string
}.

(** [filepath.Join(rootPath, ".git", "cmt", "absorb-undo")] for a root as
    git prints it. *)
Definition stateFile (rootPath : string) : string :=
  if String.eqb rootPath EmptyString then ".git/cmt/absorb-undo"
  else rootPath +:+ "/.git/cmt/absorb-undo".

Definition cmtDir (rootPath : string) : string :=
  if String.eqb rootPath EmptyString then ".git/cmt"
  else rootPath +:+ "/.git/cmt".

(** [SaveAbsorbState]. *)
Definition SaveAbsorbState (repo : Repository) (state : AbsorbState)
  : Prog (Res unit) :=
  match RootPath repo with
  | None => Ret (Err "failed to get repository root")
  | Some rootPath =>
      made ← call (OsMkdirAll (cmtDir rootPath));
      if made : bool then
        created ← call (OsCreate (stateFile rootPath) (renderAbsorbState state));
        if created : bool then Ret (Ok tt)
        else Ret (Err "failed to create state file")
      else Ret (Err "failed to create cmt directory")
  end.

(** [LoadAbsorbState]. *)
Definition LoadAbsorbState (repo : Repository) : Prog (Res AbsorbState) :=
  match RootPath repo with
  | None => Ret (Err "failed to get repository root")
  | Some rootPath =>
      file ← call (OsOpen (stateFile rootPath));
      match file with
      | FileContent text => Ret (parseAbsorbState text)
      | FileNotExist => Ret (Err "no absorb state found to undo")
      | FileOpenError => Ret (Err "failed to open state file")
      end
  end.

(** [Repository.StashPop], [Repository.DeleteBackupRef],
    [Repository.ListBackupRefs]. *)
Definition StashPop : Prog (Res unit) :=
  ok ← call GitStashPop;
  Ret (if ok : bool then Ok tt else Err "git stash pop failed").

Definition DeleteBackupRef (refPath : string) : Prog (Res unit) :=
  ok ← call (GitUpdateRefDelete refPath);
  Ret (if ok : bool then Ok tt
       else Err ("failed to delete backup ref " +:+ refPath)).

Definition ListBackupRefs : Prog (Res (list string)) :=
  out ← call GitShowRef;
  Ret (match out with
       | ShowRefOutput refs => Ok refs
       | ShowRefExit1 => Ok []
       | ShowRefError => Err "failed to list backup refs"
       end).

(** [Repository.CreateFixupCommit]; [targetSHA[:7]] panics on a shorter
    identifier. *)
Definition CreateFixupCommit (targetSHA message : string) : Prog (Res unit) :=
  if String.eqb message EmptyString && Nat.ltb (String.length targetSHA) 7
  then Ret Panic
  else
    let message' :=
      if String.eqb message EmptyString
      then "fixup! " +:+ str_take 7 targetSHA else message in
    ok ← call (GitCommitFixup targetSHA message');
    Ret (if ok : bool then Ok tt else Err "failed to create fixup commit").

(** ** The fixup applier ([ApplyHunksAsFixup]) *)

(** The loop "reset the working directory": one [git checkout HEAD -- file]
    per hunk; a failure stops it unless the hunk is of a new file. *)
Fixpoint resetFiles (hs : list Hunk) : Prog (Res unit) :=
  match hs with
  | [] => Ret (Ok tt)
  | hunk :: rest =>
      ok ← call (GitCheckoutHead (FilePath hunk));
      if (ok : bool) || IsNew hunk then resetFiles rest
      else Ret (Err ("failed to reset file " +:+ FilePath hunk))
  end.

(** The part of [ApplyHunksAsFixup] that runs while the patch file
    exists. *)
Definition applyPatch (hs : list Hunk) (targetSHA patchFile : string)
  : Prog (Res unit) :=
  reset ← resetFiles hs;
  match reset with
  | Ok _ =>
      ok ← call (GitApplyIndex patchFile);
      if ok : bool then CreateFixupCommit targetSHA EmptyString
      else Ret (Err "failed to apply patch")
  | Err m => Ret (Err m)
  | Panic => Ret Panic
  end.

(** [ApplyHunksAsFixup]; [createPatchFile] is one call, and the deferred
    [os.Remove(patchFile)] runs on every way out. *)
Definition ApplyHunksAsFixup (hs : list Hunk) (targetSHA : string)
  : Prog (Res unit) :=
  match hs with
  | [] => Ret (Err "no hunks to apply")
  | _ =>
      created ← call (CreatePatchFile hs);
      match created with
      | None => Ret (Err "failed to create patch file")
      | Some patchFile =>
          result ← applyPatch hs targetSHA patchFile;
          call (OsRemove patchFile);;
          Ret result
      end
  end.

(** ** Step 10 of [runAbsorb]: one fixup commit per target *)

(** "Group hunks by target commit". *)
Definition commitHunksOf (asgs : list HunkAssignment)
  : gmap string (list Hunk) :=
  fold_left
    (fun (m : gmap string (list Hunk)) a =>
       <[ha_CommitSHA a := default [] (m !! ha_CommitSHA a) ++ [ha_Hunk a]]> m)
    asgs ∅.

(** The loop "create fixup commit for each target", over the map's entries
    in the order the run time enumerates them. [sha[:8]] panics on a
    shorter identifier. Messages are without their pictographs. *)
Fixpoint createFixups (entries : list (string * list Hunk))
  : Prog (Res unit) :=
  match entries with
  | [] => Ret (Ok tt)
  | (sha, hs) :: rest =>
      applied ← ApplyHunksAsFixup hs sha;
      match applied with
      | Ok _ =>
          if Nat.ltb (String.length sha) 8 then Ret Panic
          else
            call (Print ("Created fixup commit for " +:+ str_take 8 sha));;
            createFixups rest
      | Err m =>
          if Nat.ltb (String.length sha) 8 then Ret Panic
          else Ret (Err ("failed to create fixup commit for "
                         +:+ str_take 8 sha +:+ ": " +:+ m))
      | Panic => Ret Panic
      end
  end.

(** An order in which [range] can enumerate a map. *)
Definition range_order (m : gmap string (list Hunk))
  (entries : list (string * list Hunk)) : Prop :=
  entries ≡ₚ map_to_list m.

(** Step 10 for a response and an enumeration of its targets. *)
Definition applyAssignments (resp : AbsorbResponse)
  (entries : list (string * list Hunk)) : Prog (Res unit) :=
  match Assignments resp with
  | [] => Ret (Ok tt)
  | _ => createFixups entries
  end.

(** ** Undo ([UndoAbsorb]) *)

Definition UndoAbsorb (repo : Repository) : Prog (Res unit) :=
  loaded ← LoadAbsorbState repo;
  match loaded with
  | Ok state =>
      if String.eqb (BackupRef state) EmptyString then
        Ret (Err "no backup reference found in state")
      else
        switched ← call (GitCheckout (CurrentBranch state));
        if switched : bool then
          reset ← call (GitResetMixed (BackupRef state));
          if reset : bool then
            (if String.eqb (StashSHA state) EmptyString then Ret tt
             else
               popped ← StashPop;
               match popped with
               | Ok _ => Ret tt
               | _ =>
                   call (Print "Warning: Could not restore stashed changes");;
                   call (Print "   You may need to manually run: git stash pop")
               end);;
            deleted ← DeleteBackupRef (BackupRef state);
            (match deleted with
             | Ok _ => Ret tt
             | _ => call (Print "Warning: Could not delete backup ref")
             end);;
            call (OsRemove (stateFile (default EmptyString (RootPath repo))));;
            Ret (Ok tt)
          else Ret (Err "failed to reset to backup")
        else Ret (Err "failed to checkout original branch")
  | Err m => Ret (Err m)
  | Panic => Ret Panic
  end.

(** ** Cleaning up backups ([runCleanupBackups]) *)

(** The last path component: [parts[len(parts)-1]] of
    [strings.Split(ref, "/")]. *)
Definition refName (ref : string) : string :=
  List.last (Split ref "/"%char) EmptyString.

(** The loop over the listed references; the count of deletions. *)
Fixpoint cleanupLoop (activeBackupRef : string) (refs : list string)
  (deletedCount : Z) : Prog Z :=
  match refs with
  | [] => Ret deletedCount
  | ref :: rest =>
      if String.eqb ref activeBackupRef then
        call (Print ("Skipping active backup: " +:+ refName ref));;
        cleanupLoop activeBackupRef rest deletedCount
      else
        deleted ← DeleteBackupRef ref;
        match deleted with
        | Ok _ =>
            call (Print ("Deleted backup: " +:+ refName ref));;
            cleanupLoop activeBackupRef rest (deletedCount + 1)
        | _ =>
            call (Print ("Failed to delete ref " +:+ ref));;
            cleanupLoop activeBackupRef rest deletedCount
        end
  end.

Definition runCleanupBackups (repo : Repository) : Prog (Res unit) :=
  loaded ← LoadAbsorbState repo;
  let activeBackupRef :=
    match loaded with Ok state => BackupRef state | _ => EmptyString end in
  listed ← ListBackupRefs;
  match listed with
  | Ok [] => call (Print "No backups to clean up.");; Ret (Ok tt)
  | Ok refs =>
      deletedCount ← cleanupLoop activeBackupRef refs 0;
      (if deletedCount =? 0
       then call (Print "No backups were deleted (all are active or failed to delete).")
       else call (Print ("Cleaned up " +:+ fmt_d deletedCount +:+ " backup(s)")));;
      Ret (Ok tt)
  | Err m => Ret (Err ("failed to list backup refs: " +:+ m))
  | Panic => Ret Panic
  end.

(** *** What a trace did to the backup namespace *)

(** The references left once the successful deletions of a trace are
    carried out. *)
Fixpoint refs_after (tr : list Event) (refs : gset string) : gset string :=
  match tr with
  | [] => refs
  | Ev (GitUpdateRefDelete r) true :: tr' => refs_after tr' (refs ∖ {[r]})
  | _ :: tr' => refs_after tr' refs
  end.

(** ** What the state file can hold *)

Fixpoint has_byte (c : ascii) (s : string) : bool :=
  match s with
  | EmptyString => false
  | String d s' => Ascii.eqb d c || has_byte c s'
  end.

Fixpoint ends_with (c : ascii) (s : string) : bool :=
  match s with
  | EmptyString => false
  | String d EmptyString => Ascii.eqb d c
  | String _ s' => ends_with c s'
  end.

(** A line the scanner gives back as it was printed: no newline in it, no
    carriage return at its end, short enough for the scanner's buffer. *)
Definition cleanLine (l : string) : bool :=
  negb (has_byte LF l) && negb (ends_with CR l) && token_fits l.

(** A value that survives being printed after [prefix] (a key and its
    [=]) and scanned back. *)
Definition savable (prefix value : string) : bool :=
  negb (has_byte LF value) && negb (ends_with CR value)
  && token_fits (prefix +:+ value).

Definition savableState (st : AbsorbState) : bool :=
  savable "original_head=" (OriginalHEAD st)
  && savable "backup_ref=" (BackupRef st)
  && savable "current_branch=" (CurrentBranch st)
  && savable "stash_sha=" (StashSHA st)
  && forallb (savable "operation=") (Operations st)
  && in_int64 (Timestamp st).

(** The hypothesis of the round-trip property as first written: no newline
    character in any text field. Here neither a line feed nor a carriage
    return is allowed anywhere. *)
Definition newlineFreeText (s : string) : bool :=
  negb (has_byte LF s) && negb (has_byte CR s).

Definition newlineFree (st : AbsorbState) : bool :=
  newlineFreeText (OriginalHEAD st)
  && newlineFreeText (BackupRef st)
  && newlineFreeText (CurrentBranch st)
  && newlineFreeText (StashSHA st)
  && forallb newlineFreeText (Operations st).

(** A state whose head identifier ends in a carriage return, and one
    whose head identifier is longer than the scanner's buffer. *)
Definition stateWithCR : AbsorbState :=
  mkAbsorbState ("abc" +:+ String CR EmptyString) "refs/cmt-backup/absorb-1"
    ["Created 1 fixup commits"] 1700000000 "main" EmptyString.

Fixpoint str_repeat (c : ascii) (n : nat) : string :=
  match n with
  | O => EmptyString
  | S n' => String c (str_repeat c n')
  end.

Definition stateWithLongLine : AbsorbState :=
  mkAbsorbState (str_repeat "a" (Z.to_nat 70000)) "refs/cmt-backup/absorb-1"
    [] 1700000000 "main" EmptyString.

Definition sampleState : AbsorbState :=
  mkAbsorbState "4f2a9c1e" "refs/cmt-backup/absorb-1700000000"
    ["Created 2 fixup commits"; "Backup ref: refs/cmt-backup/absorb-1700000000"]
    1700000000 "feature/x=y" "9d8c7b6a".

Definition sampleRepo : Repository := mkRepository "/work/repo" (Some "/work/repo").

(** An environment with a disk that works: a file holds what was last
    written to it, until it is removed; every other call succeeds. *)
Fixpoint diskLookup (hist : list Event) (path : string) (cur : FileRead)
  : FileRead :=
  match hist with
  | [] => cur
  | Ev (OsCreate p content) true :: hist' =>
      diskLookup hist' path (if String.eqb p path then FileContent content else cur)
  | Ev (OsRemove p) _ :: hist' =>
      diskLookup hist' path (if String.eqb p path then FileNotExist else cur)
  | _ :: hist' => diskLookup hist' path cur
  end.

Definition diskEnv : Env :=
  fun X hist e =>
    match e in gitE T return T with
    | GitCheckoutHead _ => true
    | GitApplyIndex _ => true
    | GitCommitFixup _ _ => true
    | CreatePatchFile _ => Some "/tmp/cmt-absorb-1.patch"
    | OsRemove _ => tt
    | GitCheckout _ => true
    | GitResetMixed _ => true
    | GitStashPop => true
    | GitUpdateRefDelete _ => true
    | GitShowRef => ShowRefExit1
    | OsOpen path => diskLookup hist path FileNotExist
    | OsMkdirAll _ => true
    | OsCreate _ _ => true
    | Print _ => tt
    end.

(** ** The line groups of a body, line by line *)

Definition is_change (k : LineKind) : bool :=
  match k with KAdded | KRemoved => true | _ => false end.

Fixpoint added_of (body : list string) : list string :=
  match body with
  | [] => []
  | l :: rest =>
      match kind_of l with
      | KAdded => TrimPrefix l "+" :: added_of rest
      | _ => added_of rest
      end
  end.

Fixpoint removed_of (body : list string) : list string :=
  match body with
  | [] => []
  | l :: rest =>
      match kind_of l with
      | KRemoved => TrimPrefix l "-" :: removed_of rest
      | _ => removed_of rest
      end
  end.

Fixpoint context_of (body : list string) : list string :=
  match body with
  | [] => []
  | l :: rest =>
      match kind_of l with
      | KContext => TrimPrefix l " " :: context_of rest
      | _ => context_of rest
      end
  end.

(** The context lines before the first added or removed line. *)
Fixpoint context_before_of (body : list string) : list string :=
  match body with
  | [] => []
  | l :: rest =>
      match kind_of l with
      | KContext => TrimPrefix l " " :: context_before_of rest
      | KOther => context_before_of rest
      | _ => []
      end
  end.

(** The context lines after the first added or removed line. *)
Fixpoint context_after_of (body : list string) : list string :=
  match body with
  | [] => []
  | l :: rest =>
      match kind_of l with
      | KAdded | KRemoved => context_of rest
      | _ => context_after_of rest
      end
  end.

(** No added or removed line seen yet in the hunk. *)
Definition unseen (h : Hunk) : bool :=
  Nat.eqb (length (AddedLines h)) 0 && Nat.eqb (length (RemovedLines h)) 0.

(** A hunk as the parser opens it: a header and no body yet. *)
Definition freshHunk (h : Hunk) : Prop :=
  Lines h = [] /\ ContextBefore h = [] /\ ContextAfter h = []
  /\ AddedLines h = [] /\ RemovedLines h = []
  /\ Content h = Header h +:+ String LF EmptyString.

(** A hunk the parser built: its body lines added one by one to a fresh
    hunk. *)
Definition builtHunk (h : Hunk) : Prop :=
  exists h0, freshHunk h0 /\ h = fold_left addLine (Lines h) h0.

(** The invariant of the scanning loop: every saved hunk and the open hunk
    were built line by line. *)
Definition parseInv (st : ParseState) : Prop :=
  Forall builtHunk (hunks st)
  /\ (forall h, currentHunk st = Some h -> builtHunk h).

(** A diff whose hunk has a context line between two changes. *)
Definition diffWithInnerContext : string :=
  unlines [ "diff --git a/x.txt b/x.txt"; "--- a/x.txt"; "+++ b/x.txt";
            "@@ -1,3 +1,3 @@"; " a"; "+b"; " c"; "-d" ].

(** A diff with one contiguous change. *)
Definition diffContiguous : string :=
  unlines [ "diff --git a/x.txt b/x.txt"; "--- a/x.txt"; "+++ b/x.txt";
            "@@ -1,3 +1,3 @@"; " a"; "-b"; "+c"; "+d"; " e" ].

Definition emptyHunk : Hunk :=
  mkHunk EmptyString EmptyString false false false EmptyString EmptyString
    [] [] [] [] [] 0 0 0 0.

(** The hunks the parser returns for the two diffs above. *)
Definition hunkWithInnerContext : Hunk :=
  Eval vm_compute in
    match SplitDiffIntoHunks diffWithInnerContext with
    | Ok (h :: _) => h
    | _ => emptyHunk
    end.

Definition hunkContiguous : Hunk :=
  Eval vm_compute in
    match SplitDiffIntoHunks diffContiguous with
    | Ok (h :: _) => h
    | _ => emptyHunk
    end.

(** ** Sample data *)

Definition sampleHunk (file : string) : Hunk :=
  mkHunk file file false false false "@@ -1 +1,2 @@"
    ("@@ -1 +1,2 @@" +:+ String LF (" x" +:+ String LF ("+y" +:+ String LF EmptyString)))
    [" x"; "+y"] ["x"] [] ["y"] [] 1 1 1 2.

Definition hunkA : Hunk := sampleHunk "a.txt".
Definition hunkB : Hunk := sampleHunk "b.txt".
Definition hunkU : Hunk := sampleHunk "u.txt".

Definition commit1 : CommitInfo :=
  mkCommitInfo "1111111111111111111111111111111111111111" "fix a" EmptyString.
Definition commit2 : CommitInfo :=
  mkCommitInfo "2222222222222222222222222222222222222222" "add b" EmptyString.

(** A request in best-match mode with threshold 0.7. *)
Definition bestMatchRequest : AbsorbRequest :=
  mkAbsorbRequest [hunkA; hunkB] [commit1; commit2] "best-match" (7 # 10)
    EmptyString.

(** An oracle document that names hunk 0 twice, once above and once below
    the threshold. *)
Definition duplicateIndexDocument : absorbJSONResponse :=
  mkAbsorbJSONResponse
    [ mkJsonAssignment 0 "11111111" (9 # 10) "same function" [];
      mkJsonAssignment 0 "22222222" (1 # 2) "maybe" [] ]
    [].

(** An oracle document with one proposal below the threshold. *)
Definition lowConfidenceDocument : absorbJSONResponse :=
  mkAbsorbJSONResponse
    [ mkJsonAssignment 0 "11111111" (1 # 2) "maybe" [];
      mkJsonAssignment 1 "22222222" (19 # 20) "new file" [] ]
    [].

(** An oracle document with confidences outside [0, 1]. *)
Definition outOfRangeDocument : absorbJSONResponse :=
  mkAbsorbJSONResponse
    [ mkJsonAssignment 0 "11111111" (3 # 2) "certain"
        [ mkJsonAlternative "22222222" (- (1 # 4)) "unlikely" ] ]
    [1].

Definition interactiveRequest : AbsorbRequest :=
  mkAbsorbRequest [hunkA; hunkB] [commit1; commit2] "interactive" (7 # 10)
    EmptyString.

(** ** Confidences in the unit interval *)

Definition inUnit (q : Q) : Prop := (0 <= q)%Q /\ (q <= 1)%Q.

Definition documentInUnit (doc : absorbJSONResponse) : Prop :=
  Forall (fun e => inUnit (js_Confidence e)
                   /\ Forall (fun a => inUnit (ja_Confidence a))
                             (js_Alternatives e))
         (json_Assignments doc).

Definition responseInUnit (resp : AbsorbResponse) : Prop :=
  Forall (fun a => inUnit (ha_Confidence a)
                   /\ Forall (fun alt => inUnit (alt_Confidence alt))
                             (ha_Alternatives a))
         (Assignments resp).

(** A response with two assignments and one unmatched hunk, as handed to
    the review. *)
Definition assignmentA : HunkAssignment :=
  mkHunkAssignment hunkA (SHA commit1) "fix a" (9 # 10) "same function"
    [ mkAlternativeAssignment (SHA commit2) "add b" (3 # 5) "same file" ].

Definition assignmentB : HunkAssignment :=
  mkHunkAssignment hunkB (SHA commit2) "add b" (19 # 20) "new file" [].

Definition reviewedResponse : AbsorbResponse :=
  mkAbsorbResponse [assignmentA; assignmentB] [hunkU] 0 EmptyString.

(** What "unassign, then accept" should give for the current assignment
    [a] of a response: the other assignments untouched, the hunk of [a]
    after the unmatched hunks. *)
Definition unassigned (resp : AbsorbResponse) (i : nat) (a : HunkAssignment)
  : AbsorbResponse :=
  mkAbsorbResponse (take i (Assignments resp) ++ drop (S i) (Assignments resp))
    (UnmatchedHunks resp ++ [ha_Hunk a]) 0 EmptyString.

(** ** The shapes of a run of [ApplyHunksAsFixup] *)

(** The restore calls for the first hunks of [hs], with their outcomes. *)
Definition restoreEvents (hs : list Hunk) (outs : list bool) : list Event :=
  zip_with (fun h ok => Ev (GitCheckoutHead (FilePath h)) ok) hs outs.

(** A restore the loop goes on after: it succeeded, or the hunk is of a
    new file. *)
Definition restored (h : Hunk) (ok : bool) : Prop :=
  ok = true \/ IsNew h = true.

(** The patch file could not be created: nothing else happened. *)
Definition patchFileFailed (hs : list Hunk) (res : Res unit)
  (tr : list Event) : Prop :=
  tr = [Ev (CreatePatchFile hs) None]
  /\ res = Err "failed to create patch file".

(** The restore of a file that is not new failed: the files of the hunks
    before were restored, the patch file is removed, and the call returns
    the error without having applied the patch or committed. *)
Definition restoreFailed (hs : list Hunk) (res : Res unit)
  (tr : list Event) : Prop :=
  exists patch outs done h rest,
    hs = done ++ h :: rest
    /\ Forall2 restored done outs
    /\ IsNew h = false
    /\ tr = Ev (CreatePatchFile hs) (Some patch)
            :: restoreEvents hs (outs ++ [false])
            ++ [Ev (OsRemove patch) tt]
    /\ res = Err ("failed to reset file " +:+ FilePath h).

(** What follows a successful [git apply --index]. *)
Definition commitRun (targetSHA : string) (res : Res unit)
  (evs : list Event) : Prop :=
  (evs = [] /\ res = Panic)
  \/ (exists message ok,
        evs = [Ev (GitCommitFixup targetSHA message) ok]
        /\ res = if ok : bool then Ok tt
                 else Err "failed to create fixup commit").

(** Every hunk's file went through the restore, in order, before the patch
    was applied; only then the patch and the commit. *)
Definition patchApplied (hs : list Hunk) (targetSHA : string) (res : Res unit)
  (tr : list Event) : Prop :=
  exists patch outs applied after,
    Forall2 restored hs outs
    /\ tr = Ev (CreatePatchFile hs) (Some patch)
            :: restoreEvents hs outs
            ++ Ev (GitApplyIndex patch) applied :: after
    /\ ((applied = false /\ after = [Ev (OsRemove patch) tt]
         /\ res = Err "failed to apply patch")
        \/ (applied = true
            /\ exists evs, commitRun targetSHA res evs
                 /\ after = evs ++ [Ev (OsRemove patch) tt])).

(** An environment in which the restore of [b.txt] fails and everything
    else works. *)
Definition restoreFailsEnv : Env :=
  fun X hist e =>
    match e in gitE T return T with
    | GitCheckoutHead path => negb (String.eqb path "b.txt")
    | other => diskEnv _ hist other
    end.

Definition newHunkB : Hunk :=
  mkHunk "b.txt" "b.txt" true false false "@@ -0,0 +1 @@"
    ("@@ -0,0 +1 @@" +:+ String LF ("+y" +:+ String LF EmptyString))
    ["+y"] [] [] ["y"] [] 0 0 1 1.

(** ** Observing the fixup loop *)

(** The hunk groups for which a patch file was asked: one per call of
    [ApplyHunksAsFixup] with hunks. *)
Fixpoint patched (tr : list Event) : list (list Hunk) :=
  match tr with
  | [] => []
  | Ev (CreatePatchFile hs) _ :: tr' => hs :: patched tr'
  | _ :: tr' => patched tr'
  end.

(** Every target of the loop got its call of [ApplyHunksAsFixup]. *)
Definition everyTargetAttempted (env : Env) (resp : AbsorbResponse)
  (entries : list (string * list Hunk)) : Prop :=
  forall sha hs, In (sha, hs) entries ->
    In hs (patched (snd (run env [] (applyAssignments resp entries)))).

(** An environment in which [git apply] fails and everything else
    works. *)
Definition applyFailsEnv : Env :=
  fun X hist e =>
    match e in gitE T return T with
    | GitApplyIndex _ => false
    | other => diskEnv _ hist other
    end.

(** The targets of the sample response, as the map enumerates them. *)
Definition sampleEntries : list (string * list Hunk) :=
  map_to_list (commitHunksOf (Assignments reviewedResponse)).

(** ** Observing undo *)

(** A trace in which [git stash pop] failed. *)
Definition stashPopFailed (tr : list Event) : bool :=
  existsb (fun ev => match ev with
                     | Ev GitStashPop false => true
                     | _ => false
                     end) tr.

(** The calls of an undo that goes through although the stash could not be
    reapplied. *)
Definition undoDespiteStash (root text : string) (st : AbsorbState)
  (deleted : bool) : list Event :=
  [ Ev (OsOpen (stateFile root)) (FileContent text);
    Ev (GitCheckout (CurrentBranch st)) true;
    Ev (GitResetMixed (BackupRef st)) true;
    Ev GitStashPop false;
    Ev (Print "Warning: Could not restore stashed changes") tt;
    Ev (Print "   You may need to manually run: git stash pop") tt;
    Ev (GitUpdateRefDelete (BackupRef st)) deleted ]
  ++ (if deleted then []
      else [Ev (Print "Warning: Could not delete backup ref") tt])
  ++ [Ev (OsRemove (stateFile root)) tt].

(** An environment that holds the sample state in the state file, in which
    [git stash pop] fails and everything else works. *)
Definition stashFailsEnv : Env :=
  fun X hist e =>
    match e in gitE T return T with
    | GitStashPop => false
    | OsOpen _ => FileContent (renderAbsorbState sampleState)
    | other => diskEnv _ hist other
    end.

(** ** Observing the cleanup of backups *)

(** The deletions of backup references in a trace, with their outcomes. *)
Fixpoint deletes (tr : list Event) : list (string * bool) :=
  match tr with
  | [] => []
  | Ev (GitUpdateRefDelete r) ok :: tr' => (r, ok) :: deletes tr'
  | _ :: tr' => deletes tr'
  end.

(** The lines printed in a trace. *)
Fixpoint printed (tr : list Event) : list string :=
  match tr with
  | [] => []
  | Ev (Print msg) _ :: tr' => msg :: printed tr'
  | _ :: tr' => printed tr'
  end.

(** The references the listing of the backup namespace returned. *)
Fixpoint listedRefs (tr : list Event) : list string :=
  match tr with
  | [] => []
  | Ev GitShowRef out :: _ =>
      match out with ShowRefOutput refs => refs | _ => [] end
  | _ :: tr' => listedRefs tr'
  end.

(** The backup reference of the state record that was loaded; empty when
    no record was loaded. *)
Fixpoint activeRef (tr : list Event) : string :=
  match tr with
  | [] => EmptyString
  | Ev (OsOpen _) file :: _ =>
      match file with
      | FileContent text =>
          match parseAbsorbState text with
          | Ok state => BackupRef state
          | _ => EmptyString
          end
      | _ => EmptyString
      end
  | _ :: tr' => activeRef tr'
  end.

(** The calls the cleanup loop can make for the listed references. *)
Definition loopEvent (active : string) (refs : list string) (ev : Event)
  : Prop :=
  match ev with
  | Ev (Print _) _ => True
  | Ev (GitUpdateRefDelete r) _ => r <> active /\ In r refs
  | _ => False
  end.

(** Backup exclusivity as first stated, read on a trace: of the listed
    references, the active one is left and every other one is gone. *)
Definition backupsExclusive (tr : list Event) : Prop :=
  let refs0 : gset string := list_to_set (listedRefs tr) in
  (activeRef tr ∈ refs0 -> activeRef tr ∈ refs_after tr refs0)
  /\ (forall r, r ∈ refs0 -> r <> activeRef tr -> r ∉ refs_after tr refs0).

(** An environment that holds the sample state, in which the listing
    gives its backup and an older one, and in which deleting a reference
    fails. *)
Definition olderBackup : string := "refs/cmt-backup/absorb-1600000000".

Definition deleteFailsEnv : Env :=
  fun X hist e =>
    match e in gitE T return T with
    | GitUpdateRefDelete _ => false
    | GitShowRef => ShowRefOutput [BackupRef sampleState; olderBackup]
    | OsOpen _ => FileContent (renderAbsorbState sampleState)
    | other => diskEnv _ hist other
    end.

(** The same with deletions that work. *)
Definition cleanupEnv : Env :=
  fun X hist e =>
    match e in gitE T return T with
    | GitShowRef => ShowRefOutput [BackupRef sampleState; olderBackup]
    | OsOpen _ => FileContent (renderAbsorbState sampleState)
    | other => diskEnv _ hist other
    end.

(** *** What git lists for [ListBackupRefs] *)

(** [strings.HasSuffix]. *)
Definition HasSuffix (s suffix : string) : bool :=
  HasPrefix (String.rev s) (String.rev suffix).

(** A pattern of [git show-ref] is matched against the end of the name of
    a reference, whole path components only. *)
Definition refMatches (ref pattern : string) : bool :=
  String.eqb ref pattern || HasSuffix ref (String "/" pattern).

(** [git show-ref --heads <pattern>] in a repository that holds the
    references [refs]: [--heads] limits the listing to the references
    under [refs/heads/], and the exit status is 1 when no line is
    printed. *)
Definition gitShowRefHeads (refs : list string) (pattern : string) : ShowRef :=
  match List.filter
          (fun r => HasPrefix r "refs/heads/" && refMatches r pattern) refs with
  | [] => ShowRefExit1
  | listed => ShowRefOutput listed
  end.

(** A repository that holds the references [refs] and whose state file
    reads [file]; every other call succeeds. The listing is answered as
    git answers the command of [ListBackupRefs],
    [git show-ref --heads refs/cmt-backup/]. *)
Definition repositoryEnv (refs : list string) (file : FileRead) : Env :=
  fun X hist e =>
    match e in gitE T return T with
    | GitShowRef => gitShowRefHeads refs "refs/cmt-backup/"
    | OsOpen _ => file
    | other => diskEnv _ hist other
    end.

(** The outcome of a call is what the environment answers, after some
    history. *)
Definition answered (env : Env) (ev : Event) : Prop :=
  match ev with
  | Ev e x => exists hist, x = env _ hist e
  end.

(** Backup exclusivity as the specification states it, [namespace] being
    the references of the backup namespace before the cleanup: the active
    one is left, and every other one is gone. *)
Definition namespaceExclusive (namespace : gset string) (tr : list Event)
  : Prop :=
  (activeRef tr ∈ namespace -> activeRef tr ∈ refs_after tr namespace)
  /\ (forall r, r ∈ namespace -> r <> activeRef tr ->
      r ∉ refs_after tr namespace).

(** A repository with a branch, the backup of the sample state and an
    older backup, and the sample state as its state file. *)
Definition backupsEnv : Env :=
  repositoryEnv [ "refs/heads/main"; BackupRef sampleState; olderBackup ]
    (FileContent (renderAbsorbState sampleState)).

(** ** The hunk indices behind a response *)

(** [0 <= idx < len(hunks)]. *)
Definition validIndex (hs : list Hunk) (idx : Z) : Prop :=
  0 <= idx < Z.of_nat (length hs).

#[global] Instance validIndex_dec (hs : list Hunk) (idx : Z) :
  Decision (validIndex hs idx).
Proof. unfold validIndex. apply _. Defined.

(** The hunks at some indices; an index out of range gives none. *)
Definition hunksAt (hs : list Hunk) (idxs : list Z) : list Hunk :=
  omap (hunkAt hs) idxs.

(** The indices in range that the oracle's assignments name, in order. *)
Definition assignedIndices (hs : list Hunk) (l : list jsonAssignment) : list Z :=
  filter (validIndex hs) (map js_HunkIndex l).

(** The indices in range of the oracle's unmatched list that no assignment
    names. *)
Definition unmatchedIndices (hs : list Hunk) (assigned unmatched : list Z)
  : list Z :=
  filter (fun idx => validIndex hs idx /\ (idx ∉ assigned)) unmatched.

(** The indices from [i] on that the oracle names nowhere. *)
Definition unmentionedIndices (assigned unmatched : list Z) (i n : Z) : list Z :=
  filter (fun idx => (idx ∉ assigned) /\ (idx ∉ unmatched)) (seqZ i n).

(** The invariant of the loop over the oracle's assignments, [pre] being
    the entries handled so far: the hunks placed are those at the indices
    in range of [pre], each once per entry, and [assignedHunks] marks
    these indices. *)
Definition postInv (req : AbsorbRequest) (pre : list jsonAssignment)
  (st : PostState) : Prop :=
  exists ai ui,
    map ha_Hunk (ps_Assignments st) = hunksAt (req_Hunks req) ai
    /\ ps_Unmatched st = hunksAt (req_Hunks req) ui
    /\ (ai ++ ui) ≡ₚ assignedIndices (req_Hunks req) pre
    /\ (forall idx, wasAssigned (assignedHunks st) idx = true
                    <-> idx ∈ assignedIndices (req_Hunks req) pre).

(** A diff whose hunk ends with the marker of a missing final newline. *)
Definition diffWithMarker : string :=
  unlines [ "diff --git a/x.txt b/x.txt"; "--- a/x.txt"; "+++ b/x.txt";
            "@@ -1 +1 @@"; "-a"; "+b"; "\ No newline at end of file" ].

Definition hunkWithMarker : Hunk :=
  Eval vm_compute in
    match SplitDiffIntoHunks diffWithMarker with
    | Ok (h :: _) => h
    | _ => emptyHunk
    end.

(** An oracle document whose commit identifier has fewer than eight
    bytes. *)
Definition shortShaDocument : absorbJSONResponse :=
  mkAbsorbJSONResponse [ mkJsonAssignment 0 "1111" (9 # 10) "short" [] ] [].

(** ** The diff parser on the text git prints *)

Fixpoint has_space (s : string) : bool :=
  match s with
  | EmptyString => false
  | String c s' => Ascii.is_space c || has_space s'
  end.

(** A hunk header as git prints it (the format the comment of
    [parseHunkHeader] gives): [@@ -old_start,old_count +new_start,new_count @@]
    and the optional section heading. *)
Definition hunkHeaderText (os oc ns nc : Z) (section : string) : string :=
  "@@ -" +:+ fmt_d os +:+ "," +:+ fmt_d oc +:+ " +" +:+ fmt_d ns +:+ ","
  +:+ fmt_d nc +:+ " @@" +:+ section.

(** A line number or line count: not negative, and a Go [int]. *)
Definition lineNumber (z : Z) : bool := (0 <=? z) && (z <=? int64_max).

(** The hunk with its four line numbers set. *)
Definition setLineNumbers (h : Hunk) (os oc ns nc : Z) : Hunk :=
  mkHunk (FilePath h) (OldFilePath h) (IsNew h) (IsDeleted h) (IsRenamed h)
    (Header h) (Content h) (Lines h) (ContextBefore h) (ContextAfter h)
    (AddedLines h) (RemovedLines h) os oc ns nc.

(** A hunk cut out of the lines [L] of a diff: its header is one of the
    [@@] lines, and its body lines are lines of the diff that open neither
    a hunk nor a file. *)
Definition hunkWithin (L : list string) (h : Hunk) : Prop :=
  HasPrefix (Header h) "@@" = true
  /\ In (Header h) L
  /\ Forall (fun l => In l L /\ HasPrefix l "@@" = false
                     /\ HasPrefix l "diff --git" = false) (Lines h).

(** The invariant of the scanning loop for [hunkWithin]; an open hunk is
    open for lines ([inHunk]). *)
Definition withinInv (L : list string) (st : ParseState) : Prop :=
  Forall (hunkWithin L) (hunks st)
  /\ (forall h, currentHunk st = Some h -> hunkWithin L h).

(** *** The hunks in the lines of a diff *)






(** *** A diff as git prints it *)

(** One hunk of the text: the four numbers of its header, the section
    heading after the closing [@@], and its body lines. *)
Record HunkText : Type := mkHunkText {
  ht_oldStart : Z;
  ht_oldCount : Z;
  ht_newStart : Z;
  ht_newCount : Z;
  ht_section : string;
  ht_body : list string
}.

Definition ht_header (t : HunkText) : string :=
  hunkHeaderText (ht_oldStart t) (ht_oldCount t) (ht_newStart t)
    (ht_newCount t) (ht_section t).

(** What happened to a file, with the file mode git prints for a new or a
    deleted file and the similarity it prints for a renamed one. *)
Inductive FileKind : Type :=
| Changed
| Created (mode : string)
| Removed (mode : string)
| Renamed (similarity : string).

(** The changes to one file: its old and its new path, what happened to
    it, the further header lines (the [index], [---] and [+++] lines), its
    hunks. *)
Record FileText : Type := mkFileText {
  ft_oldPath : string;
  ft_path : string;
  ft_kind : FileKind;
  ft_meta : list string;
  ft_hunks : list HunkText
}.

(** The file status headers of a file. *)
Definition kindLines (f : FileText) : list string :=
  match ft_kind f with
  | Changed => []
  | Created mode => ["new file mode " +:+ mode]
  | Removed mode => ["deleted file mode " +:+ mode]
  | Renamed similarity =>
      [ "similarity index " +:+ similarity;
        "rename from " +:+ ft_oldPath f;
        "rename to " +:+ ft_path f ]
  end.

Definition hunkTextLines (t : HunkText) : list string :=
  ht_header t :: ht_body t.

Definition fileTextLines (f : FileText) : list string :=
  ("diff --git a/" +:+ ft_oldPath f +:+ " b/" +:+ ft_path f)
  :: kindLines f ++ ft_meta f ++ concat (map hunkTextLines (ft_hunks f)).

Definition diffLines (fs : list FileText) : list string :=
  concat (map fileTextLines fs).

(** A line that opens neither a file nor a hunk and is no file status
    header. *)
Definition plainLine (l : string) : bool :=
  negb (HasPrefix l "diff --git") && negb (HasPrefix l "new file mode")
  && negb (HasPrefix l "deleted file mode") && negb (HasPrefix l "rename from")
  && negb (HasPrefix l "rename to") && negb (HasPrefix l "@@").

Definition hunkTextOk (t : HunkText) : bool :=
  lineNumber (ht_oldStart t) && lineNumber (ht_oldCount t)
  && lineNumber (ht_newStart t) && lineNumber (ht_newCount t)
  && negb (has_byte "@" (ht_section t)) && forallb plainLine (ht_body t).

Definition fileTextOk (f : FileText) : bool :=
  negb (has_byte " " (ft_oldPath f)) && negb (has_byte " " (ft_path f))
  && forallb plainLine (ft_meta f) && forallb hunkTextOk (ft_hunks f).

(** A diff of files whose paths have no blank, every line of which the
    scanner delivers as it is. *)
Definition diffOk (fs : list FileText) : bool :=
  forallb fileTextOk fs && forallb cleanLine (diffLines fs).

Definition isCreated (k : FileKind) : bool :=
  match k with Created _ => true | _ => false end.
Definition isRemoved (k : FileKind) : bool :=
  match k with Removed _ => true | _ => false end.
Definition isRenamedKind (k : FileKind) : bool :=
  match k with Renamed _ => true | _ => false end.

(** The hunk expected for a hunk of the text of the file [f]. *)
Definition hunkOfText (f : FileText) (t : HunkText) : Hunk :=
  mkHunk (ft_path f) (ft_oldPath f) (isCreated (ft_kind f))
    (isRemoved (ft_kind f)) (isRenamedKind (ft_kind f)) (ht_header t)
    (ht_header t +:+ String LF (unlines (ht_body t))) (ht_body t)
    (context_before_of (ht_body t)) (context_after_of (ht_body t))
    (added_of (ht_body t)) (removed_of (ht_body t))
    (ht_oldStart t) (ht_oldCount t) (ht_newStart t) (ht_newCount t).

Definition hunksOfText (fs : list FileText) : list Hunk :=
  concat (map (fun f => map (hunkOfText f) (ft_hunks f)) fs).

(** A diff of two files as [git diff --cached] prints it: a changed file
    with two hunks and a new file. *)
Definition sampleDiffText : list FileText :=
  [ mkFileText "src/main.go" "src/main.go" Changed
      [ "index 83db48f..bf269f4 100644"; "--- a/src/main.go";
        "+++ b/src/main.go" ]
      [ mkHunkText 10 5 10 7 " func main() {"
          [ " a"; "-b"; "+c"; "+d"; " e"; "\ No newline at end of file" ];
        mkHunkText 40 3 42 2 "" [ " x"; "-y"; " z" ] ];
    mkFileText "docs/new.md" "docs/new.md" (Created "100644")
      [ "index 0000000..e69de29"; "--- /dev/null"; "+++ b/docs/new.md" ]
      [ mkHunkText 0 0 1 2 "" [ "+one"; "+two" ] ] ].

(** A diff that renames a file without changing it. *)
Definition pureRenameDiff : string :=
  unlines [ "diff --git a/old.txt b/new.txt"; "similarity index 100%";
            "rename from old.txt"; "rename to new.txt" ].

(** ** What becomes of an entry of the oracle's document *)

(** The entry names a hunk of the request. *)
Definition inRange (req : AbsorbRequest) (e : jsonAssignment) : bool :=
  match hunkAt (req_Hunks req) (js_HunkIndex e) with
  | Some _ => true
  | None => false
  end.

(** The entry is demoted: best-match mode and a confidence below the
    threshold. *)
Definition demoted (req : AbsorbRequest) (e : jsonAssignment) : bool :=
  String.eqb (req_Strategy req) "best-match"
  && Qltb (js_Confidence e) (req_ConfidenceThreshold req).

(** The entries that give an assignment: in range and not demoted. *)
Definition keptEntries (req : AbsorbRequest) (l : list jsonAssignment)
  : list jsonAssignment :=
  List.filter (fun e => inRange req e && negb (demoted req e)) l.

(** The hunks of the entries of [l] for which [p] holds, those out of
    range left out. *)
Definition hunksOf (req : AbsorbRequest) (p : jsonAssignment -> bool)
  (l : list jsonAssignment) : list Hunk :=
  omap (fun e => hunkAt (req_Hunks req) (js_HunkIndex e)) (List.filter p l).

(** The alternative [alt] of an assignment is made of the alternative [ja]
    of the oracle's document: its commit resolved, its confidence and its
    reasoning as they came. *)
Definition alternativeOf (cs : list CommitInfo) (ja : jsonAlternative)
  (alt : AlternativeAssignment) : Prop :=
  resolveCommit cs (ja_CommitSHA ja) = Ok (alt_CommitSHA alt, alt_CommitMessage alt)
  /\ alt_Confidence alt = ja_Confidence ja
  /\ alt_Reasoning alt = ja_Reasoning ja.

(** The assignment [a] is made of the entry [e] of the oracle's document:
    the hunk at its index, its commit resolved, its confidence and its
    reasoning as they came, and its alternatives one by one. *)
Definition madeOf (req : AbsorbRequest) (e : jsonAssignment)
  (a : HunkAssignment) : Prop :=
  hunkAt (req_Hunks req) (js_HunkIndex e) = Some (ha_Hunk a)
  /\ resolveCommit (req_Commits req) (js_CommitSHA e)
     = Ok (ha_CommitSHA a, ha_CommitMessage a)
  /\ ha_Confidence a = js_Confidence e
  /\ ha_Reasoning a = js_Reasoning e
  /\ Forall2 (alternativeOf (req_Commits req)) (js_Alternatives e)
       (ha_Alternatives a).

(** An oracle document whose first entry has an alternative and whose
    confidences all differ. *)
Definition alternativesDocument : absorbJSONResponse :=
  mkAbsorbJSONResponse
    [ mkJsonAssignment 0 "11111111" (9 # 10) "same function"
        [ mkJsonAlternative "22222222" (3 # 5) "same file" ];
      mkJsonAssignment 1 "22222222" (19 # 20) "new file" [] ]
    [].

(** ** More on the oracle's document *)

(** The request with another confidence threshold. *)
Definition withThreshold (req : AbsorbRequest) (threshold : Q) : AbsorbRequest :=
  mkAbsorbRequest (req_Hunks req) (req_Commits req) (req_Strategy req)
    threshold (req_Model req).

(** The oracle's document without the entries whose hunk index is out of
    range. *)
Definition inRangeDocument (hs : list Hunk) (doc : absorbJSONResponse)
  : absorbJSONResponse :=
  mkAbsorbJSONResponse
    (filter (fun e => validIndex hs (js_HunkIndex e)) (json_Assignments doc))
    (filter (validIndex hs) (json_UnmatchedHunks doc)).

(** The target of an assignment made from the oracle's entry [e]: the
    first commit of the request whose identifier starts with the first
    eight bytes of the identifier the oracle gave, with the first line of
    its message; or, when there is no such commit, the identifier as the
    oracle gave it and no message. *)
Definition targetOf (cs : list CommitInfo) (sha : string)
  (target message : string) : Prop :=
  (exists pre c post,
     cs = pre ++ c :: post
     /\ Forall (fun c' => HasPrefix (SHA c') (str_take 8 sha) = false) pre
     /\ HasPrefix (SHA c) (str_take 8 sha) = true
     /\ target = SHA c /\ message = first_line (Message c))
  \/ (Forall (fun c' => HasPrefix (SHA c') (str_take 8 sha) = false) cs
      /\ target = sha /\ message = EmptyString).

Definition targeted (doc : absorbJSONResponse) (req : AbsorbRequest)
  (a : HunkAssignment) : Prop :=
  exists e,
    In e (json_Assignments doc)
    /\ hunkAt (req_Hunks req) (js_HunkIndex e) = Some (ha_Hunk a)
    /\ targetOf (req_Commits req) (js_CommitSHA e)
         (ha_CommitSHA a) (ha_CommitMessage a)
    /\ ha_Reasoning a = js_Reasoning e.

(** An oracle document for the sample request: hunk 0 for the first
    commit, named by eight bytes, hunk 1 for a commit that is not in the
    request, and two indices out of range. *)
Definition mixedDocument : absorbJSONResponse :=
  mkAbsorbJSONResponse
    [ mkJsonAssignment 0 "11111111" (9 # 10) "same function" [];
      mkJsonAssignment 7 "22222222" (9 # 10) "no such hunk" [];
      mkJsonAssignment 1 "abcdef0123" (4 # 5) "guess" [] ]
    [ -1; 5 ].

(** ** What a review model holds *)

(** The hunks a review model holds: those of its assignments, then the
    unmatched ones. *)
Definition reviewHunks (m : AbsorbReviewModel) : list Hunk :=
  map ha_Hunk (elems (assignments m)) ++ unmatched m.

(** The hunks of a response. *)
Definition responseHunks (resp : AbsorbResponse) : list Hunk :=
  map ha_Hunk (Assignments resp) ++ UnmatchedHunks resp.

(** A slice lies within its backing array. *)
Definition sliceOk (m : AbsorbReviewModel) : Prop :=
  (len (assignments m) <= length (array (assignments m)))%nat.

(** The current index points at an assignment, or is 0 when there is
    none. *)
Definition indexInRange (m : AbsorbReviewModel) : Prop :=
  0 <= currentIndex m
  /\ (currentIndex m < Z.of_nat (len (assignments m)) \/ currentIndex m = 0).

(** ** Fixups, undo, the undo record and backups at work *)

(** The hunks of the assignments that target the commit [sha], in the
    order of the assignments. *)
Definition hunksFor (sha : string) (asgs : list HunkAssignment) : list Hunk :=
  map ha_Hunk (filter (fun a => ha_CommitSHA a = sha) asgs).

(** The line step 10 prints for a target. *)
Definition createdLine (entry : string * list Hunk) : string :=
  "Created fixup commit for " +:+ str_take 8 (fst entry).

(** *** The runs of [UndoAbsorb] *)

(** The calls of an undo that has loaded the record [st] from [text],
    given the outcomes of the checkout, of the reset, of the stash pop and
    of the deletion of the backup reference. *)
Definition undoEvents (root text : string) (st : AbsorbState)
  (switched reset popped deleted : bool) : list Event :=
  [ Ev (OsOpen (stateFile root)) (FileContent text);
    Ev (GitCheckout (CurrentBranch st)) switched ]
  ++ (if switched then
        Ev (GitResetMixed (BackupRef st)) reset
        :: (if reset then
              (if String.eqb (StashSHA st) EmptyString then []
               else Ev GitStashPop popped
                    :: (if popped then []
                        else [ Ev (Print "Warning: Could not restore stashed changes") tt;
                               Ev (Print "   You may need to manually run: git stash pop") tt ]))
              ++ [ Ev (GitUpdateRefDelete (BackupRef st)) deleted ]
              ++ (if deleted then []
                  else [ Ev (Print "Warning: Could not delete backup ref") tt ])
              ++ [ Ev (OsRemove (stateFile root)) tt ]
            else [])
      else []).

Definition undoResult (switched reset : bool) : Res unit :=
  if switched then
    if reset then Ok tt else Err "failed to reset to backup"
  else Err "failed to checkout original branch".

(** A call that deletes or reapplies something: the deletion of a
    reference, the removal of a file, [git stash pop]. *)
Definition destructive (ev : Event) : bool :=
  match ev with
  | Ev (GitUpdateRefDelete _) _ => true
  | Ev (OsRemove _) _ => true
  | Ev GitStashPop _ => true
  | _ => false
  end.

(** A call that changes the repository or the disk: every call but the
    opening of a file, the listing of references and a printed line. *)
Definition changing (ev : Event) : bool :=
  match ev with
  | Ev (OsOpen _) _ => false
  | Ev GitShowRef _ => false
  | Ev (Print _) _ => false
  | _ => true
  end.

(** The environment answers [os.Open] from what was written and removed
    before: a disk that no one else writes to. *)
Definition diskBacked (env : Env) : Prop :=
  forall hist path, env _ hist (OsOpen path) = diskLookup hist path FileNotExist.

(** *** Lines of the state file that [LoadAbsorbState] skips *)

(** The keys the loop of [LoadAbsorbState] stores. *)
Definition storedKeys : list string :=
  [ "original_head"; "backup_ref"; "current_branch"; "timestamp"; "stash_sha";
    "operation" ].

(** A line without [=], or whose key is none of the stored ones (the old
    [backup_branch] among them). *)
Definition skippedLine (l : string) : bool :=
  match SplitN2 l "="%char with
  | [key; _] => negb (existsb (String.eqb key) storedKeys)
  | _ => true
  end.

(** *** The record [runAbsorb] writes (steps 11 and 13) *)

(** [CreateBackupRef]: the reference made for a backup name; an empty name
    is replaced by one made of the time. *)
Definition backupRefPath (clock : Z) (name : string) : string :=
  let name := if String.eqb name EmptyString then "absorb-" +:+ fmt_d clock else name in
  "refs/cmt-backup/" +:+ name.

(** Step 11: the backup is named after the time, in seconds. *)
Definition backupName (now : Z) : string := "absorb-" +:+ fmt_d now.

(** Step 13: the record, from the identifier of HEAD (when git gave one),
    the backup reference, the current branch, the time and the number of
    assignments. It names no stash. *)
Definition absorbRecord (headSHA : option string) (backupRef currentBranch : string)
  (now : Z) (fixups : nat) : AbsorbState :=
  mkAbsorbState (default backupRef headSHA) backupRef
    [ "Created " +:+ fmt_d (Z.of_nat fixups) +:+ " fixup commits";
      "Backup ref: " +:+ backupRef ]
    now currentBranch EmptyString.



(** *** The count the cleanup reports *)

(** The deletions of a trace that succeeded. *)
Fixpoint deletedRefs (tr : list Event) : Z :=
  match tr with
  | [] => 0
  | Ev (GitUpdateRefDelete _) true :: tr' => deletedRefs tr' + 1
  | _ :: tr' => deletedRefs tr'
  end.

(** The last line of [runCleanupBackups]. *)
Definition cleanupSummary (deletedCount : Z) : string :=
  if deletedCount =? 0
  then "No backups were deleted (all are active or failed to delete)."
  else "Cleaned up " +:+ fmt_d deletedCount +:+ " backup(s)".

(** An environment that lists the active backup and two older ones, and in
    which deleting the first of the older ones fails. *)
Definition secondBackup : string := "refs/cmt-backup/absorb-1650000000".

Definition partialEnv : Env :=
  fun X hist e =>
    match e in gitE X return X with
    | GitShowRef => ShowRefOutput [BackupRef sampleState; olderBackup; secondBackup]
    | GitUpdateRefDelete r => negb (String.eqb r olderBackup)
    | other => cleanupEnv _ hist other
    end.

(** *** The listing of the backup namespace ([ListBackupRefs]) *)

(** What [ListBackupRefs] makes of the output of [git show-ref]: of every
    line that is not empty and has two fields or more, the second field. *)
Definition parseShowRef (output : string) : list string :=
  fold_left
    (fun refs line =>
       if String.eqb line EmptyString then refs
       else match Fields line with
            | _ :: ref :: _ => refs ++ [ref]
            | _ => refs
            end)
    (Split (TrimSpace output) LF) [].

(** A line of [git show-ref]: the object name, a blank, the reference. *)
Definition showRefLine (entry : string * string) : string :=
  fst entry +:+ String " " (snd entry).

(** A byte below 128. *)
Definition asciiByte (c : ascii) : bool :=
  match c with Ascii _ _ _ _ _ _ _ b7 => negb b7 end.

(** A word: not empty, of bytes below 128 (so that all the white space Go
    knows in it would be ASCII white space), none of them white space. *)
Definition isWord (w : string) : bool :=
  negb (String.eqb w EmptyString) && negb (has_space w)
  && forallb asciiByte (list_ascii_of_string w).

(** A byte below 128 that is no white space: it is no byte of a
    white-space rune. A text of such bytes. *)
Definition plainByte (c : ascii) : bool :=
  asciiByte c && negb (Ascii.is_space c).

Fixpoint plain (s : string) : bool :=
  match s with
  | EmptyString => true
  | String c s' => plainByte c && plain s'
  end.

Definition starts_word (s : string) : bool :=
  match s with
  | String c _ => plainByte c
  | EmptyString => false
  end.

Fixpoint ends_word (s : string) : bool :=
  match s with
  | EmptyString => false
  | String c EmptyString => plainByte c
  | String _ s' => ends_word s'
  end.

(** Lines with a newline between them. *)
Fixpoint joinLF (l : string) (ls : list string) : string :=
  match ls with
  | [] => l
  | l' :: ls' => l +:+ String LF (joinLF l' ls')
  end.

(* ===================================================================== *)
(** * Part II: properties                                                 *)
(* ===================================================================== *)

(** ** The state file: scanning back what was printed *)

Lemma scan_tokens_line (l rest : string) :
  has_byte LF l = false ->
  scan_tokens (l +:+ String LF rest) = l :: scan_tokens rest.
Proof.
  induction l as [|c l IH]; simpl; intros H.
  - reflexivity.
  - apply orb_false_iff in H as [Hc Hl].
    rewrite Hc, (IH Hl). reflexivity.
Qed.

Lemma scan_tokens_unlines (ls : list string) :
  forallb (fun l => negb (has_byte LF l)) ls = true ->
  scan_tokens (unlines ls) = ls.
Proof.
  induction ls as [|l ls IH]; simpl; intros H.
  - reflexivity.
  - apply andb_true_iff in H as [Hl Hls].
    apply negb_true_iff in Hl.
    rewrite (scan_tokens_line _ _ Hl), (IH Hls). reflexivity.
Qed.

Lemma dropCR_id (s : string) : ends_with CR s = false -> dropCR s = s.
Proof.
  induction s as [|c s IH]; simpl; intros H.
  - reflexivity.
  - destruct s as [|d s'].
    + rewrite H. reflexivity.
    + rewrite (IH H). reflexivity.
Qed.

Lemma scanner_deliver_clean (ls : list string) :
  forallb (fun l => negb (ends_with CR l) && token_fits l) ls = true ->
  scanner_deliver ls = (ls, false).
Proof.
  induction ls as [|l ls IH]; simpl; intros H.
  - reflexivity.
  - apply andb_true_iff in H as [Hl Hls].
    apply andb_true_iff in Hl as [Hcr Hfit].
    apply negb_true_iff in Hcr.
    rewrite Hfit, (IH Hls), (dropCR_id _ Hcr). reflexivity.
Qed.

Lemma scanner_run_unlines (ls : list string) :
  forallb cleanLine ls = true -> scanner_run (unlines ls) = (ls, false).
Proof.
  intros H. unfold scanner_run.
  rewrite scan_tokens_unlines.
  - apply scanner_deliver_clean.
    apply forallb_forall. intros l Hl.
    rewrite forallb_forall in H. specialize (H l Hl).
    unfold cleanLine in H.
    apply andb_true_iff in H as [H1 H3]. apply andb_true_iff in H1 as [H1 H2].
    rewrite H2, H3. reflexivity.
  - apply forallb_forall. intros l Hl.
    rewrite forallb_forall in H. specialize (H l Hl).
    unfold cleanLine in H.
    apply andb_true_iff in H as [H1 H3]. apply andb_true_iff in H1 as [H1 H2].
    exact H1.
Qed.

Lemma has_byte_app (c : ascii) (a b : string) :
  has_byte c (a +:+ b) = has_byte c a || has_byte c b.
Proof.
  induction a as [|d a IH]; [reflexivity|].
  change (String d a +:+ b) with (String d (a +:+ b)).
  simpl. rewrite IH. apply orb_assoc.
Qed.

Lemma ends_with_app (c : ascii) (a b : string) :
  ends_with c (a +:+ b) =
  match b with EmptyString => ends_with c a | _ => ends_with c b end.
Proof.
  induction a as [|d a IH].
  - destruct b; reflexivity.
  - change (String d a +:+ b) with (String d (a +:+ b)).
    destruct a as [|d' a'].
    + destruct b; reflexivity.
    + change (String d' a' +:+ b) with (String d' (a' +:+ b)) in *.
      simpl in *. exact IH.
Qed.

Lemma savable_cleanLine (prefix value : string) :
  has_byte LF prefix = false -> ends_with CR prefix = false ->
  savable prefix value = true -> cleanLine (prefix +:+ value) = true.
Proof.
  intros Hp Hc H. unfold savable in H. unfold cleanLine.
  apply andb_true_iff in H as [H Hfit]. apply andb_true_iff in H as [Hlf Hcr].
  rewrite has_byte_app, ends_with_app, Hp, Hfit.
  apply negb_true_iff in Hlf. apply negb_true_iff in Hcr.
  rewrite Hlf. destruct value; [rewrite Hc | rewrite Hcr]; reflexivity.
Qed.

(** *** [%d] printed and scanned back *)

(** A plain byte is no byte of a white-space rune, at either end. *)
Lemma ascii_high (c k : ascii) :
  asciiByte c = true -> asciiByte k = false -> Ascii.eqb c k = false.
Proof.
  intros Hc Hk. destruct (Ascii.eqb_spec c k) as [->|]; [|reflexivity].
  rewrite Hk in Hc. discriminate Hc.
Qed.

Lemma plainByte_spec (c : ascii) :
  plainByte c = true ->
  Ascii.is_space c = false /\ Ascii.eqb c LF = false
  /\ (forall x, space2 c x = false) /\ (forall x y, space3 c x y = false)
  /\ (forall x, space2 x c = false) /\ (forall x y, space3 x y c = false).
Proof.
  unfold plainByte. intros H. apply andb_true_iff in H as [Ha Hsp].
  apply negb_true_iff in Hsp.
  assert (Hk : forall k, asciiByte k = false -> Ascii.eqb c k = false)
    by (intros k; apply ascii_high; exact Ha).
  split; [exact Hsp|].
  split; [destruct (Ascii.eqb_spec c LF) as [->|]; [discriminate Hsp | reflexivity]|].
  split; [intros x; unfold space2; rewrite (Hk "194"%char eq_refl); reflexivity|].
  split.
  { intros x y. unfold space3.
    rewrite (Hk "225"%char eq_refl), (Hk "226"%char eq_refl),
      (Hk "227"%char eq_refl). reflexivity. }
  split.
  { intros x. unfold space2.
    rewrite (Hk "133"%char eq_refl), (Hk "160"%char eq_refl).
    apply andb_false_r. }
  intros x y. unfold space3. cbn [existsb].
  rewrite (Hk "128"%char eq_refl), (Hk "129"%char eq_refl),
    (Hk "130"%char eq_refl), (Hk "131"%char eq_refl), (Hk "132"%char eq_refl),
    (Hk "133"%char eq_refl), (Hk "134"%char eq_refl), (Hk "135"%char eq_refl),
    (Hk "136"%char eq_refl), (Hk "137"%char eq_refl), (Hk "138"%char eq_refl),
    (Hk "168"%char eq_refl), (Hk "169"%char eq_refl), (Hk "175"%char eq_refl),
    (Hk "159"%char eq_refl).
  cbn [orb]. rewrite !andb_false_r. reflexivity.
Qed.

(** A text that begins with a plain byte begins with no white space. *)
Lemma skipSpace_plain (c : ascii) (r : string) :
  plainByte c = true -> skipSpace (String c r) = Some (String c r).
Proof.
  intros H. destruct (plainByte_spec c H) as (Hsp & Hlf & H2 & H3 & _).
  cbn [skipSpace]. rewrite Hlf, Hsp.
  destruct r as [|c2 [|c3 r3]]; rewrite ?H2, ?H3; reflexivity.
Qed.

Lemma trimLeftBy_plain (sp2 : ascii -> ascii -> bool)
  (sp3 : ascii -> ascii -> ascii -> bool) (c : ascii) (r : string) :
  Ascii.is_space c = false -> (forall x, sp2 c x = false) ->
  (forall x y, sp3 c x y = false) ->
  trimLeftBy sp2 sp3 (String c r) = String c r.
Proof.
  intros Hsp H2 H3. cbn [trimLeftBy]. rewrite Hsp.
  destruct r as [|c2 [|c3 r3]]; rewrite ?H2, ?H3; reflexivity.
Qed.

Lemma is_digit_plain (c : ascii) : is_digit c = true -> plainByte c = true.
Proof.
  destruct c as [[] [] [] [] [] [] [] []]; intros H;
    first [discriminate H | reflexivity].
Qed.

Lemma plain_digits (d : Decimal.uint) : plain (NilEmpty.string_of_uint d) = true.
Proof. induction d; simpl; rewrite ?IHd; reflexivity. Qed.

Lemma scan_number_digits (d : Decimal.uint) :
  scan_number (NilEmpty.string_of_uint d) = NilEmpty.string_of_uint d.
Proof. induction d; simpl; rewrite ?IHd; reflexivity. Qed.

Lemma digit_differs (c d : ascii) :
  is_digit c = false -> is_digit d = true -> Ascii.eqb d c = false.
Proof.
  intros Hc Hd. destruct (Ascii.eqb_spec d c) as [->|]; [|reflexivity].
  rewrite Hc in Hd. discriminate Hd.
Qed.

Lemma has_byte_digits (c : ascii) (d : Decimal.uint) :
  is_digit c = false -> has_byte c (NilEmpty.string_of_uint d) = false.
Proof.
  intros Hc.
  induction d; cbn [NilEmpty.string_of_uint has_byte]; rewrite ?IHd;
    try reflexivity; rewrite orb_false_r; apply digit_differs;
    [exact Hc | reflexivity | exact Hc | reflexivity | exact Hc | reflexivity
    | exact Hc | reflexivity | exact Hc | reflexivity | exact Hc | reflexivity
    | exact Hc | reflexivity | exact Hc | reflexivity | exact Hc | reflexivity
    | exact Hc | reflexivity].
Qed.

Lemma ends_with_digits (c : ascii) (d : Decimal.uint) :
  is_digit c = false -> ends_with c (NilEmpty.string_of_uint d) = false.
Proof.
  intros Hc.
  induction d; cbn [NilEmpty.string_of_uint ends_with]; try reflexivity;
    (destruct (NilEmpty.string_of_uint d);
     [apply digit_differs; [exact Hc | reflexivity] | exact IHd]).
Qed.

Lemma scan_uint (neg : bool) (d : Decimal.uint) :
  d <> Decimal.Nil ->
  in_int64 (if neg then - Z.of_uint d else Z.of_uint d) = true ->
  Sscanf_d (if neg then String "-" (NilEmpty.string_of_uint d)
            else NilEmpty.string_of_uint d)
  = Some (if neg then - Z.of_uint d else Z.of_uint d).
Proof.
  intros Hnil Hrange.
  assert (Htok : NilEmpty.string_of_uint d <> EmptyString)
    by (destruct d; simpl; congruence).
  assert (Hparse :
            match scan_number (NilEmpty.string_of_uint d) with
            | EmptyString => None
            | tok =>
                match NilEmpty.uint_of_string tok with
                | Some d0 =>
                    let z := if neg then - Z.of_uint d0 else Z.of_uint d0 in
                    if in_int64 z then Some z else None
                | None => None
                end
            end = Some (if neg then - Z.of_uint d else Z.of_uint d)).
  { rewrite scan_number_digits.
    destruct (NilEmpty.string_of_uint d) eqn:E; [congruence|].
    rewrite <- E, NilEmpty.usu. cbv zeta. rewrite Hrange. reflexivity. }
  destruct neg.
  - unfold Sscanf_d. rewrite skipSpace_plain by reflexivity.
    change (Ascii.eqb "-" "-") with true. cbv iota.
    exact Hparse.
  - unfold Sscanf_d.
    destruct (NilEmpty.string_of_uint d) as [|c r] eqn:E; [congruence|].
    assert (Hc : is_digit c = true).
    { destruct d; try congruence; injection E as <- _; reflexivity. }
    rewrite (skipSpace_plain c r (is_digit_plain c Hc)).
    replace (if Ascii.eqb c "-" then (true, r)
             else if Ascii.eqb c "+" then (false, r)
             else (false, String c r)) with (false, String c r).
    + exact Hparse.
    + destruct (Ascii.eqb_spec c "-") as [->|]; [discriminate Hc|].
      destruct (Ascii.eqb_spec c "+") as [->|]; [discriminate Hc|].
      reflexivity.
Qed.

Lemma string_of_uint_nonnil (d : Decimal.uint) :
  d <> Decimal.Nil -> NilZero.string_of_uint d = NilEmpty.string_of_uint d.
Proof. destruct d; [congruence | reflexivity ..]. Qed.

Lemma Sscanf_d_fmt_d (z : Z) : in_int64 z = true -> Sscanf_d (fmt_d z) = Some z.
Proof.
  intros Hrange. unfold fmt_d.
  pose proof (DecimalZ.of_to z) as Hz.
  destruct z as [|p|p]; [reflexivity| |].
  - pose proof (DecimalPos.Unsigned.to_uint_nonnil p) as Hnil.
    change (Z.of_uint (Pos.to_uint p) = Z.pos p) in Hz.
    change (Sscanf_d (NilZero.string_of_uint (Pos.to_uint p)) = Some (Z.pos p)).
    rewrite (string_of_uint_nonnil _ Hnil).
    rewrite <- Hz in Hrange |- *.
    exact (scan_uint false _ Hnil Hrange).
  - pose proof (DecimalPos.Unsigned.to_uint_nonnil p) as Hnil.
    change (- Z.of_uint (Pos.to_uint p) = Z.neg p) in Hz.
    change (Sscanf_d (String "-" (NilZero.string_of_uint (Pos.to_uint p)))
            = Some (Z.neg p)).
    rewrite (string_of_uint_nonnil _ Hnil).
    rewrite <- Hz in Hrange |- *.
    exact (scan_uint true _ Hnil Hrange).
Qed.

Lemma fmt_d_clean (z : Z) :
  has_byte LF (fmt_d z) = false /\ ends_with CR (fmt_d z) = false.
Proof.
  unfold fmt_d. destruct z as [|p|p]; [split; reflexivity| |].
  - pose proof (DecimalPos.Unsigned.to_uint_nonnil p) as Hnil.
    change (Z.to_int (Z.pos p)) with (Decimal.Pos (Pos.to_uint p)).
    cbn [NilZero.string_of_int]. rewrite (string_of_uint_nonnil _ Hnil).
    split; [apply has_byte_digits | apply ends_with_digits]; reflexivity.
  - pose proof (DecimalPos.Unsigned.to_uint_nonnil p) as Hnil.
    change (Z.to_int (Z.neg p)) with (Decimal.Neg (Pos.to_uint p)).
    cbn [NilZero.string_of_int]. rewrite (string_of_uint_nonnil _ Hnil).
    split.
    + cbn [has_byte]. rewrite has_byte_digits; reflexivity.
    + cbn [ends_with].
      destruct (NilEmpty.string_of_uint (Pos.to_uint p)) eqn:E; [reflexivity|].
      rewrite <- E. apply ends_with_digits. reflexivity.
Qed.

Lemma str_length_app (a b : string) :
  String.length (a +:+ b) = (String.length a + String.length b)%nat.
Proof.
  induction a as [|c a IH]; [reflexivity|].
  change (String c a +:+ b) with (String c (a +:+ b)).
  simpl. rewrite IH. reflexivity.
Qed.

Lemma double_digits (d : Decimal.uint) :
  (Decimal.nb_digits (Decimal.Little.double d) <= S (Decimal.nb_digits d)
   /\ Decimal.nb_digits (Decimal.Little.succ_double d)
      <= S (Decimal.nb_digits d))%nat.
Proof. induction d; simpl; lia. Qed.

Lemma to_little_uint_digits (p : positive) :
  (Decimal.nb_digits (Pos.to_little_uint p) <= Pos.size_nat p)%nat.
Proof.
  induction p as [p IH|p IH|]; simpl.
  - pose proof (double_digits (Pos.to_little_uint p)). lia.
  - pose proof (double_digits (Pos.to_little_uint p)). lia.
  - lia.
Qed.

Lemma length_string_of_uint (d : Decimal.uint) :
  String.length (NilEmpty.string_of_uint d) = Decimal.nb_digits d.
Proof. induction d; simpl; rewrite ?IHd; reflexivity. Qed.

Lemma length_fmt_d (z : Z) :
  in_int64 z = true -> (String.length (fmt_d z) <= 66)%nat.
Proof.
  intros Hrange. unfold in_int64, int64_min, int64_max in Hrange.
  apply andb_true_iff in Hrange as [Hlo Hhi].
  apply Z.leb_le in Hlo. apply Z.leb_le in Hhi.
  assert (Hsize : forall p : positive,
            (p < 2 ^ 64)%positive -> (Pos.size_nat p <= 65)%nat).
  { intros p Hp. apply (Pos.size_nat_monotone p (2 ^ 64) Hp). }
  assert (Hlen : forall p : positive,
            (p < 2 ^ 64)%positive ->
            (String.length (NilZero.string_of_uint (Pos.to_uint p)) <= 65)%nat).
  { intros p Hp.
    rewrite (string_of_uint_nonnil _ (DecimalPos.Unsigned.to_uint_nonnil p)).
    rewrite length_string_of_uint. unfold Pos.to_uint.
    rewrite DecimalFacts.nb_digits_rev.
    pose proof (to_little_uint_digits p). specialize (Hsize p Hp). lia. }
  unfold fmt_d. destruct z as [|p|p].
  - simpl. lia.
  - change (Z.to_int (Z.pos p)) with (Decimal.Pos (Pos.to_uint p)).
    cbn [NilZero.string_of_int].
    assert (Hp : (p < 2 ^ 64)%positive) by lia.
    specialize (Hlen p Hp). lia.
  - change (Z.to_int (Z.neg p)) with (Decimal.Neg (Pos.to_uint p)).
    cbn [NilZero.string_of_int String.length].
    assert (Hp : (p < 2 ^ 64)%positive) by lia.
    specialize (Hlen p Hp). lia.
Qed.

Lemma timestamp_line_clean (z : Z) :
  in_int64 z = true -> cleanLine ("timestamp=" +:+ fmt_d z) = true.
Proof.
  intros Hrange. unfold cleanLine.
  destruct (fmt_d_clean z) as [Hlf Hcr].
  rewrite has_byte_app, ends_with_app, Hlf.
  assert (Hfit : token_fits ("timestamp=" +:+ fmt_d z) = true).
  { unfold token_fits, MaxScanTokenSize. apply Z.ltb_lt.
    rewrite str_length_app. pose proof (length_fmt_d z Hrange).
    change (String.length "timestamp=") with 10%nat. lia. }
  rewrite Hfit. destruct (fmt_d z); [reflexivity|].
  rewrite Hcr. reflexivity.
Qed.

(** *** The loop of [LoadAbsorbState] on the printed lines *)

Lemma load_operations (ops : list string) (st : AbsorbState) :
  fold_left loadLine (map (fun op => "operation=" +:+ op) ops) st
  = mkAbsorbState (OriginalHEAD st) (BackupRef st) (Operations st ++ ops)
      (Timestamp st) (CurrentBranch st) (StashSHA st).
Proof.
  revert st. induction ops as [|op ops IH]; intros st; simpl.
  - rewrite app_nil_r. destruct st; reflexivity.
  - rewrite IH.
    change (loadLine st ("operation=" +:+ op))
      with (mkAbsorbState (OriginalHEAD st) (BackupRef st)
              (Operations st ++ [op]) (Timestamp st) (CurrentBranch st)
              (StashSHA st)).
    simpl. rewrite <- app_assoc. reflexivity.
Qed.

Lemma load_printed (st : AbsorbState) :
  in_int64 (Timestamp st) = true ->
  fold_left loadLine (absorbStateLines st) emptyAbsorbState = st.
Proof.
  intros Hrange. unfold absorbStateLines.
  rewrite !fold_left_app.
  change (fold_left loadLine
            ["original_head=" +:+ OriginalHEAD st;
             "backup_ref=" +:+ BackupRef st;
             "current_branch=" +:+ CurrentBranch st;
             "timestamp=" +:+ fmt_d (Timestamp st)] emptyAbsorbState)
    with (mkAbsorbState (OriginalHEAD st) (BackupRef st) []
            (match Sscanf_d (fmt_d (Timestamp st)) with
             | Some z => z
             | None => 0
             end) (CurrentBranch st) EmptyString).
  rewrite (Sscanf_d_fmt_d _ Hrange).
  destruct (String.eqb_spec (StashSHA st) EmptyString) as [Hs|Hs].
  - simpl fold_left at 2. rewrite load_operations. simpl.
    destruct st; simpl in *; subst; reflexivity.
  - change (fold_left loadLine ["stash_sha=" +:+ StashSHA st] ?s)
      with (loadLine s ("stash_sha=" +:+ StashSHA st)).
    rewrite load_operations. destruct st; reflexivity.
Qed.

Lemma printed_lines_clean (st : AbsorbState) :
  savableState st = true -> forallb cleanLine (absorbStateLines st) = true.
Proof.
  unfold savableState. intros H.
  apply andb_true_iff in H as [H Hts]. apply andb_true_iff in H as [H Hops].
  apply andb_true_iff in H as [H Hstash]. apply andb_true_iff in H as [H Hbr].
  apply andb_true_iff in H as [Hhead Href].
  unfold absorbStateLines. rewrite !forallb_app.
  cbn [forallb].
  rewrite (savable_cleanLine "original_head=" _ eq_refl eq_refl Hhead).
  rewrite (savable_cleanLine "backup_ref=" _ eq_refl eq_refl Href).
  rewrite (savable_cleanLine "current_branch=" _ eq_refl eq_refl Hbr).
  rewrite (timestamp_line_clean _ Hts). cbn [andb].
  apply andb_true_iff. split.
  - destruct (String.eqb (StashSHA st) EmptyString); [reflexivity|].
    cbn [forallb].
    rewrite (savable_cleanLine "stash_sha=" _ eq_refl eq_refl Hstash). reflexivity.
  - rewrite forallb_forall in Hops. apply forallb_forall.
    intros l Hl. apply in_map_iff in Hl as (op & <- & Hop).
    apply (savable_cleanLine "operation=" _ eq_refl eq_refl (Hops op Hop)).
Qed.

Lemma parse_printed (st : AbsorbState) :
  savableState st = true -> parseAbsorbState (renderAbsorbState st) = Ok st.
Proof.
  intros H. unfold parseAbsorbState, renderAbsorbState.
  rewrite (scanner_run_unlines _ (printed_lines_clean st H)).
  rewrite load_printed; [reflexivity|].
  unfold savableState in H. apply andb_true_iff in H as [_ H]. exact H.
Qed.

Lemma stateFile_eqb (root : string) :
  String.eqb (stateFile root) (stateFile root) = true.
Proof. apply String.eqb_refl. Qed.

(** C10 (as amended). When no text field of an [AbsorbState] contains a
    newline or ends in a carriage return, every printed line is shorter
    than the scanner's 64 KiB buffer and the timestamp is a 64-bit integer,
    reading back what [SaveAbsorbState] wrote returns the saved state:
    every field is the same (values with [=] in them included), the
    operation log keeps its order and an empty [StashSHA] stays empty. This
    holds of the text written, and of [LoadAbsorbState] run after
    [SaveAbsorbState] on a disk that keeps what is written to it. *)
Theorem save_load_roundtrip (repo : Repository) (st : AbsorbState) :
  savableState st = true ->
  parseAbsorbState (renderAbsorbState st) = Ok st
  /\ (RootPath repo <> None ->
      fst (run diskEnv [] (SaveAbsorbState repo st ≫= fun _ => LoadAbsorbState repo))
      = Ok st).
Proof.
  intros H. split; [exact (parse_printed st H)|].
  intros Hroot. unfold SaveAbsorbState, LoadAbsorbState.
  destruct (RootPath repo) as [root|]; [|congruence].
  cbn. rewrite stateFile_eqb. cbn. exact (parse_printed st H).
Qed.

Lemma save_load_roundtrip_witness :
  savableState sampleState = true
  /\ parseAbsorbState (renderAbsorbState sampleState) = Ok sampleState
  /\ fst (run diskEnv []
            (SaveAbsorbState sampleRepo sampleState ≫= fun _ => LoadAbsorbState sampleRepo))
     = Ok sampleState.
Proof.
  assert (H : savableState sampleState = true) by (vm_compute; reflexivity).
  split; [exact H|].
  split; [exact (proj1 (save_load_roundtrip sampleRepo sampleState H))|].
  apply (proj2 (save_load_roundtrip sampleRepo sampleState H)).
  discriminate.
Defined.

(** C10 (as first stated) fails: a state without any line feed or
    carriage return whose head identifier has 70000 bytes is not read
    back; the scanner stops at the line that does not fit its 64 KiB
    buffer and the load returns its error. *)
Lemma save_load_roundtrip_fails_on_long_line :
  ~ (forall st : AbsorbState,
       newlineFree st = true -> in_int64 (Timestamp st) = true ->
       parseAbsorbState (renderAbsorbState st) = Ok st).
Proof.
  intros H.
  assert (Hfree : newlineFree stateWithLongLine = true)
    by (vm_compute; reflexivity).
  assert (Hload : parseAbsorbState (renderAbsorbState stateWithLongLine)
                  = Err "failed to read state file")
    by (vm_compute; reflexivity).
  specialize (H stateWithLongLine Hfree eq_refl).
  rewrite Hload in H. discriminate H.
Qed.

(** A carriage return at the end of a value is lost too: the scanner takes
    it for a part of the end of the line. *)
Lemma save_load_drops_final_CR :
  has_byte LF (OriginalHEAD stateWithCR) = false
  /\ parseAbsorbState (renderAbsorbState stateWithCR)
     = Ok (mkAbsorbState "abc" (BackupRef stateWithCR) (Operations stateWithCR)
             (Timestamp stateWithCR) (CurrentBranch stateWithCR)
             (StashSHA stateWithCR)).
Proof. split; vm_compute; reflexivity. Qed.

(** ** The diff parser: what the line groups of a hunk are *)

Ltac addLine_cases l :=
  unfold addLine, kind_of;
  destruct (HasPrefix l "+" && negb (HasPrefix l "+++"));
  [|destruct (HasPrefix l "-" && negb (HasPrefix l "---"));
    [|destruct (HasPrefix l " ")]];
  try match goal with
      | |- context [Nat.eqb (length (AddedLines ?h)) 0] =>
          destruct (Nat.eqb (length (AddedLines h)) 0
                    && Nat.eqb (length (RemovedLines h)) 0)
      end;
  cbn [Lines Header Content AddedLines RemovedLines ContextBefore ContextAfter];
  rewrite ?app_nil_r; try reflexivity.

Lemma addLine_Lines (h : Hunk) (l : string) :
  Lines (addLine h l) = Lines h ++ [l].
Proof. addLine_cases l. Qed.

Lemma addLine_Header (h : Hunk) (l : string) :
  Header (addLine h l) = Header h.
Proof. addLine_cases l. Qed.

Lemma addLine_Content (h : Hunk) (l : string) :
  Content (addLine h l) = Content h +:+ l +:+ String LF EmptyString.
Proof. addLine_cases l. Qed.

Lemma addLine_AddedLines (h : Hunk) (l : string) :
  AddedLines (addLine h l)
  = AddedLines h
    ++ match kind_of l with KAdded => [TrimPrefix l "+"] | _ => [] end.
Proof. addLine_cases l. Qed.

Lemma addLine_RemovedLines (h : Hunk) (l : string) :
  RemovedLines (addLine h l)
  = RemovedLines h
    ++ match kind_of l with KRemoved => [TrimPrefix l "-"] | _ => [] end.
Proof. addLine_cases l. Qed.

Lemma addLine_ContextBefore (h : Hunk) (l : string) :
  ContextBefore (addLine h l)
  = ContextBefore h
    ++ match kind_of l with
       | KContext => if unseen h then [TrimPrefix l " "] else []
       | _ => []
       end.
Proof. unfold unseen. addLine_cases l. Qed.

Lemma addLine_ContextAfter (h : Hunk) (l : string) :
  ContextAfter (addLine h l)
  = ContextAfter h
    ++ match kind_of l with
       | KContext => if unseen h then [] else [TrimPrefix l " "]
       | _ => []
       end.
Proof. unfold unseen. addLine_cases l. Qed.

Lemma addLine_unseen (h : Hunk) (l : string) :
  unseen (addLine h l) = unseen h && negb (is_change (kind_of l)).
Proof.
  unfold unseen. rewrite addLine_AddedLines, addLine_RemovedLines.
  destruct (kind_of l); cbn [is_change negb]; rewrite ?app_nil_r, ?andb_true_r;
    try reflexivity; rewrite List.length_app; cbn [length].
  - replace (Nat.eqb (length (AddedLines h) + 1) 0) with false
      by (symmetry; apply Nat.eqb_neq; lia).
    rewrite andb_false_r. reflexivity.
  - replace (Nat.eqb (length (RemovedLines h) + 1) 0) with false
      by (symmetry; apply Nat.eqb_neq; lia).
    rewrite !andb_false_r. reflexivity.
Qed.

Lemma str_app_assoc (a b c : string) : (a +:+ b) +:+ c = a +:+ (b +:+ c).
Proof.
  induction a as [|x a IH]; [reflexivity|].
  change (String x (a +:+ b +:+ c)) with (String x a +:+ (b +:+ c)) in *.
  change ((String x a +:+ b) +:+ c) with (String x ((a +:+ b) +:+ c)).
  rewrite IH. reflexivity.
Qed.

Lemma fold_addLine (body : list string) (h0 : Hunk) :
  let h := fold_left addLine body h0 in
  Lines h = Lines h0 ++ body
  /\ Header h = Header h0
  /\ Content h = Content h0 +:+ unlines body
  /\ AddedLines h = AddedLines h0 ++ added_of body
  /\ RemovedLines h = RemovedLines h0 ++ removed_of body
  /\ (unseen h0 = false ->
      ContextBefore h = ContextBefore h0
      /\ ContextAfter h = ContextAfter h0 ++ context_of body)
  /\ (unseen h0 = true ->
      ContextBefore h = ContextBefore h0 ++ context_before_of body
      /\ ContextAfter h = ContextAfter h0 ++ context_after_of body).
Proof.
  revert h0. induction body as [|l rest IH]; intros h0; cbn [fold_left].
  - cbn. rewrite !app_nil_r.
    assert (Content h0 = Content h0 +:+ EmptyString) as <-.
    { clear. induction (Content h0) as [|c s IHs]; [reflexivity|].
      change (String c s +:+ EmptyString) with (String c (s +:+ EmptyString)).
      rewrite <- IHs. reflexivity. }
    repeat split; reflexivity.
  - destruct (IH (addLine h0 l)) as (HL & HH & HC & HA & HR & Hseen & Hunseen).
    rewrite addLine_unseen in Hseen, Hunseen.
    rewrite addLine_ContextBefore, addLine_ContextAfter in Hseen, Hunseen.
    cbv zeta.
    rewrite HL, HH, HC, HA, HR, addLine_Lines, addLine_Header, addLine_Content,
      addLine_AddedLines, addLine_RemovedLines.
    rewrite <- !app_assoc.
    split; [reflexivity|]. split; [reflexivity|].
    split.
    { cbn [unlines fold_right]. rewrite !str_app_assoc. reflexivity. }
    split; [cbn [added_of]; destruct (kind_of l); reflexivity|].
    split; [cbn [removed_of]; destruct (kind_of l); reflexivity|].
    split.
    + intros Hs. rewrite Hs in *. destruct (Hseen eq_refl) as [Hb Ha].
      rewrite Hb, Ha. cbn [context_of].
      destruct (kind_of l); rewrite ?app_nil_r, <- ?app_assoc; split; reflexivity.
    + intros Hs. rewrite Hs in *. cbn [context_before_of context_after_of].
      destruct (kind_of l); cbn [is_change negb andb] in *.
      * destruct (Hseen eq_refl) as [Hb Ha]. rewrite Hb, Ha, !app_nil_r.
        split; reflexivity.
      * destruct (Hseen eq_refl) as [Hb Ha]. rewrite Hb, Ha, !app_nil_r.
        split; reflexivity.
      * destruct (Hunseen eq_refl) as [Hb Ha]. rewrite Hb, Ha, !app_nil_r.
        rewrite <- app_assoc. split; reflexivity.
      * destruct (Hunseen eq_refl) as [Hb Ha]. rewrite Hb, Ha, !app_nil_r.
        split; reflexivity.
Qed.







(** The groups of a built hunk are those of its body lines, and its
    content is its header line followed by its body lines. *)
Lemma builtHunk_groups (h : Hunk) :
  builtHunk h ->
  AddedLines h = added_of (Lines h)
  /\ RemovedLines h = removed_of (Lines h)
  /\ ContextBefore h = context_before_of (Lines h)
  /\ ContextAfter h = context_after_of (Lines h)
  /\ Content h = Header h +:+ String LF (unlines (Lines h)).
Proof.
  intros (h0 & (HL & HB & HA & Hadd & Hrem & HC) & Hh).
  destruct (fold_addLine (Lines h) h0)
    as (_ & HH & HCo & HAd & HRe & _ & Hun).
  cbv zeta in *. rewrite <- Hh in *.
  assert (Hu : unseen h0 = true) by (unfold unseen; rewrite Hadd, Hrem; reflexivity).
  destruct (Hun Hu) as [Hb Ha].
  rewrite HAd, HRe, Hb, Ha, HCo, HH, Hadd, Hrem, HB, HA, HC.
  rewrite str_app_assoc. repeat split; reflexivity.
Qed.

Lemma builtHunk_addLine (h : Hunk) (l : string) :
  builtHunk h -> builtHunk (addLine h l).
Proof.
  intros (h0 & Hfresh & Hh). exists h0. split; [exact Hfresh|].
  rewrite addLine_Lines, fold_left_app. cbn [fold_left].
  rewrite <- Hh. reflexivity.
Qed.

Lemma parseHunkHeader_fresh (line : string) (h0 h : Hunk) :
  parseHunkHeader line h0 = Ok h -> freshHunk h0 -> builtHunk h.
Proof.
  unfold parseHunkHeader. intros H Hfresh.
  repeat match type of H with
         | match ?x with _ => _ end = _ => destruct x; try discriminate H
         | (if ?x then _ else _) = _ => destruct x; try discriminate H
         | (let '(_, _) := ?x in _) = _ => destruct x
         end.
  injection H as <-.
  match goal with |- builtHunk ?h => exists h end.
  destruct Hfresh as (HL & HB & HA & Had & Hre & HC).
  split.
  - unfold freshHunk. cbn [Lines ContextBefore ContextAfter AddedLines
                             RemovedLines Content Header].
    repeat split; assumption.
  - cbn [Lines]. rewrite HL. reflexivity.
Qed.

Lemma flushed_built (st : ParseState) :
  parseInv st -> Forall builtHunk (flushed st).
Proof.
  intros [Hs Hc]. unfold flushed.
  destruct (currentHunk st) as [h|]; [|exact Hs].
  destruct (inHunk st); [|exact Hs].
  apply Forall_app. split; [exact Hs|].
  constructor; [apply Hc; reflexivity | constructor].
Qed.

Lemma fileHeaderStep_inv (st : ParseState) (line : string) :
  parseInv st -> parseInv (fileHeaderStep st line).
Proof.
  intros Hinv. unfold fileHeaderStep.
  destruct (HasPrefix line "diff --git"); [|exact Hinv].
  split; cbn [hunks currentHunk].
  - apply flushed_built. exact Hinv.
  - intros h Hh. destruct Hinv as [_ Hc].
    destruct (currentHunk st) as [h'|]; [|discriminate Hh].
    destruct (inHunk st); [discriminate Hh|].
    apply Hc. exact Hh.
Qed.

Lemma statusStep_inv (st : ParseState) (line : string) :
  parseInv st -> parseInv (statusStep st line).
Proof.
  intros Hinv. unfold statusStep.
  repeat match goal with
         | |- context [if ?c then _ else _] => destruct c
         end; exact Hinv.
Qed.

Lemma hunkStep_inv (st st' : ParseState) (line : string) :
  parseInv st -> hunkStep st line = Ok st' -> parseInv st'.
Proof.
  intros Hinv H. unfold hunkStep in H.
  destruct (HasPrefix line "@@" && Contains line "@@").
  - destruct (parseHunkHeader line _) as [h| |] eqn:Hp; try discriminate H.
    injection H as <-. split; cbn [hunks currentHunk].
    + apply flushed_built. exact Hinv.
    + intros h' [= <-]. apply (parseHunkHeader_fresh _ _ _ Hp).
      unfold freshHunk. cbn. repeat split; reflexivity.
  - destruct (currentHunk st) as [h|] eqn:Hc.
    + destruct (inHunk st).
      * injection H as <-. destruct Hinv as [Hs Hcur].
        split; cbn [hunks currentHunk]; [exact Hs|].
        intros h' [= <-]. apply builtHunk_addLine. apply Hcur. exact Hc.
      * injection H as <-. exact Hinv.
    + injection H as <-. exact Hinv.
Qed.

Lemma parseLoop_inv (lines : list string) (st st' : ParseState) :
  parseInv st -> parseLoop st lines = Ok st' -> parseInv st'.
Proof.
  revert st. induction lines as [|line rest IH]; intros st Hinv H.
  - injection H as <-. exact Hinv.
  - cbn [parseLoop] in H. unfold parseStep in H.
    destruct (hunkStep _ line) as [st1| |] eqn:Hstep; try discriminate H.
    apply (IH st1); [|exact H].
    apply (hunkStep_inv _ _ _ (statusStep_inv _ line (fileHeaderStep_inv st line Hinv)) Hstep).
Qed.

(** Every hunk the parser returns was built line by line. *)
Lemma SplitDiffIntoHunks_built (diff : string) (hs : list Hunk) :
  SplitDiffIntoHunks diff = Ok hs -> Forall builtHunk hs.
Proof.
  unfold SplitDiffIntoHunks. destruct (scanner_run diff) as [lines tooLong].
  destruct (parseLoop initParseState lines) as [st| |] eqn:Hloop;
    try discriminate.
  destruct tooLong; [discriminate|]. intros [= <-].
  apply flushed_built. apply (parseLoop_inv lines initParseState); [|exact Hloop].
  split; [constructor | intros h Hh; discriminate Hh].
Qed.


(** What the parser returns there, and what is rebuilt from it. *)
Lemma parser_inner_context_run :
  Lines hunkWithInnerContext = [" a"; "+b"; " c"; "-d"]
  /\ ContextBefore hunkWithInnerContext = ["a"]
  /\ AddedLines hunkWithInnerContext = ["b"]
  /\ RemovedLines hunkWithInnerContext = ["d"]
  /\ ContextAfter hunkWithInnerContext = ["c"]
  /\ reconstruct hunkWithInnerContext = [" a"; "+b"; "-d"; " c"].
Proof. repeat split. Qed.

(** ** The oracle client: confidences *)

Lemma processAlternatives_made (cs : list CommitInfo)
  (alts : list jsonAlternative) (out : list AlternativeAssignment) :
  processAlternatives cs alts = Ok out -> Forall2 (alternativeOf cs) alts out.
Proof.
  revert out. induction alts as [|alt rest IH]; intros out H; cbn in H.
  - injection H as <-. constructor.
  - destruct (resolveCommit cs (ja_CommitSHA alt)) as [[sha msg]| |] eqn:Hr;
      try discriminate H.
    destruct (processAlternatives cs rest) as [out'| |]; try discriminate H.
    injection H as <-. constructor; [|apply IH; reflexivity].
    unfold alternativeOf. cbn. repeat split. exact Hr.
Qed.

(** One entry of the oracle's document: skipped when it is out of range,
    its hunk put among the unmatched ones when it is demoted, an
    assignment made of it otherwise. *)
Lemma processAssignment_shape (req : AbsorbRequest) (st st' : PostState)
  (e : jsonAssignment) :
  processAssignment req st e = Ok st' ->
  exists new,
    ps_Assignments st' = ps_Assignments st ++ new
    /\ Forall2 (madeOf req) (keptEntries req [e]) new
    /\ ps_Unmatched st'
       = ps_Unmatched st
         ++ hunksOf req (fun e => demoted req e) [e].
Proof.
  unfold processAssignment, keptEntries, hunksOf, inRange. cbn [List.filter].
  intros H.
  destruct (hunkAt (req_Hunks req) (js_HunkIndex e)) as [hunk|] eqn:Hat.
  - destruct (resolveCommit _ _) as [[sha msg]| |] eqn:Hr; try discriminate H.
    destruct (processAlternatives _ _) as [alts| |] eqn:Halts;
      try discriminate H.
    fold (demoted req e) in H. destruct (demoted req e); injection H as <-.
    + exists []. cbn. rewrite app_nil_r, Hat.
      split; [reflexivity|]. split; [constructor | reflexivity].
    + eexists [_]. cbn. rewrite app_nil_r.
      split; [reflexivity|]. split; [|reflexivity].
      constructor; [|constructor].
      unfold madeOf. cbn. repeat split; try assumption.
      apply processAlternatives_made. exact Halts.
  - injection H as <-. exists []. rewrite !app_nil_r.
    split; [reflexivity|]. split; [constructor|].
    destruct (demoted req e); cbn; rewrite ?Hat, ?app_nil_r; reflexivity.
Qed.

Lemma processAssignments_shape (req : AbsorbRequest)
  (l : list jsonAssignment) (st st' : PostState) :
  processAssignments req st l = Ok st' ->
  exists new,
    ps_Assignments st' = ps_Assignments st ++ new
    /\ Forall2 (madeOf req) (keptEntries req l) new
    /\ ps_Unmatched st'
       = ps_Unmatched st ++ hunksOf req (fun e => demoted req e) l.
Proof.
  revert st. induction l as [|e rest IH]; intros st H; cbn in H.
  - injection H as <-. exists []. rewrite !app_nil_r.
    split; [reflexivity|]. split; [constructor | reflexivity].
  - destruct (processAssignment req st e) as [st1| |] eqn:Hstep;
      try discriminate H.
    destruct (processAssignment_shape req st st1 e Hstep)
      as (new1 & Ha1 & Hk1 & Hu1).
    destruct (IH st1 H) as (new & Ha & Hk & Hu).
    exists (new1 ++ new). rewrite Ha, Ha1, Hu, Hu1, <- !app_assoc.
    split; [reflexivity|].
    change (e :: rest) with ([e] ++ rest).
    unfold keptEntries, hunksOf in *.
    rewrite !List.filter_app, omap_app.
    split; [apply Forall2_app; assumption | reflexivity].
Qed.

Lemma processUnmatched_prefix (req : AbsorbRequest) (m : gmap Z bool)
  (l : list Z) (U : list Hunk) :
  exists rest, fold_left (processUnmatched req m) l U = U ++ rest.
Proof.
  revert U. induction l as [|idx l IH]; intros U.
  - exists []. rewrite app_nil_r. reflexivity.
  - cbn [fold_left]. destruct (IH (processUnmatched req m U idx)) as [rest ->].
    unfold processUnmatched. destruct (hunkAt _ idx) as [h|];
      [destruct (wasAssigned m idx)|]; eauto.
    exists ([h] ++ rest). rewrite app_assoc. reflexivity.
Qed.

Lemma closeUnmentioned_prefix (m : gmap Z bool) (mentioned : list Z)
  (hs : list Hunk) (i : Z) (U : list Hunk) :
  exists rest, closeUnmentioned m mentioned i hs U = U ++ rest.
Proof.
  revert i U. induction hs as [|h hs IH]; intros i U.
  - exists []. rewrite app_nil_r. reflexivity.
  - cbn [closeUnmentioned]. destruct (_ && _).
    + destruct (IH (i + 1) (U ++ [h])) as [rest ->].
      exists ([h] ++ rest). rewrite app_assoc. reflexivity.
    + apply IH.
Qed.

(** What [parseAbsorbResponse] makes of the oracle's entries. *)
Lemma parseAbsorbResponse_shape (doc : absorbJSONResponse)
  (req : AbsorbRequest) (resp : AbsorbResponse) :
  parseAbsorbResponse doc req = Ok resp ->
  Forall2 (madeOf req) (keptEntries req (json_Assignments doc))
    (Assignments resp)
  /\ exists rest,
       UnmatchedHunks resp
       = hunksOf req (fun e => demoted req e) (json_Assignments doc) ++ rest.
Proof.
  intros H. unfold parseAbsorbResponse in H.
  destruct (processAssignments req _ (json_Assignments doc)) as [st| |] eqn:Hloop;
    try discriminate H.
  injection H as <-. cbn [Assignments UnmatchedHunks].
  destruct (processAssignments_shape req _ _ st Hloop) as (new & Ha & Hk & Hu).
  cbn [ps_Assignments ps_Unmatched app] in Ha, Hu. rewrite Ha.
  split; [exact Hk|].
  destruct (processUnmatched_prefix req (assignedHunks st)
              (json_UnmatchedHunks doc) (ps_Unmatched st)) as [r1 E1].
  destruct (closeUnmentioned_prefix (assignedHunks st) (json_UnmatchedHunks doc)
              (req_Hunks req) 0
              (fold_left (processUnmatched req (assignedHunks st))
                 (json_UnmatchedHunks doc) (ps_Unmatched st))) as [r2 E2].
  exists (r1 ++ r2). rewrite E2, E1, Hu, <- app_assoc. reflexivity.
Qed.

Lemma madeOf_inUnit (req : AbsorbRequest) (e : jsonAssignment)
  (a : HunkAssignment) :
  madeOf req e a ->
  inUnit (js_Confidence e)
  /\ Forall (fun ja => inUnit (ja_Confidence ja)) (js_Alternatives e) ->
  inUnit (ha_Confidence a)
  /\ Forall (fun alt => inUnit (alt_Confidence alt)) (ha_Alternatives a).
Proof.
  intros (_ & _ & Hc & _ & Halts) [Hu Hau]. rewrite Hc. split; [exact Hu|].
  induction Halts as [|ja alt jas alts (_ & Hac & _) _ IH]; [constructor|].
  apply Forall_cons in Hau as [Hja Hjas].
  constructor; [rewrite Hac; exact Hja | exact (IH Hjas)].
Qed.

Lemma madeOf_all_inUnit (req : AbsorbRequest) (es : list jsonAssignment)
  (asg : list HunkAssignment) :
  Forall2 (madeOf req) es asg ->
  Forall (fun e => inUnit (js_Confidence e)
                   /\ Forall (fun a => inUnit (ja_Confidence a))
                             (js_Alternatives e)) es ->
  Forall (fun a => inUnit (ha_Confidence a)
                   /\ Forall (fun alt => inUnit (alt_Confidence alt))
                             (ha_Alternatives a)) asg.
Proof.
  induction 1 as [|e a es asg Hea _ IH]; intros Hes; [constructor|].
  apply Forall_cons in Hes as [He Hes].
  constructor; [exact (madeOf_inUnit req e a Hea He) | exact (IH Hes)].
Qed.

(** C4 (as amended). The assignments of the response of
    [parseAbsorbResponse] are made, one by one and in order, of the
    entries of the oracle's document that are in range and not demoted:
    each assignment has the hunk and the commit of its entry and carries
    the confidence of that entry, and its alternatives carry, one by one,
    the confidences of the alternatives of that entry, all passed through
    unchanged and never clamped. So the confidences of the response lie in
    [0, 1] whenever all those of the document do. *)
Theorem confidences_pass_through (doc : absorbJSONResponse)
  (req : AbsorbRequest) (resp : AbsorbResponse) :
  parseAbsorbResponse doc req = Ok resp ->
  Forall2 (madeOf req) (keptEntries req (json_Assignments doc))
    (Assignments resp)
  /\ (documentInUnit doc -> responseInUnit resp).
Proof.
  intros H. destruct (parseAbsorbResponse_shape doc req resp H) as [Hmade _].
  split; [exact Hmade|].
  unfold documentInUnit, responseInUnit. intros Hdoc.
  apply (madeOf_all_inUnit req _ _ Hmade).
  rewrite List.Forall_forall in Hdoc |- *. intros e He.
  apply Hdoc. unfold keptEntries in He. apply List.filter_In in He as [He _].
  exact He.
Qed.

Lemma confidences_pass_through_witness :
  parseAbsorbResponse alternativesDocument interactiveRequest
  = Ok (mkAbsorbResponse [assignmentA; assignmentB] [] 0 EmptyString)
  /\ keptEntries interactiveRequest (json_Assignments alternativesDocument)
     = json_Assignments alternativesDocument
  /\ Forall2 (madeOf interactiveRequest)
       (keptEntries interactiveRequest (json_Assignments alternativesDocument))
       [assignmentA; assignmentB]
  /\ (documentInUnit alternativesDocument ->
      responseInUnit (mkAbsorbResponse [assignmentA; assignmentB] [] 0 EmptyString)).
Proof.
  split; [vm_compute; reflexivity|]. split; [vm_compute; reflexivity|].
  apply (confidences_pass_through alternativesDocument interactiveRequest
           (mkAbsorbResponse [assignmentA; assignmentB] [] 0 EmptyString)).
  vm_compute. reflexivity.
Defined.

(** C4 (as first stated) fails: a confidence of 1.5 and an alternative of
    -0.25 sent by the oracle are in the response as they came. *)
Lemma confidence_clamp_fails :
  ~ (forall doc req resp,
       parseAbsorbResponse doc req = Ok resp -> responseInUnit resp).
Proof.
  intros H.
  assert (Hrun : exists resp,
             parseAbsorbResponse outOfRangeDocument interactiveRequest = Ok resp
             /\ map ha_Confidence (Assignments resp) = [3 # 2]).
  { eexists. split; vm_compute; reflexivity. }
  destruct Hrun as (resp & Hparse & Hconf).
  specialize (H _ _ _ Hparse). unfold responseInUnit in H.
  destruct (Assignments resp) as [|a rest]; [discriminate Hconf|].
  injection Hconf as Ha _. apply Forall_inv in H. destruct H as [[_ Hle] _].
  rewrite Ha in Hle. vm_compute in Hle. apply Hle. reflexivity.
Qed.

(** ** The oracle client: a hunk index named twice *)

(** C1 (the code at the failing input). In best-match mode with threshold
    0.7, a document that assigns hunk 0 twice, with confidence 0.9 and with
    confidence 0.5, gives a response in which hunk 0 is assigned and
    unmatched at once: the second entry is demoted although the first has
    marked the hunk as assigned. *)
Theorem duplicate_index_breaks_partition :
  exists resp,
    parseAbsorbResponse duplicateIndexDocument bestMatchRequest = Ok resp
    /\ map ha_Hunk (Assignments resp) = [hunkA]
    /\ UnmatchedHunks resp = [hunkA; hunkB].
Proof. eexists. repeat split; vm_compute; reflexivity. Qed.

(** In interactive mode the same document assigns hunk 0 twice. *)
Lemma duplicate_index_assigned_twice :
  exists resp,
    parseAbsorbResponse duplicateIndexDocument interactiveRequest = Ok resp
    /\ map ha_Hunk (Assignments resp) = [hunkA; hunkA]
    /\ UnmatchedHunks resp = [hunkB].
Proof. eexists. repeat split; vm_compute; reflexivity. Qed.

(** ** The oracle client: entries below the threshold *)



(** ** The review state: unassign, then accept *)

Lemma unassign_keeps (m m' : AbsorbReviewModel) :
  unassign m = Ok m' ->
  mode m' = mode m /\ modifications m' = modifications m
  /\ cancelled m' = cancelled m /\ accepted m' = accepted m.
Proof.
  unfold unassign. intros H.
  destruct (currentIndex m <? Z.of_nat (len (assignments m))).
  - destruct (assignmentAt m (currentIndex m)); [|discriminate H].
    injection H as <-. repeat split; reflexivity.
  - injection H as <-. repeat split; reflexivity.
Qed.

Lemma unassign_new (resp : AbsorbResponse) (cs : list CommitInfo) :
  exists m', unassign (NewAbsorbReviewModel resp cs) = Ok m'.
Proof.
  unfold unassign, assignmentAt, elems, NewAbsorbReviewModel.
  cbn [currentIndex assignments len array].
  destruct (Assignments resp) as [|a rest].
  - eexists. reflexivity.
  - cbn [length].
    replace (0 <? Z.of_nat (S (length rest))) with true
      by (symmetry; apply Z.ltb_lt; lia).
    eexists. reflexivity.
Qed.

Lemma accept_in_review (m : AbsorbReviewModel) :
  mode m = "review" ->
  Update m (KeyMsg "y") = Ok (set_done m true (cancelled m), true).
Proof. intros H. unfold Update. rewrite H. reflexivity. Qed.

Lemma unassign_in_review (m : AbsorbReviewModel) :
  mode m = "review" ->
  Update m (KeyMsg "u")
  = match unassign m with
    | Ok m' => Ok (m', false)
    | Err e => Err e
    | Panic => Panic
    end.
Proof. intros H. unfold Update. rewrite H. reflexivity. Qed.

(** C2 (the code on every response). Whatever the response, the review
    that unassigns the current assignment and then accepts ends accepted
    and without a response: [GetResult] returns [(true, nil)], because an
    unassignment is not recorded in [modifications]. *)
Theorem unassign_accept_returns_nil (resp : AbsorbResponse)
  (cs : list CommitInfo) :
  exists m,
    ShowAbsorbReview resp cs [KeyMsg "u"; KeyMsg "y"]
    = Ok (Some (m, true, None)).
Proof.
  destruct (unassign_new resp cs) as [m' Hm'].
  destruct (unassign_keeps _ _ Hm') as (Hmode & Hmod & Hcanc & Hacc).
  exists (set_done m' true (cancelled m')).
  unfold ShowAbsorbReview. cbn [runReview].
  rewrite (unassign_in_review (NewAbsorbReviewModel resp cs) eq_refl), Hm'.
  rewrite (accept_in_review m' Hmode).
  unfold GetResult. cbn [set_done cancelled accepted modifications].
  rewrite Hcanc, Hmod. reflexivity.
Qed.

(** And what the command goes on with: for the sample response the
    assignments it keeps are [assignmentB] twice (the array cell that moved
    down and the old last cell), the unmatched hunks are unchanged, where
    unassigning should have left [assignmentB] alone and added [hunkA] to
    the unmatched hunks. *)
Lemma unassign_accept_run :
  exists m,
    ShowAbsorbReview reviewedResponse [commit1; commit2] [KeyMsg "u"; KeyMsg "y"]
    = Ok (Some (m, true, None))
    /\ elems (assignments m) = [assignmentB]
    /\ unmatched m = [hunkU; hunkA]
    /\ responseAfterReview reviewedResponse m None
       = mkAbsorbResponse [assignmentB; assignmentB] [hunkU] 0 EmptyString
    /\ unassigned reviewedResponse 0 assignmentA
       = mkAbsorbResponse [assignmentB] [hunkU; hunkA] 0 EmptyString.
Proof. eexists. repeat split; vm_compute; reflexivity. Qed.

(** After an alternative was chosen the same keys do give the edited
    response. *)
Lemma select_unassign_accept_run :
  exists m,
    ShowAbsorbReview reviewedResponse [commit1; commit2]
      [KeyMsg "a"; KeyMsg "down"; KeyMsg "enter"; KeyMsg "l"; KeyMsg "u"; KeyMsg "y"]
    = Ok (Some (m, true,
                Some (mkAbsorbResponse
                        [mkHunkAssignment hunkA (SHA commit2) "add b" (3 # 5)
                           "same file" (ha_Alternatives assignmentA)]
                        [hunkU; hunkB] 0 EmptyString))).
Proof. eexists. vm_compute. reflexivity. Qed.

(** ** Running programs *)

Lemma run_bind {A B : Type} (env : Env) (p : Prog A) (f : A -> Prog B)
  (hist : list Event) :
  run env hist (p ≫= f)
  = run env (snd (run env hist p)) (f (fst (run env hist p))).
Proof.
  revert hist. induction p as [a|X e k IH]; intros hist.
  - reflexivity.
  - cbn. apply IH.
Qed.

Lemma run_call {X : Type} (env : Env) (e : gitE X) (hist : list Event) :
  run env hist (call e) = (env X hist e, hist ++ [Ev e (env X hist e)]).
Proof. reflexivity. Qed.

(** ** The fixup applier: restore, then patch *)

Lemma resetFiles_run (env : Env) (hs : list Hunk) (hist : list Event) :
  exists outs,
    snd (run env hist (resetFiles hs)) = hist ++ restoreEvents hs outs
    /\ match fst (run env hist (resetFiles hs)) with
       | Ok _ => Forall2 restored hs outs
       | Err m =>
           exists done h rest oks,
             hs = done ++ h :: rest /\ outs = oks ++ [false]
             /\ Forall2 restored done oks /\ IsNew h = false
             /\ m = "failed to reset file " +:+ FilePath h
       | Panic => False
       end.
Proof.
  revert hist. induction hs as [|h rest IH]; intros hist.
  - exists []. cbn. rewrite app_nil_r. split; [reflexivity | constructor].
  - cbn [resetFiles]. rewrite run_bind, run_call. cbn [fst snd].
    destruct (env bool hist (GitCheckoutHead (FilePath h))) eqn:Hok;
      cbn [orb].
    + destruct (IH (hist ++ [Ev (GitCheckoutHead (FilePath h)) true]))
        as (outs & Htr & Hres).
      exists (true :: outs). rewrite Htr, <- app_assoc.
      split; [reflexivity|].
      destruct (fst (run env _ (resetFiles rest))) as [[]|m|].
      * constructor; [left; reflexivity | exact Hres].
      * destruct Hres as (done & h' & rest' & oks & -> & -> & Hd & Hn & ->).
        exists (h :: done), h', rest', (true :: oks).
        repeat split; try reflexivity; try assumption.
        constructor; [left; reflexivity | exact Hd].
      * exact Hres.
    + destruct (IsNew h) eqn:Hnew.
      * destruct (IH (hist ++ [Ev (GitCheckoutHead (FilePath h)) false]))
          as (outs & Htr & Hres).
        exists (false :: outs). rewrite Htr, <- app_assoc.
        split; [reflexivity|].
        destruct (fst (run env _ (resetFiles rest))) as [[]|m|].
        -- constructor; [right; exact Hnew | exact Hres].
        -- destruct Hres as (done & h' & rest' & oks & -> & -> & Hd & Hn & ->).
           exists (h :: done), h', rest', (false :: oks).
           repeat split; try reflexivity; try assumption.
           constructor; [right; exact Hnew | exact Hd].
        -- exact Hres.
      * exists [false]. split.
        { unfold restoreEvents. cbn [zip_with snd].
          rewrite zip_with_nil_r. reflexivity. }
        cbn [fst].
        exists [], h, rest, []. repeat split; try reflexivity; try assumption.
        constructor.
Qed.

Lemma CreateFixupCommit_run (env : Env) (targetSHA : string)
  (hist : list Event) :
  exists evs,
    snd (run env hist (CreateFixupCommit targetSHA EmptyString)) = hist ++ evs
    /\ commitRun targetSHA
         (fst (run env hist (CreateFixupCommit targetSHA EmptyString))) evs.
Proof.
  unfold CreateFixupCommit. cbn [String.eqb andb].
  destruct (Nat.ltb (String.length targetSHA) 7).
  - exists []. cbn. rewrite app_nil_r. split; [reflexivity|].
    left. split; reflexivity.
  - rewrite run_bind, run_call. cbn [fst snd run].
    eexists. split; [reflexivity|].
    right. eexists _, _. split; reflexivity.
Qed.

Lemma applyPatch_run (env : Env) (hs : list Hunk) (targetSHA patch : string)
  (hist : list Event) :
  (exists outs done h rest,
     hs = done ++ h :: rest /\ Forall2 restored done outs /\ IsNew h = false
     /\ snd (run env hist (applyPatch hs targetSHA patch))
        = hist ++ restoreEvents hs (outs ++ [false])
     /\ fst (run env hist (applyPatch hs targetSHA patch))
        = Err ("failed to reset file " +:+ FilePath h))
  \/ (exists outs applied evs,
        Forall2 restored hs outs
        /\ snd (run env hist (applyPatch hs targetSHA patch))
           = hist ++ restoreEvents hs outs
             ++ Ev (GitApplyIndex patch) applied :: evs
        /\ ((applied = false /\ evs = []
             /\ fst (run env hist (applyPatch hs targetSHA patch))
                = Err "failed to apply patch")
            \/ (applied = true
                /\ commitRun targetSHA
                     (fst (run env hist (applyPatch hs targetSHA patch)))
                     evs))).
Proof.
  unfold applyPatch. rewrite run_bind.
  destruct (resetFiles_run env hs hist) as (outs & Htr & Hres).
  destruct (fst (run env hist (resetFiles hs))) as [[]|m|].
  - right. rewrite run_bind, run_call, Htr. cbn [fst snd].
    destruct (env bool _ (GitApplyIndex patch)) eqn:Happ.
    + destruct (CreateFixupCommit_run env targetSHA
                  ((hist ++ restoreEvents hs outs)
                   ++ [Ev (GitApplyIndex patch) true])) as (evs & Hevs & Hc).
      exists outs, true, evs. split; [exact Hres|]. split.
      * rewrite Hevs, <- !app_assoc. reflexivity.
      * right. split; [reflexivity | exact Hc].
    + exists outs, false, []. split; [exact Hres|]. split.
      * cbn. rewrite <- app_assoc. reflexivity.
      * left. repeat split; reflexivity.
  - left. destruct Hres as (done & h & rest & oks & -> & -> & Hd & Hn & ->).
    exists oks, done, h, rest. cbn [run fst snd].
    repeat split; try reflexivity; assumption.
  - destruct Hres.
Qed.

(** C8. A run of [ApplyHunksAsFixup] on some hunks has one of three
    shapes. Either the patch file cannot be created and nothing else
    happens. Or the restore ([git checkout HEAD -- file]) of a file that
    the hunk does not mark as new fails: the files of the hunks before it
    were restored (or were new), and the call returns the error at once,
    with no [git apply] and no fixup commit. Or the file of every hunk went
    through the restore, each restore having succeeded or been that of a
    new file (its failure ignored), and only after all of them the patch is
    applied and, if that worked, the fixup commit is made. *)
Theorem restore_before_patch (env : Env) (hs : list Hunk) (targetSHA : string)
  (res : Res unit) (tr : list Event) :
  hs <> [] ->
  run env [] (ApplyHunksAsFixup hs targetSHA) = (res, tr) ->
  patchFileFailed hs res tr
  \/ restoreFailed hs res tr
  \/ patchApplied hs targetSHA res tr.
Proof.
  intros Hne Hrun. unfold ApplyHunksAsFixup in Hrun.
  destruct hs as [|h0 hs0] eqn:Ehs; [congruence|]. rewrite <- Ehs in *.
  clear Ehs Hne h0 hs0.
  rewrite run_bind, run_call in Hrun. cbn [fst snd app] in Hrun.
  destruct (env (option string) [] (CreatePatchFile hs)) as [patch|].
  - rewrite run_bind in Hrun.
    rewrite run_bind, run_call in Hrun. cbn [fst snd run] in Hrun.
    destruct (env unit _ (OsRemove patch)).
    injection Hrun as <- <-.
    destruct (applyPatch_run env hs targetSHA patch
                [Ev (CreatePatchFile hs) (Some patch)])
      as [(outs & done & h & rest & Hhs & Hd & Hn & Htr & Hres)
         |(outs & applied & evs & Hall & Htr & Hcases)].
    + right. left. exists patch, outs, done, h, rest.
      rewrite Htr, Hres.
      split; [exact Hhs|]. split; [exact Hd|]. split; [exact Hn|].
      split; reflexivity.
    + right. right. exists patch, outs, applied, (evs ++ [Ev (OsRemove patch) tt]).
      split; [exact Hall|]. split.
      * rewrite Htr. cbn. rewrite <- !app_assoc. reflexivity.
      * destruct Hcases as [(-> & -> & Hres)|(-> & Hc)].
        -- left. rewrite Hres. repeat split; reflexivity.
        -- right. split; [reflexivity|]. exists evs.
           split; [exact Hc | reflexivity].
  - cbn in Hrun. injection Hrun as <- <-. left. split; reflexivity.
Qed.

Lemma restore_before_patch_witness :
  exists res tr,
    run restoreFailsEnv [] (ApplyHunksAsFixup [hunkA; newHunkB] (SHA commit1))
    = (res, tr)
    /\ (patchFileFailed [hunkA; newHunkB] res tr
        \/ restoreFailed [hunkA; newHunkB] res tr
        \/ patchApplied [hunkA; newHunkB] (SHA commit1) res tr).
Proof.
  eexists _, _. split; [vm_compute; reflexivity|].
  apply (restore_before_patch restoreFailsEnv [hunkA; newHunkB] (SHA commit1)).
  - discriminate.
  - vm_compute. reflexivity.
Defined.

(** The failed restore of a new file is ignored: the patch is applied and
    the fixup commit made. The failed restore of an old file stops the
    call. *)
Lemma restore_failure_runs :
  run restoreFailsEnv [] (ApplyHunksAsFixup [hunkA; newHunkB] (SHA commit1))
  = (Ok tt,
     [ Ev (CreatePatchFile [hunkA; newHunkB]) (Some "/tmp/cmt-absorb-1.patch");
       Ev (GitCheckoutHead "a.txt") true;
       Ev (GitCheckoutHead "b.txt") false;
       Ev (GitApplyIndex "/tmp/cmt-absorb-1.patch") true;
       Ev (GitCommitFixup (SHA commit1) "fixup! 1111111") true;
       Ev (OsRemove "/tmp/cmt-absorb-1.patch") tt ])
  /\ run restoreFailsEnv [] (ApplyHunksAsFixup [hunkB; hunkA] (SHA commit1))
     = (Err "failed to reset file b.txt",
        [ Ev (CreatePatchFile [hunkB; hunkA]) (Some "/tmp/cmt-absorb-1.patch");
          Ev (GitCheckoutHead "b.txt") false;
          Ev (OsRemove "/tmp/cmt-absorb-1.patch") tt ]).
Proof. split; vm_compute; reflexivity. Qed.

(** ** The fixup loop stops at the first failure *)

Lemma createFixups_cons (env : Env) (sha : string) (hs : list Hunk)
  (rest : list (string * list Hunk)) (hist : list Event) :
  run env hist (createFixups ((sha, hs) :: rest))
  = let applied := run env hist (ApplyHunksAsFixup hs sha) in
    match fst applied with
    | Ok _ =>
        if Nat.ltb (String.length sha) 8 then (Panic, snd applied)
        else run env
               (snd applied
                ++ [Ev (Print ("Created fixup commit for " +:+ str_take 8 sha)) tt])
               (createFixups rest)
    | Err m =>
        if Nat.ltb (String.length sha) 8 then (Panic, snd applied)
        else (Err ("failed to create fixup commit for "
                   +:+ str_take 8 sha +:+ ": " +:+ m), snd applied)
    | Panic => (Panic, snd applied)
    end.
Proof.
  cbn [createFixups]. rewrite run_bind. cbv zeta.
  destruct (fst (run env hist (ApplyHunksAsFixup hs sha))) as [[]|m|];
    destruct (Nat.ltb (String.length sha) 8); try reflexivity.
  rewrite run_bind, run_call. cbn [fst snd].
  destruct (env unit _ (Print _)). reflexivity.
Qed.

Lemma createFixups_app (env : Env) (done more : list (string * list Hunk))
  (hist mid : list Event) :
  run env hist (createFixups done) = (Ok tt, mid) ->
  run env hist (createFixups (done ++ more)) = run env mid (createFixups more).
Proof.
  revert hist. induction done as [|[sha hs] done IH]; intros hist H.
  - cbn in H. injection H as <-. reflexivity.
  - rewrite <- app_comm_cons. rewrite createFixups_cons in H |- *.
    cbv zeta in *.
    destruct (fst (run env hist (ApplyHunksAsFixup hs sha))) as [[]|m|];
      destruct (Nat.ltb (String.length sha) 8); try discriminate H.
    apply IH. exact H.
Qed.

(** C5 (as amended). In the loop that creates one fixup commit per target,
    when the targets before have been applied and the call of
    [ApplyHunksAsFixup] for a target fails, the loop ends there: the error
    returned names the failing target (the first eight bytes of its
    identifier) and carries the cause, and the last call made is the last
    call of the failing [ApplyHunksAsFixup], whatever targets remain: none
    of them is attempted. *)
Theorem fixups_stop_at_first_failure (env : Env)
  (done rest : list (string * list Hunk)) (sha : string) (hs : list Hunk)
  (hist mid final : list Event) (m : string) :
  run env hist (createFixups done) = (Ok tt, mid) ->
  run env mid (ApplyHunksAsFixup hs sha) = (Err m, final) ->
  run env hist (createFixups (done ++ (sha, hs) :: rest))
  = (if Nat.ltb (String.length sha) 8 then Panic
     else Err ("failed to create fixup commit for "
               +:+ str_take 8 sha +:+ ": " +:+ m),
     final).
Proof.
  intros Hdone Hfail.
  rewrite (createFixups_app env done _ hist mid Hdone).
  rewrite createFixups_cons, Hfail. cbn [fst snd].
  destruct (Nat.ltb (String.length sha) 8); reflexivity.
Qed.

Lemma fixups_stop_at_first_failure_witness :
  run applyFailsEnv []
    (createFixups ([] ++ (SHA commit1, [hunkA]) :: [(SHA commit2, [hunkB])]))
  = (Err "failed to create fixup commit for 11111111: failed to apply patch",
     [ Ev (CreatePatchFile [hunkA]) (Some "/tmp/cmt-absorb-1.patch");
       Ev (GitCheckoutHead "a.txt") true;
       Ev (GitApplyIndex "/tmp/cmt-absorb-1.patch") false;
       Ev (OsRemove "/tmp/cmt-absorb-1.patch") tt ]).
Proof.
  apply (fixups_stop_at_first_failure applyFailsEnv [] [(SHA commit2, [hunkB])]
           (SHA commit1) [hunkA] [] [] _ "failed to apply patch").
  - reflexivity.
  - vm_compute. reflexivity.
Defined.

(** C5 (as first stated) fails: when [git apply] fails for the first
    target the map yields, the loop returns and the other target never
    gets its call. *)
Lemma failed_target_stops_the_others :
  ~ (forall env resp entries,
       range_order (commitHunksOf (Assignments resp)) entries ->
       everyTargetAttempted env resp entries).
Proof.
  intros H.
  assert (Horder : range_order (commitHunksOf (Assignments reviewedResponse))
                     sampleEntries) by (unfold range_order, sampleEntries; reflexivity).
  specialize (H applyFailsEnv reviewedResponse sampleEntries Horder).
  assert (Hfirst : exists first second tr,
             sampleEntries = [first; second]
             /\ snd (run applyFailsEnv []
                       (applyAssignments reviewedResponse sampleEntries)) = tr
             /\ patched tr = [snd first]
             /\ snd first <> snd second).
  { eexists _, _, _. split; [vm_compute; reflexivity|].
    split; [vm_compute; reflexivity|].
    split; [vm_compute; reflexivity|]. vm_compute. discriminate. }
  destruct Hfirst as ([sha1 hs1] & [sha2 hs2] & tr & Hentries & Htr & Hp & Hne).
  specialize (H sha2 hs2). rewrite Htr, Hp, Hentries in H.
  destruct H as [H|[]]; [right; left; reflexivity|].
  apply Hne. exact H.
Qed.

(** ** Undo goes through when the stash cannot be reapplied *)

(** After an undo that went through despite the stash, a disk that carries
    out the removal no longer has the state file. *)
Lemma undoDespiteStash_removes (root text : string) (st : AbsorbState)
  (deleted : bool) (cur : FileRead) :
  diskLookup (undoDespiteStash root text st deleted) (stateFile root) cur
  = FileNotExist.
Proof.
  unfold undoDespiteStash.
  destruct deleted; cbn [app diskLookup]; rewrite String.eqb_refl; reflexivity.
Qed.

(** C6. Whenever [git stash pop] fails during [UndoAbsorb], the run is
    this one: the state was loaded, the recorded branch was checked out
    and reset to the recorded backup reference, both with success and
    before the stash was tried; the failure is answered by two warning
    lines and nothing else; the deletion of the backup reference is tried
    next (a failure is a warning too); the last call removes the state
    file the record was loaded from, so that a disk that carries out the
    removal no longer has it; and [UndoAbsorb] returns no error. *)
Theorem undo_survives_stash_failure (env : Env) (repo : Repository)
  (res : Res unit) (tr : list Event) :
  run env [] (UndoAbsorb repo) = (res, tr) ->
  stashPopFailed tr = true ->
  exists root text st deleted,
    RootPath repo = Some root
    /\ parseAbsorbState text = Ok st
    /\ tr = undoDespiteStash root text st deleted
    /\ res = Ok tt
    /\ diskLookup tr (stateFile root) (FileContent text) = FileNotExist.
Proof.
  intros Hrun Hfail.
  unfold UndoAbsorb, LoadAbsorbState, StashPop, DeleteBackupRef in Hrun.
  destruct (RootPath repo) as [root|];
    [|cbn in Hrun; injection Hrun as <- <-; discriminate Hfail].
  cbn [run mbind prog_bind bind call app default] in Hrun.
  destruct (env FileRead [] (OsOpen (stateFile root))) as [text| |].
  2,3: cbn in Hrun; injection Hrun as <- <-; discriminate Hfail.
  cbn [run mbind prog_bind bind call app] in Hrun.
  destruct (parseAbsorbState text) as [st| |] eqn:Hparse.
  2,3: cbn in Hrun; injection Hrun as <- <-; discriminate Hfail.
  destruct (String.eqb (BackupRef st) EmptyString).
  { cbn in Hrun; injection Hrun as <- <-; discriminate Hfail. }
  cbn [run mbind prog_bind bind call app] in Hrun.
  destruct (env bool _ (GitCheckout (CurrentBranch st))).
  2: { cbn in Hrun; injection Hrun as <- <-; discriminate Hfail. }
  cbn [run mbind prog_bind bind call app] in Hrun.
  destruct (env bool _ (GitResetMixed (BackupRef st))).
  2: { cbn in Hrun; injection Hrun as <- <-; discriminate Hfail. }
  destruct (String.eqb (StashSHA st) EmptyString).
  { cbn [run mbind prog_bind bind call app] in Hrun.
    destruct (env bool _ (GitUpdateRefDelete (BackupRef st)));
      cbn [run mbind prog_bind bind call app] in Hrun;
      injection Hrun as <- <-; discriminate Hfail. }
  cbn [run mbind prog_bind bind call app] in Hrun.
  destruct (env bool _ GitStashPop).
  { cbn [run mbind prog_bind bind call app] in Hrun.
    destruct (env bool _ (GitUpdateRefDelete (BackupRef st)));
      cbn [run mbind prog_bind bind call app] in Hrun;
      injection Hrun as <- <-; discriminate Hfail. }
  cbn [run mbind prog_bind bind call app] in Hrun.
  destruct (env unit _ (Print "Warning: Could not restore stashed changes")).
  destruct (env unit _ (Print "   You may need to manually run: git stash pop")).
  destruct (env bool _ (GitUpdateRefDelete (BackupRef st))) eqn:Hdel;
    cbn [run mbind prog_bind bind call app] in Hrun.
  - match type of Hrun with
    | context [env unit ?h ?e] => destruct (env unit h e)
    end.
    injection Hrun as <- <-.
    exists root, text, st, true.
    split; [reflexivity|]. split; [exact Hparse|]. split; [reflexivity|].
    split; [reflexivity|]. apply (undoDespiteStash_removes root text st true).
  - destruct (env unit _ (Print "Warning: Could not delete backup ref")).
    match type of Hrun with
    | context [env unit ?h ?e] => destruct (env unit h e)
    end.
    injection Hrun as <- <-.
    exists root, text, st, false.
    split; [reflexivity|]. split; [exact Hparse|]. split; [reflexivity|].
    split; [reflexivity|]. apply (undoDespiteStash_removes root text st false).
Qed.

Lemma undo_survives_stash_failure_witness :
  exists res tr root text st deleted,
    run stashFailsEnv [] (UndoAbsorb sampleRepo) = (res, tr)
    /\ stashPopFailed tr = true
    /\ RootPath sampleRepo = Some root
    /\ parseAbsorbState text = Ok st
    /\ tr = undoDespiteStash root text st deleted
    /\ res = Ok tt
    /\ diskLookup tr (stateFile root) (FileContent text) = FileNotExist.
Proof.
  assert (Hrun : exists res tr,
             run stashFailsEnv [] (UndoAbsorb sampleRepo) = (res, tr)
             /\ stashPopFailed tr = true).
  { eexists _, _. split; vm_compute; reflexivity. }
  destruct Hrun as (res & tr & Hrun & Hfail).
  destruct (undo_survives_stash_failure stashFailsEnv sampleRepo res tr Hrun Hfail)
    as (root & text & st & deleted & H).
  exists res, tr, root, text, st, deleted. split; [exact Hrun|].
  split; [exact Hfail | exact H].
Defined.

(** The run in that environment. *)
Lemma undo_with_failing_stash_run :
  run stashFailsEnv [] (UndoAbsorb sampleRepo)
  = (Ok tt,
     undoDespiteStash "/work/repo" (renderAbsorbState sampleState)
       sampleState true).
Proof. vm_compute. reflexivity. Qed.

(** ** Cleaning up backups *)

Lemma deletes_app (a b : list Event) : deletes (a ++ b) = deletes a ++ deletes b.
Proof.
  induction a as [|[X e x] a IH]; [reflexivity|].
  destruct e; cbn; rewrite ?IH; reflexivity.
Qed.

Lemma printed_app (a b : list Event) : printed (a ++ b) = printed a ++ printed b.
Proof.
  induction a as [|[X e x] a IH]; [reflexivity|].
  destruct e; cbn; rewrite ?IH; reflexivity.
Qed.

(** A reference is left exactly when it was there and no deletion of it
    succeeded. *)
Lemma refs_after_spec (tr : list Event) (refs : gset string) (r : string) :
  r ∈ refs_after tr refs <-> r ∈ refs /\ ~ In (r, true) (deletes tr).
Proof.
  revert refs. induction tr as [|[X e x] tr IH]; intros refs.
  - cbn. tauto.
  - destruct e; cbn [refs_after deletes]; try apply IH.
    destruct x.
    + rewrite IH. cbn [In]. rewrite elem_of_difference, elem_of_singleton.
      split.
      * intros [[Hin Hne] Hno]. split; [exact Hin|].
        intros [Heq|Hd]; [injection Heq as Heq; congruence | exact (Hno Hd)].
      * intros [Hin Hno]. split; [split; [exact Hin|]|].
        -- intros ->. apply Hno. left. reflexivity.
        -- intros Hd. apply Hno. right. exact Hd.
    + rewrite IH. cbn [In]. split.
      * intros [Hin Hno]. split; [exact Hin|].
        intros [Heq|Hd]; [discriminate Heq | exact (Hno Hd)].
      * intros [Hin Hno]. split; [exact Hin|].
        intros Hd. apply Hno. right. exact Hd.
Qed.

Lemma loopEvent_deletes (active : string) (refs : list string)
  (evs : list Event) (r : string) (ok : bool) :
  Forall (loopEvent active refs) evs -> In (r, ok) (deletes evs) ->
  r <> active /\ In r refs.
Proof.
  induction 1 as [|[X e x] evs Hev _ IH]; [intros []|].
  destruct e; cbn [deletes loopEvent] in *; try exact IH; try destruct Hev.
  intros [Heq|Hin]; [|exact (IH Hin)].
  injection Heq as -> ->. split; assumption.
Qed.

Lemma loopEvent_neutral (active : string) (refs : list string)
  (evs rest : list Event) :
  Forall (loopEvent active refs) evs ->
  activeRef (evs ++ rest) = activeRef rest
  /\ listedRefs (evs ++ rest) = listedRefs rest.
Proof.
  induction 1 as [|[X e x] evs Hev _ IH]; [split; reflexivity|].
  destruct e; cbn [loopEvent] in Hev; try destruct Hev; exact IH.
Qed.

Lemma loopEvent_more (active : string) (refs : list string) (ref : string)
  (ev : Event) :
  loopEvent active refs ev -> loopEvent active (ref :: refs) ev.
Proof.
  destruct ev as [X e x]. destruct e; cbn [loopEvent]; try tauto.
  intros [Hne Hin]. split; [exact Hne | right; exact Hin].
Qed.

Lemma cleanupLoop_run (env : Env) (active : string) (refs : list string)
  (n : Z) (hist : list Event) :
  exists evs,
    snd (run env hist (cleanupLoop active refs n)) = hist ++ evs
    /\ Forall (loopEvent active refs) evs
    /\ (forall r, In r refs -> r <> active -> exists ok, In (r, ok) (deletes evs))
    /\ (forall r, In (r, false) (deletes evs) ->
        In ("Failed to delete ref " +:+ r) (printed evs)).
Proof.
  revert n hist. induction refs as [|ref rest IH]; intros n hist.
  - exists []. cbn. rewrite app_nil_r.
    split; [reflexivity|]. split; [constructor|].
    split; intros r [].
  - cbn [cleanupLoop]. destruct (String.eqb_spec ref active) as [Heq|Hne].
    + rewrite run_bind, run_call. cbn [fst snd].
      destruct (env unit hist (Print _)).
      destruct (IH n (hist ++ [Ev (Print ("Skipping active backup: " +:+ refName ref)) tt]))
        as (evs & Htr & Hall & Hdel & Hwarn).
      exists (Ev (Print ("Skipping active backup: " +:+ refName ref)) tt :: evs).
      rewrite Htr, <- app_assoc. split; [reflexivity|]. split.
      { constructor; [exact I|].
        eapply Forall_impl; [exact Hall|]. intros ev. apply loopEvent_more. }
      split.
      * intros r [<-|Hin] Hr; [congruence|]. cbn [deletes]. apply Hdel; assumption.
      * intros r Hr. cbn [deletes printed] in *. right. apply Hwarn. exact Hr.
    + unfold DeleteBackupRef. rewrite !run_bind, run_call. cbn [fst snd run].
      destruct (env bool hist (GitUpdateRefDelete ref)) eqn:Hok.
      * rewrite run_bind, run_call. cbn [fst snd].
        destruct (env unit _ (Print _)).
        destruct (IH (n + 1)
                    ((hist ++ [Ev (GitUpdateRefDelete ref) true])
                     ++ [Ev (Print ("Deleted backup: " +:+ refName ref)) tt]))
          as (evs & Htr & Hall & Hdel & Hwarn).
        exists (Ev (GitUpdateRefDelete ref) true
                :: Ev (Print ("Deleted backup: " +:+ refName ref)) tt :: evs).
        rewrite Htr, <- !app_assoc. split; [reflexivity|]. split.
        { constructor; [split; [exact Hne | left; reflexivity]|].
          constructor; [exact I|].
          eapply Forall_impl; [exact Hall|]. intros ev. apply loopEvent_more. }
        split.
        -- intros r [<-|Hin] Hr.
           ++ exists true. left. reflexivity.
           ++ destruct (Hdel r Hin Hr) as [ok Hok']. exists ok. right. exact Hok'.
        -- intros r [Heq|Hr]; [discriminate Heq|].
           cbn [printed]. right. apply Hwarn. exact Hr.
      * rewrite run_bind, run_call. cbn [fst snd].
        destruct (env unit _ (Print _)).
        destruct (IH n
                    ((hist ++ [Ev (GitUpdateRefDelete ref) false])
                     ++ [Ev (Print ("Failed to delete ref " +:+ ref)) tt]))
          as (evs & Htr & Hall & Hdel & Hwarn).
        exists (Ev (GitUpdateRefDelete ref) false
                :: Ev (Print ("Failed to delete ref " +:+ ref)) tt :: evs).
        rewrite Htr, <- !app_assoc. split; [reflexivity|]. split.
        { constructor; [split; [exact Hne | left; reflexivity]|].
          constructor; [exact I|].
          eapply Forall_impl; [exact Hall|]. intros ev. apply loopEvent_more. }
        split.
        -- intros r [<-|Hin] Hr.
           ++ exists false. left. reflexivity.
           ++ destruct (Hdel r Hin Hr) as [ok Hok']. exists ok. right. exact Hok'.
        -- intros r [[= <-]|Hr]; cbn [printed].
           ++ left. reflexivity.
           ++ right. apply Hwarn. exact Hr.
Qed.

Lemma prints_neutral (post : list Event) :
  Forall (loopEvent EmptyString []) post ->
  deletes post = [] /\ activeRef post = EmptyString /\ listedRefs post = [].
Proof.
  intros H. split.
  - destruct (deletes post) as [|[r ok] l] eqn:E; [reflexivity|].
    destruct (loopEvent_deletes EmptyString [] post r ok H) as [_ []].
    rewrite E. left. reflexivity.
  - pose proof (loopEvent_neutral EmptyString [] post [] H) as [Ha Hl].
    rewrite app_nil_r in Ha, Hl. split; assumption.
Qed.

(** The run of [runCleanupBackups] from the listing on. *)
Lemma listing_run (env : Env) (active : string) (pre : list Event) :
  exists out evs post,
    snd (run env pre
           (ListBackupRefs ≫= fun listed =>
              match listed with
              | Ok [] => call (Print "No backups to clean up.");; Ret (Ok tt)
              | Ok refs =>
                  cleanupLoop active refs 0 ≫= fun deletedCount =>
                  (if deletedCount =? 0
                   then call (Print "No backups were deleted (all are active or failed to delete).")
                   else call (Print ("Cleaned up " +:+ fmt_d deletedCount +:+ " backup(s)")));;
                  Ret (Ok tt)
              | Err m => Ret (Err ("failed to list backup refs: " +:+ m))
              | Panic => Ret Panic
              end))
    = pre ++ Ev GitShowRef out :: evs ++ post
    /\ Forall (loopEvent active
                 (match out with ShowRefOutput refs => refs | _ => [] end)) evs
    /\ Forall (loopEvent EmptyString []) post
    /\ (forall r,
          In r (match out with ShowRefOutput refs => refs | _ => [] end) ->
          r <> active -> exists ok, In (r, ok) (deletes evs))
    /\ (forall r, In (r, false) (deletes evs) ->
        In ("Failed to delete ref " +:+ r) (printed evs)).
Proof.
  unfold ListBackupRefs. rewrite !run_bind, run_call. cbn [fst snd run].
  destruct (env ShowRef pre GitShowRef) as [refs| |] eqn:Hout.
  - destruct refs as [|ref rest].
    + rewrite run_bind, run_call. cbn [fst snd run].
      destruct (env unit _ (Print _)).
      exists (ShowRefOutput []), [], [Ev (Print "No backups to clean up.") tt].
      rewrite <- app_assoc. split; [reflexivity|].
      split; [constructor|]. split; [repeat constructor|].
      split; intros r [].
    + rewrite run_bind.
      destruct (cleanupLoop_run env active (ref :: rest) 0
                  (pre ++ [Ev GitShowRef (ShowRefOutput (ref :: rest))]))
        as (evs & Htr & Hall & Hdel & Hwarn).
      rewrite Htr.
      destruct (fst (run env _ (cleanupLoop active (ref :: rest) 0)) =? 0).
      * rewrite run_bind, run_call. cbn [fst snd run].
        destruct (env unit _ (Print _)).
        exists (ShowRefOutput (ref :: rest)), evs,
          [Ev (Print "No backups were deleted (all are active or failed to delete).") tt].
        rewrite <- !app_assoc. split; [reflexivity|].
        split; [exact Hall|]. split; [repeat constructor|].
        split; assumption.
      * rewrite run_bind, run_call. cbn [fst snd run].
        destruct (env unit _ (Print _)).
        eexists (ShowRefOutput (ref :: rest)), evs, [Ev (Print _) tt].
        rewrite <- !app_assoc. split; [reflexivity|].
        split; [exact Hall|]. split; [repeat constructor|].
        split; assumption.
  - rewrite run_bind, run_call. cbn [fst snd run].
    destruct (env unit _ (Print _)).
    exists ShowRefExit1, [], [Ev (Print "No backups to clean up.") tt].
    rewrite <- app_assoc. split; [reflexivity|].
    split; [constructor|]. split; [repeat constructor|].
    split; intros r [].
  - exists ShowRefError, [], []. cbn [run snd]. rewrite app_nil_r.
    split; [reflexivity|]. split; [constructor|]. split; [constructor|].
    split; intros r [].
Qed.

Lemma LoadAbsorbState_run (env : Env) (repo : Repository) :
  (snd (run env [] (LoadAbsorbState repo)) = []
   /\ exists m, fst (run env [] (LoadAbsorbState repo)) = Err m)
  \/ (exists path file,
        snd (run env [] (LoadAbsorbState repo)) = [Ev (OsOpen path) file]
        /\ match fst (run env [] (LoadAbsorbState repo)) with
           | Ok state => BackupRef state
           | _ => EmptyString
           end = activeRef [Ev (OsOpen path) file]).
Proof.
  unfold LoadAbsorbState. destruct (RootPath repo) as [root|].
  - right. rewrite run_bind, run_call. cbn [fst snd app].
    exists (stateFile root), (env FileRead [] (OsOpen (stateFile root))).
    destruct (env FileRead [] (OsOpen (stateFile root))) as [text| |];
      cbn [run fst snd activeRef]; split; reflexivity.
  - left. cbn. split; [reflexivity | eexists; reflexivity].
Qed.

(** The loop of [runCleanupBackups] over a listing: no deletion is made of
    the backup reference named by the state record that was loaded, so it
    is still there if it was; for every other listed reference a deletion
    is attempted; a reference is gone exactly when a deletion of it
    succeeded; and every deletion that failed is reported by a warning
    line, the reference staying in place. *)
Theorem cleanup_spares_active (env : Env) (repo : Repository)
  (res : Res unit) (tr : list Event) :
  run env [] (runCleanupBackups repo) = (res, tr) ->
  (forall refs0 : gset string,
     activeRef tr ∈ refs0 -> activeRef tr ∈ refs_after tr refs0)
  /\ (forall r, In r (listedRefs tr) -> r <> activeRef tr ->
      exists ok, In (r, ok) (deletes tr))
  /\ (forall (refs0 : gset string) r,
        r ∈ refs_after tr refs0 <-> r ∈ refs0 /\ ~ In (r, true) (deletes tr))
  /\ (forall r, In (r, false) (deletes tr) ->
      In ("Failed to delete ref " +:+ r) (printed tr)).
Proof.
  intros Hrun.
  assert (Htr : tr = snd (run env [] (runCleanupBackups repo)))
    by (rewrite Hrun; reflexivity).
  clear Hrun. unfold runCleanupBackups in Htr. rewrite run_bind in Htr.
  destruct (listing_run env
              (match fst (run env [] (LoadAbsorbState repo)) with
               | Ok state => BackupRef state
               | _ => EmptyString
               end)
              (snd (run env [] (LoadAbsorbState repo))))
    as (out & evs & post & Hsnd & Hall & Hpost & Hdel & Hwarn).
  assert (Htr' : tr = snd (run env [] (LoadAbsorbState repo))
                      ++ Ev GitShowRef out :: evs ++ post)
    by (rewrite <- Hsnd; exact Htr).
  clear Htr Hsnd.
  destruct (prints_neutral post Hpost) as (Hpd & Hpa & Hpl).
  assert (Hshape :
    activeRef tr = match fst (run env [] (LoadAbsorbState repo)) with
                   | Ok state => BackupRef state
                   | _ => EmptyString
                   end
    /\ listedRefs tr = match out with ShowRefOutput refs => refs | _ => [] end
    /\ deletes tr = deletes evs
    /\ (forall msg, In msg (printed evs) -> In msg (printed tr))).
  { destruct (LoadAbsorbState_run env repo)
      as [[Hnil [m Hm]]|(path & file & Hone & Hact)].
    - rewrite Hnil in Htr'. rewrite Hm in *. subst tr.
      cbn [app activeRef listedRefs deletes].
      destruct (loopEvent_neutral _ _ evs post Hall) as [Ha _].
      rewrite Ha, Hpa, deletes_app, Hpd, app_nil_r.
      split; [reflexivity|]. split; [reflexivity|]. split; [reflexivity|].
      intros msg Hmsg. cbn [printed]. rewrite printed_app.
      apply in_or_app. left. exact Hmsg.
    - rewrite Hone in Htr'. subst tr. rewrite Hact.
      cbn [app activeRef listedRefs deletes].
      rewrite deletes_app, Hpd, app_nil_r.
      split; [reflexivity|]. split; [reflexivity|]. split; [reflexivity|].
      intros msg Hmsg. cbn [printed]. rewrite printed_app.
      apply in_or_app. left. exact Hmsg. }
  destruct Hshape as (Hact & Hlist & Hdels & Hprints).
  rewrite Hact, Hlist, Hdels.
  split.
  { intros refs0 Hin. apply refs_after_spec. rewrite Hdels.
    split; [exact Hin|]. intros Hd.
    destruct (loopEvent_deletes _ _ evs _ _ Hall Hd) as [Hne _].
    apply Hne. reflexivity. }
  split; [exact Hdel|].
  split.
  { intros refs0 r. rewrite refs_after_spec, Hdels. reflexivity. }
  intros r Hr. apply Hprints. apply Hwarn. exact Hr.
Qed.

Lemma cleanup_spares_active_witness :
  exists res tr,
    run cleanupEnv [] (runCleanupBackups sampleRepo) = (res, tr)
    /\ activeRef tr = BackupRef sampleState
    /\ listedRefs tr = [BackupRef sampleState; olderBackup]
    /\ deletes tr = [(olderBackup, true)]
    /\ (forall refs0 : gset string,
          activeRef tr ∈ refs0 -> activeRef tr ∈ refs_after tr refs0)
    /\ (forall r, In r (listedRefs tr) -> r <> activeRef tr ->
        exists ok, In (r, ok) (deletes tr))
    /\ (forall (refs0 : gset string) r,
          r ∈ refs_after tr refs0 <-> r ∈ refs0 /\ ~ In (r, true) (deletes tr))
    /\ (forall r, In (r, false) (deletes tr) ->
        In ("Failed to delete ref " +:+ r) (printed tr)).
Proof.
  eexists _, _. split; [vm_compute; reflexivity|].
  split; [vm_compute; reflexivity|].
  split; [vm_compute; reflexivity|].
  split; [vm_compute; reflexivity|].
  eapply (cleanup_spares_active cleanupEnv sampleRepo).
  vm_compute. reflexivity.
Defined.

(** Given a listing, a listed reference can outlive the cleanup: when the
    deletion of a reference that is not the active one fails, the cleanup
    prints a warning and goes on, and that reference is still there
    afterwards. *)
Lemma failed_deletion_leaves_backup :
  ~ (forall env repo,
       backupsExclusive (snd (run env [] (runCleanupBackups repo)))).
Proof.
  intros H. specialize (H deleteFailsEnv sampleRepo).
  remember (snd (run deleteFailsEnv [] (runCleanupBackups sampleRepo)))
    as tr eqn:Htr.
  assert (Hact : activeRef tr = BackupRef sampleState)
    by (rewrite Htr; vm_compute; reflexivity).
  assert (Hlist : listedRefs tr = [BackupRef sampleState; olderBackup])
    by (rewrite Htr; vm_compute; reflexivity).
  assert (Hdel : deletes tr = [(olderBackup, false)])
    by (rewrite Htr; vm_compute; reflexivity).
  destruct H as [_ H]. specialize (H olderBackup).
  rewrite Hlist, Hact in H.
  apply H.
  - set_solver.
  - discriminate.
  - apply refs_after_spec. rewrite Hdel. split; [set_solver|].
    intros [Heq|[]]. discriminate Heq.
Qed.

(** The run in that environment: the active backup is skipped, the older
    one survives its failed deletion. *)
Lemma failed_deletion_run :
  run deleteFailsEnv [] (runCleanupBackups sampleRepo)
  = (Ok tt,
     [ Ev (OsOpen "/work/repo/.git/cmt/absorb-undo")
          (FileContent (renderAbsorbState sampleState));
       Ev GitShowRef (ShowRefOutput [BackupRef sampleState; olderBackup]);
       Ev (Print "Skipping active backup: absorb-1700000000") tt;
       Ev (GitUpdateRefDelete olderBackup) false;
       Ev (Print ("Failed to delete ref " +:+ olderBackup)) tt;
       Ev (Print "No backups were deleted (all are active or failed to delete).") tt ]).
Proof. vm_compute. reflexivity. Qed.

(** ** Cleaning up backups: what git lists *)

(** The cleanup deletes listed references only. *)
Lemma cleanup_deletes_listed (env : Env) (repo : Repository) (r : string)
  (ok : bool) :
  In (r, ok) (deletes (snd (run env [] (runCleanupBackups repo)))) ->
  In r (listedRefs (snd (run env [] (runCleanupBackups repo)))).
Proof.
  unfold runCleanupBackups. rewrite run_bind.
  destruct (listing_run env
              (match fst (run env [] (LoadAbsorbState repo)) with
               | Ok state => BackupRef state
               | _ => EmptyString
               end)
              (snd (run env [] (LoadAbsorbState repo))))
    as (out & evs & post & -> & Hall & Hpost & _ & _).
  destruct (prints_neutral post Hpost) as (Hpd & _ & _).
  assert (Hload : deletes (snd (run env [] (LoadAbsorbState repo))) = []
                  /\ forall rest,
                       listedRefs (snd (run env [] (LoadAbsorbState repo)) ++ rest)
                       = listedRefs rest).
  { destruct (LoadAbsorbState_run env repo)
      as [[-> _]|(path & file & -> & _)]; split; reflexivity. }
  destruct Hload as [Hld Hll].
  rewrite deletes_app, Hld, Hll. cbn [app deletes listedRefs].
  rewrite deletes_app, Hpd, app_nil_r. intros Hin.
  destruct (loopEvent_deletes _ _ evs r ok Hall Hin) as [_ Hr]. exact Hr.
Qed.

(** What [git show-ref --heads] lists is under [refs/heads/]. *)
Lemma gitShowRefHeads_heads (refs : list string) (pattern r : string) :
  In r (match gitShowRefHeads refs pattern with
        | ShowRefOutput listed => listed
        | _ => []
        end) ->
  HasPrefix r "refs/heads/" = true.
Proof.
  unfold gitShowRefHeads.
  destruct (List.filter _ refs) as [|r0 l] eqn:E; [intros []|].
  intros Hin. rewrite <- E in Hin. apply List.filter_In in Hin as [_ H].
  apply andb_true_iff in H as [H _]. exact H.
Qed.

Lemma run_answered {A : Type} (env : Env) (p : Prog A) (hist : list Event) :
  Forall (answered env) hist -> Forall (answered env) (snd (run env hist p)).
Proof.
  revert hist. induction p as [a|X e k IH]; intros hist H; [exact H|].
  cbn [run]. apply IH. apply Forall_app. split; [exact H|].
  constructor; [exists hist; reflexivity | constructor].
Qed.

Lemma listed_under_heads (refs : list string) (file : FileRead)
  (tr : list Event) (r : string) :
  Forall (answered (repositoryEnv refs file)) tr ->
  In r (listedRefs tr) -> HasPrefix r "refs/heads/" = true.
Proof.
  induction 1 as [|[X e x] tr Hev _ IH]; [intros []|].
  destruct e; cbn [listedRefs]; try exact IH.
  destruct Hev as [hist ->]. cbn [repositoryEnv].
  apply gitShowRefHeads_heads.
Qed.

(** In any repository the cleanup deletes nothing outside [refs/heads/]:
    no reference of the backup namespace [refs/cmt-backup/] is ever
    deleted by it. *)
Lemma cleanup_deletes_under_heads (refs : list string) (file : FileRead)
  (repo : Repository) :
  forallb (fun d : string * bool => HasPrefix (fst d) "refs/heads/")
    (deletes (snd (run (repositoryEnv refs file) [] (runCleanupBackups repo))))
  = true.
Proof.
  apply forallb_forall. intros [r ok] Hin. cbn [fst].
  apply cleanup_deletes_listed in Hin.
  apply (listed_under_heads refs file
           (snd (run (repositoryEnv refs file) [] (runCleanupBackups repo))) r);
    [|exact Hin].
  apply run_answered. constructor.
Qed.

(** C7 (the code at the failing input). In a repository whose backup
    namespace holds the backup of the state record and an older backup,
    [git show-ref --heads refs/cmt-backup/] lists nothing, since [--heads]
    keeps to [refs/heads/]: [runCleanupBackups] prints that there is
    nothing to clean up, deletes nothing and returns without error, and
    the older backup, which is not the active one, is still there. *)
Theorem cleanup_finds_no_backup :
  exists tr,
    run backupsEnv [] (runCleanupBackups sampleRepo) = (Ok tt, tr)
    /\ activeRef tr = BackupRef sampleState
    /\ listedRefs tr = []
    /\ printed tr = ["No backups to clean up."]
    /\ deletes tr = []
    /\ olderBackup <> activeRef tr
    /\ olderBackup ∈ refs_after tr {[BackupRef sampleState; olderBackup]}
    /\ ~ namespaceExclusive {[BackupRef sampleState; olderBackup]} tr.
Proof.
  eexists. split; [vm_compute; reflexivity|].
  split; [vm_compute; reflexivity|]. split; [vm_compute; reflexivity|].
  split; [vm_compute; reflexivity|]. split; [vm_compute; reflexivity|].
  assert (Hne : olderBackup <> BackupRef sampleState) by discriminate.
  split; [exact Hne|].
  assert (Hin : olderBackup ∈ ({[BackupRef sampleState; olderBackup]} : gset string))
    by set_solver.
  split.
  - apply refs_after_spec. split; [exact Hin | intros []].
  - intros [_ H]. apply (H olderBackup Hin Hne).
    apply refs_after_spec. split; [exact Hin | intros []].
Qed.

(** ** The oracle client: the indices behind a response *)

Lemma hunkAt_valid (hs : list Hunk) (idx : Z) :
  validIndex hs idx -> hunkAt hs idx = hs !! Z.to_nat idx /\ is_Some (hunkAt hs idx).
Proof.
  intros [Hlo Hhi]. unfold hunkAt.
  replace (idx <? 0) with false by (symmetry; apply Z.ltb_ge; lia).
  replace (Z.of_nat (length hs) <=? idx) with false
    by (symmetry; apply Z.leb_gt; lia).
  cbn [orb]. split; [reflexivity|].
  apply lookup_lt_is_Some. lia.
Qed.

Lemma hunkAt_Some_valid (hs : list Hunk) (idx : Z) (h : Hunk) :
  hunkAt hs idx = Some h -> validIndex hs idx.
Proof.
  unfold hunkAt, validIndex.
  destruct (Z.ltb_spec idx 0); [discriminate|].
  destruct (Z.leb_spec (Z.of_nat (length hs)) idx); [discriminate|].
  intros _. lia.
Qed.

Lemma hunkAt_None_invalid (hs : list Hunk) (idx : Z) :
  hunkAt hs idx = None -> ~ validIndex hs idx.
Proof.
  intros Hnone Hv. destruct (hunkAt_valid hs idx Hv) as [_ [h Hh]].
  congruence.
Qed.

Lemma assignedIndices_snoc (hs : list Hunk) (pre : list jsonAssignment)
  (e : jsonAssignment) :
  assignedIndices hs (pre ++ [e])
  = assignedIndices hs pre
    ++ (if decide (validIndex hs (js_HunkIndex e)) then [js_HunkIndex e] else []).
Proof.
  unfold assignedIndices. rewrite map_app, filter_app. cbn [map].
  rewrite filter_cons, filter_nil. reflexivity.
Qed.

Lemma hunksAt_snoc (hs : list Hunk) (idxs : list Z) (idx : Z) (h : Hunk) :
  hunkAt hs idx = Some h -> hunksAt hs (idxs ++ [idx]) = hunksAt hs idxs ++ [h].
Proof.
  intros Hh. unfold hunksAt. rewrite omap_app. cbn. rewrite Hh. reflexivity.
Qed.

Lemma wasAssigned_insert (m : gmap Z bool) (idx j : Z) :
  wasAssigned (<[idx := true]> m) j = true <-> j = idx \/ wasAssigned m j = true.
Proof.
  unfold wasAssigned. destruct (decide (idx = j)) as [->|Hne].
  - rewrite lookup_insert_eq. cbn. tauto.
  - rewrite lookup_insert_ne by exact Hne. split; [tauto|].
    intros [->|H]; [congruence | exact H].
Qed.

Lemma processAssignment_inv (req : AbsorbRequest) (pre : list jsonAssignment)
  (st st' : PostState) (e : jsonAssignment) :
  postInv req pre st -> processAssignment req st e = Ok st' ->
  postInv req (pre ++ [e]) st'.
Proof.
  intros (ai & ui & HA & HU & Hperm & Hmarks) H.
  unfold processAssignment in H. unfold postInv.
  rewrite assignedIndices_snoc.
  destruct (hunkAt (req_Hunks req) (js_HunkIndex e)) as [hunk|] eqn:Hat.
  - pose proof (hunkAt_Some_valid _ _ _ Hat) as Hv.
    destruct (decide (validIndex (req_Hunks req) (js_HunkIndex e))); [|tauto].
    destruct (resolveCommit _ _) as [[sha msg]| |]; try discriminate H.
    destruct (processAlternatives _ _) as [alts| |]; try discriminate H.
    assert (Hmarks' : forall idx,
              wasAssigned (<[js_HunkIndex e := true]> (assignedHunks st)) idx = true
              <-> idx ∈ assignedIndices (req_Hunks req) pre ++ [js_HunkIndex e]).
    { intros idx. rewrite wasAssigned_insert, elem_of_app, list_elem_of_singleton.
      rewrite Hmarks. tauto. }
    destruct (String.eqb _ _ && Qltb _ _); injection H as <-;
      cbn [ps_Assignments ps_Unmatched assignedHunks].
    + exists ai, (ui ++ [js_HunkIndex e]).
      split; [exact HA|]. split; [rewrite HU; symmetry; apply hunksAt_snoc; exact Hat|].
      split; [rewrite app_assoc, Hperm; reflexivity | exact Hmarks'].
    + exists (ai ++ [js_HunkIndex e]), ui.
      split.
      { rewrite map_app, HA. cbn. symmetry. apply hunksAt_snoc. exact Hat. }
      split; [exact HU|].
      split; [|exact Hmarks'].
      rewrite <- Hperm, <- !app_assoc. apply Permutation_app_head.
      apply Permutation_app_comm.
  - pose proof (hunkAt_None_invalid _ _ Hat) as Hv.
    destruct (decide (validIndex (req_Hunks req) (js_HunkIndex e))); [tauto|].
    injection H as <-. rewrite app_nil_r.
    exists ai, ui. repeat split; try assumption; apply Hmarks.
Qed.

Lemma processAssignments_inv (req : AbsorbRequest) (l pre : list jsonAssignment)
  (st st' : PostState) :
  postInv req pre st -> processAssignments req st l = Ok st' ->
  postInv req (pre ++ l) st'.
Proof.
  revert pre st. induction l as [|e rest IH]; intros pre st Hinv H; cbn in H.
  - injection H as <-. rewrite app_nil_r. exact Hinv.
  - destruct (processAssignment req st e) as [st1| |] eqn:Hstep;
      try discriminate H.
    replace (pre ++ e :: rest) with ((pre ++ [e]) ++ rest)
      by (rewrite <- app_assoc; reflexivity).
    apply (IH _ st1); [|exact H].
    apply (processAssignment_inv req pre st st1 e Hinv Hstep).
Qed.

Lemma fold_processUnmatched (req : AbsorbRequest) (m : gmap Z bool)
  (assigned : list Z) (l : list Z) (U : list Hunk) :
  (forall idx, wasAssigned m idx = true <-> idx ∈ assigned) ->
  fold_left (processUnmatched req m) l U
  = U ++ hunksAt (req_Hunks req) (unmatchedIndices (req_Hunks req) assigned l).
Proof.
  intros Hmarks. revert U. induction l as [|idx rest IH]; intros U.
  - cbn. rewrite app_nil_r. reflexivity.
  - cbn [fold_left]. rewrite IH. unfold unmatchedIndices, processUnmatched.
    rewrite filter_cons.
    destruct (hunkAt (req_Hunks req) idx) as [hunk|] eqn:Hat.
    + pose proof (hunkAt_Some_valid _ _ _ Hat) as Hv.
      destruct (wasAssigned m idx) eqn:Hw.
      * apply Hmarks in Hw.
        destruct (decide (validIndex (req_Hunks req) idx /\ (idx ∉ assigned)));
          [tauto | reflexivity].
      * assert (idx ∉ assigned) by (intros Hin; apply Hmarks in Hin; congruence).
        destruct (decide (validIndex (req_Hunks req) idx /\ (idx ∉ assigned)));
          [|tauto].
        unfold hunksAt. cbn [omap list_omap]. rewrite Hat, <- app_assoc.
        reflexivity.
    + pose proof (hunkAt_None_invalid _ _ Hat) as Hv.
      destruct (decide (validIndex (req_Hunks req) idx /\ (idx ∉ assigned)));
        [tauto | reflexivity].
Qed.

Lemma existsb_elem_of (i : Z) (l : list Z) :
  existsb (Z.eqb i) l = true <-> i ∈ l.
Proof.
  rewrite existsb_exists, list_elem_of_In. split.
  - intros (x & Hin & Heq). apply Z.eqb_eq in Heq. subst. exact Hin.
  - intros Hin. exists i. split; [exact Hin | apply Z.eqb_refl].
Qed.

Lemma closeUnmentioned_spec (hs : list Hunk) (m : gmap Z bool)
  (assigned mentioned : list Z) (rest : list Hunk) (i : Z) (U : list Hunk) :
  (forall idx, wasAssigned m idx = true <-> idx ∈ assigned) ->
  (forall (k : nat) h, rest !! k = Some h -> hunkAt hs (i + Z.of_nat k) = Some h) ->
  closeUnmentioned m mentioned i rest U
  = U ++ hunksAt hs (unmentionedIndices assigned mentioned i
                       (Z.of_nat (length rest))).
Proof.
  intros Hmarks. revert i U. induction rest as [|hunk rest IH]; intros i U Hat.
  - cbn. rewrite app_nil_r. reflexivity.
  - cbn [closeUnmentioned]. rewrite IH.
    2: { intros k h Hk. replace (i + 1 + Z.of_nat k) with (i + Z.of_nat (S k)) by lia.
         apply Hat. exact Hk. }
    unfold unmentionedIndices.
    rewrite (seqZ_cons i (Z.of_nat (length (hunk :: rest)))) by (cbn [length]; lia).
    replace (Z.pred (Z.of_nat (length (hunk :: rest))))
      with (Z.of_nat (length rest)) by (cbn [length]; lia).
    replace (Z.succ i) with (i + 1) by lia.
    rewrite filter_cons.
    specialize (Hat 0%nat hunk eq_refl). rewrite Z.add_0_r in Hat.
    destruct (wasAssigned m i) eqn:Hw; cbn [negb andb].
    + apply Hmarks in Hw.
      destruct (decide ((i ∉ assigned) /\ (i ∉ mentioned))); [tauto | reflexivity].
    + assert (i ∉ assigned) by (intros Hin; apply Hmarks in Hin; congruence).
      destruct (existsb (Z.eqb i) mentioned) eqn:Hex; cbn [negb].
      * apply existsb_elem_of in Hex.
        destruct (decide ((i ∉ assigned) /\ (i ∉ mentioned))); [tauto | reflexivity].
      * assert (i ∉ mentioned).
        { intros Hin. apply existsb_elem_of in Hin. congruence. }
        destruct (decide ((i ∉ assigned) /\ (i ∉ mentioned))); [|tauto].
        unfold hunksAt. cbn [omap list_omap]. rewrite Hat, <- app_assoc.
        reflexivity.
Qed.

Lemma hunksAt_all (hs rest : list Hunk) (i : Z) :
  (forall (k : nat) h, rest !! k = Some h -> hunkAt hs (i + Z.of_nat k) = Some h) ->
  hunksAt hs (seqZ i (Z.of_nat (length rest))) = rest.
Proof.
  revert i. induction rest as [|hunk rest IH]; intros i Hat.
  - reflexivity.
  - rewrite (seqZ_cons i) by (cbn [length]; lia).
    replace (Z.pred (Z.of_nat (length (hunk :: rest))))
      with (Z.of_nat (length rest)) by (cbn [length]; lia).
    unfold hunksAt in *. cbn [omap list_omap].
    pose proof (Hat 0%nat hunk eq_refl) as H0. rewrite Z.add_0_r in H0.
    rewrite H0. f_equal. apply IH.
    intros k h Hk. replace (Z.succ i + Z.of_nat k) with (i + Z.of_nat (S k)) by lia.
    apply Hat. exact Hk.
Qed.

Lemma hunkAt_lookup (hs : list Hunk) (k : nat) (h : Hunk) :
  hs !! k = Some h -> hunkAt hs (0 + Z.of_nat k) = Some h.
Proof.
  intros Hk. assert (Hv : validIndex hs (0 + Z.of_nat k)).
  { apply lookup_lt_Some in Hk. unfold validIndex. lia. }
  destruct (hunkAt_valid hs _ Hv) as [-> _].
  rewrite Z.add_0_l, Nat2Z.id. exact Hk.
Qed.

(** The hunks a response places, in both lists together, are the hunks at
    these indices: those in range that the oracle's assignments name (once
    per entry), then those in range of its unmatched list that no
    assignment names (once per occurrence), then those named nowhere. *)
Lemma placed_hunks (doc : absorbJSONResponse) (req : AbsorbRequest)
  (resp : AbsorbResponse) :
  parseAbsorbResponse doc req = Ok resp ->
  map ha_Hunk (Assignments resp) ++ UnmatchedHunks resp
  ≡ₚ hunksAt (req_Hunks req)
       (assignedIndices (req_Hunks req) (json_Assignments doc)
        ++ unmatchedIndices (req_Hunks req)
             (assignedIndices (req_Hunks req) (json_Assignments doc))
             (json_UnmatchedHunks doc)
        ++ unmentionedIndices
             (assignedIndices (req_Hunks req) (json_Assignments doc))
             (json_UnmatchedHunks doc) 0 (Z.of_nat (length (req_Hunks req)))).
Proof.
  intros H. unfold parseAbsorbResponse in H.
  destruct (processAssignments req _ (json_Assignments doc)) as [st| |] eqn:Hloop;
    try discriminate H.
  injection H as <-. cbn [Assignments UnmatchedHunks].
  assert (Hinv : postInv req ([] ++ json_Assignments doc) st).
  { apply (processAssignments_inv req _ [] (mkPostState [] [] ∅) st); [|exact Hloop].
    exists [], []. repeat split; try reflexivity.
    - intros Hw. discriminate Hw.
    - intros Hin. apply elem_of_nil in Hin. destruct Hin. }
  cbn [app] in Hinv. destruct Hinv as (ai & ui & HA & HU & Hperm & Hmarks).
  rewrite (closeUnmentioned_spec (req_Hunks req) _ _ _ _ _ _ Hmarks
             (hunkAt_lookup (req_Hunks req))).
  rewrite (fold_processUnmatched req _ _ _ _ Hmarks).
  rewrite HA, HU. unfold hunksAt. rewrite <- !omap_app, !app_assoc.
  rewrite Hperm. reflexivity.
Qed.

Lemma elem_of_hunksAt (hs : list Hunk) (idxs : list Z) (idx : Z) (h : Hunk) :
  idx ∈ idxs -> hunkAt hs idx = Some h -> h ∈ hunksAt hs idxs.
Proof.
  intros Hin Hat. unfold hunksAt. apply list_elem_of_omap.
  exists idx. split; assumption.
Qed.

(** X9. Never in neither: whatever the oracle's document, every submitted hunk
    is in the assignments or in the unmatched list of the response. *)
Lemma every_hunk_placed (doc : absorbJSONResponse) (req : AbsorbRequest)
  (resp : AbsorbResponse) (i : nat) (h : Hunk) :
  parseAbsorbResponse doc req = Ok resp ->
  req_Hunks req !! i = Some h ->
  h ∈ map ha_Hunk (Assignments resp) ++ UnmatchedHunks resp.
Proof.
  intros Hparse Hi. rewrite (placed_hunks doc req resp Hparse).
  pose proof (hunkAt_lookup _ _ _ Hi) as Hat. rewrite Z.add_0_l in Hat.
  pose proof (hunkAt_Some_valid _ _ _ Hat) as Hv.
  apply (elem_of_hunksAt _ _ (Z.of_nat i) h); [|exact Hat].
  set (V := assignedIndices (req_Hunks req) (json_Assignments doc)).
  destruct (decide (Z.of_nat i ∈ V)) as [HV|HV].
  - apply elem_of_app. left. exact HV.
  - apply elem_of_app. right. apply elem_of_app.
    destruct (decide (Z.of_nat i ∈ json_UnmatchedHunks doc)) as [HU|HU].
    + left. unfold unmatchedIndices. apply list_elem_of_filter. tauto.
    + right. unfold unmentionedIndices. apply list_elem_of_filter.
      split; [tauto|]. apply elem_of_seqZ. unfold validIndex in Hv. lia.
Qed.

(** X10. When no hunk index in range is named by two of the oracle's
    assignments, and none that no assignment names is listed twice as
    unmatched, the response is a partition of the submitted hunks: its
    assigned hunks and its unmatched hunks together are the submitted
    hunks, each once. *)
Lemma partition_without_repeats (doc : absorbJSONResponse)
  (req : AbsorbRequest) (resp : AbsorbResponse) :
  parseAbsorbResponse doc req = Ok resp ->
  NoDup (assignedIndices (req_Hunks req) (json_Assignments doc)) ->
  NoDup (unmatchedIndices (req_Hunks req)
           (assignedIndices (req_Hunks req) (json_Assignments doc))
           (json_UnmatchedHunks doc)) ->
  map ha_Hunk (Assignments resp) ++ UnmatchedHunks resp ≡ₚ req_Hunks req.
Proof.
  intros Hparse HV HU. rewrite (placed_hunks doc req resp Hparse).
  set (hs := req_Hunks req) in *.
  set (V := assignedIndices hs (json_Assignments doc)) in *.
  set (U2 := unmatchedIndices hs V (json_UnmatchedHunks doc)) in *.
  set (U3 := unmentionedIndices V (json_UnmatchedHunks doc) 0
               (Z.of_nat (length hs))).
  assert (Hperm : V ++ U2 ++ U3 ≡ₚ seqZ 0 (Z.of_nat (length hs))).
  { apply NoDup_Permutation.
    - apply NoDup_app. split; [exact HV|]. split.
      + intros x Hx Hin. apply elem_of_app in Hin as [Hin|Hin].
        * apply list_elem_of_filter in Hin. tauto.
        * apply list_elem_of_filter in Hin. tauto.
      + apply NoDup_app. split; [exact HU|]. split.
        * intros x Hx Hin. apply list_elem_of_filter in Hx.
          apply list_elem_of_filter in Hin. tauto.
        * apply NoDup_filter, NoDup_seqZ.
    - apply NoDup_seqZ.
    - intros x. rewrite !elem_of_app, elem_of_seqZ. split.
      + intros [Hx|[Hx|Hx]].
        * apply list_elem_of_filter in Hx as [Hv _]. unfold validIndex in Hv. lia.
        * apply list_elem_of_filter in Hx as [[Hv _] _].
          unfold validIndex in Hv. lia.
        * apply list_elem_of_filter in Hx as [_ Hx].
          apply elem_of_seqZ in Hx. lia.
      + intros Hx. destruct (decide (x ∈ V)) as [Hin|Hin]; [left; exact Hin|].
        right. destruct (decide (x ∈ json_UnmatchedHunks doc)) as [Hm|Hm].
        * left. apply list_elem_of_filter. unfold validIndex.
          split; [split; [lia | exact Hin] | exact Hm].
        * right. apply list_elem_of_filter.
          split; [tauto | apply elem_of_seqZ; lia]. }
  unfold hunksAt. rewrite Hperm.
  pose proof (hunksAt_all hs hs 0 (hunkAt_lookup hs)) as Hall.
  unfold hunksAt in Hall. rewrite Hall. reflexivity.
Qed.

(** ** The oracle client: demotion in best-match mode *)

Lemma processUnmatched_grows (req : AbsorbRequest) (m : gmap Z bool)
  (l : list Z) (U : list Hunk) (h : Hunk) :
  In h U -> In h (fold_left (processUnmatched req m) l U).
Proof.
  revert U. induction l as [|idx rest IH]; intros U Hin; [exact Hin|].
  cbn [fold_left]. apply IH. unfold processUnmatched.
  destruct (hunkAt _ idx); [|exact Hin].
  destruct (wasAssigned m idx); [exact Hin|].
  apply in_or_app. left. exact Hin.
Qed.

Lemma closeUnmentioned_grows (m : gmap Z bool) (mentioned : list Z)
  (rest : list Hunk) (i : Z) (U : list Hunk) (h : Hunk) :
  In h U -> In h (closeUnmentioned m mentioned i rest U).
Proof.
  revert i U. induction rest as [|hunk rest IH]; intros i U Hin; [exact Hin|].
  cbn [closeUnmentioned]. apply IH.
  destruct (_ && _); [apply in_or_app; left|]; exact Hin.
Qed.

Lemma processAssignment_demotes (req : AbsorbRequest) (st st' : PostState)
  (e : jsonAssignment) :
  req_Strategy req = "best-match" ->
  processAssignment req st e = Ok st' ->
  (forall h, In h (ps_Unmatched st) -> In h (ps_Unmatched st'))
  /\ (Forall (fun a => Qltb (ha_Confidence a) (req_ConfidenceThreshold req) = false)
        (ps_Assignments st) ->
      Forall (fun a => Qltb (ha_Confidence a) (req_ConfidenceThreshold req) = false)
        (ps_Assignments st'))
  /\ (forall h, hunkAt (req_Hunks req) (js_HunkIndex e) = Some h ->
        Qltb (js_Confidence e) (req_ConfidenceThreshold req) = true ->
        In h (ps_Unmatched st')).
Proof.
  intros Hmode H. unfold processAssignment in H. rewrite Hmode in H.
  change (String.eqb "best-match" "best-match") with true in H.
  cbn [andb] in H.
  destruct (hunkAt (req_Hunks req) (js_HunkIndex e)) as [hunk|].
  - destruct (resolveCommit _ _) as [[sha msg]| |]; try discriminate H.
    destruct (processAlternatives _ _) as [alts| |]; try discriminate H.
    destruct (Qltb (js_Confidence e) (req_ConfidenceThreshold req)) eqn:Hlow;
      injection H as <-; cbn [ps_Unmatched ps_Assignments].
    + split; [intros h Hin; apply in_or_app; left; exact Hin|].
      split; [tauto|].
      intros h [= <-] _. apply in_or_app. right. left. reflexivity.
    + split; [tauto|]. split; [|intros h _ Hc; discriminate Hc].
      intros Hall. apply Forall_app. split; [exact Hall|].
      constructor; [exact Hlow | constructor].
  - injection H as <-. split; [tauto|]. split; [tauto|].
    intros h Hh. discriminate Hh.
Qed.

Lemma processAssignments_demotes (req : AbsorbRequest)
  (l : list jsonAssignment) (st st' : PostState) :
  req_Strategy req = "best-match" ->
  processAssignments req st l = Ok st' ->
  (forall h, In h (ps_Unmatched st) -> In h (ps_Unmatched st'))
  /\ (Forall (fun a => Qltb (ha_Confidence a) (req_ConfidenceThreshold req) = false)
        (ps_Assignments st) ->
      Forall (fun a => Qltb (ha_Confidence a) (req_ConfidenceThreshold req) = false)
        (ps_Assignments st'))
  /\ (forall e h, In e l ->
        hunkAt (req_Hunks req) (js_HunkIndex e) = Some h ->
        Qltb (js_Confidence e) (req_ConfidenceThreshold req) = true ->
        In h (ps_Unmatched st')).
Proof.
  intros Hmode. revert st. induction l as [|e0 rest IH]; intros st H; cbn in H.
  - injection H as <-. split; [tauto|]. split; [tauto|]. intros e h [].
  - destruct (processAssignment req st e0) as [st1| |] eqn:Hstep;
      try discriminate H.
    destruct (processAssignment_demotes req st st1 e0 Hmode Hstep)
      as (Hgrow1 & Hkeep1 & Hdem1).
    destruct (IH st1 H) as (Hgrow & Hkeep & Hdem).
    split; [intros h Hin; apply Hgrow, Hgrow1, Hin|].
    split; [intros Hall; apply Hkeep, Hkeep1, Hall|].
    intros e h [<-|Hin] Hat Hlow.
    + apply Hgrow. apply (Hdem1 h Hat Hlow).
    + apply (Hdem e h Hin Hat Hlow).
Qed.

(** X11. In best-match mode every proposal of the oracle for a hunk in range
    whose confidence is below the threshold has its hunk in the unmatched
    list, and no assignment of the response has a confidence below the
    threshold: the proposal itself is not among the assignments. (Another
    proposal for the same hunk can be.) *)
Lemma best_match_demotes (doc : absorbJSONResponse) (req : AbsorbRequest)
  (resp : AbsorbResponse) (e : jsonAssignment) (h : Hunk) :
  parseAbsorbResponse doc req = Ok resp ->
  req_Strategy req = "best-match" ->
  In e (json_Assignments doc) ->
  hunkAt (req_Hunks req) (js_HunkIndex e) = Some h ->
  Qltb (js_Confidence e) (req_ConfidenceThreshold req) = true ->
  In h (UnmatchedHunks resp)
  /\ Forall (fun a => Qltb (ha_Confidence a) (req_ConfidenceThreshold req) = false)
       (Assignments resp).
Proof.
  intros H Hmode Hin Hat Hlow. unfold parseAbsorbResponse in H.
  destruct (processAssignments req _ (json_Assignments doc)) as [st| |] eqn:Hloop;
    try discriminate H.
  injection H as <-. cbn [Assignments UnmatchedHunks].
  destruct (processAssignments_demotes req _ _ st Hmode Hloop)
    as (_ & Hkeep & Hdem).
  split.
  - apply closeUnmentioned_grows, processUnmatched_grows.
    apply (Hdem e h Hin Hat Hlow).
  - apply Hkeep. constructor.
Qed.

(** ** The review state: what unassign does to the model *)

Lemma removeAt_elems {A : Type} (i : nat) (s : Slice A) :
  (i < len s)%nat -> (len s <= length (array s))%nat ->
  elems (removeAt i s) = take i (elems s) ++ drop (S i) (elems s).
Proof.
  intros Hi Hlen. unfold elems, removeAt. cbn [array len].
  rewrite take_take, List.skipn_firstn_comm.
  replace (i `min` len s)%nat with i by lia.
  replace (len s - S i)%nat with (len s - (i + 1))%nat by lia.
  replace (S i) with (i + 1)%nat by lia.
  rewrite app_assoc. apply take_app_length'.
  rewrite length_app, !length_take, length_drop. lia.
Qed.

(** X15. In the model itself the unassignment is what it should be: the current
    assignment leaves the assignments, the others keep their order and
    their fields, and its hunk is added after the unmatched hunks. Only
    [GetResult] does not hand this out. *)
Lemma unassign_view (m m' : AbsorbReviewModel) (i : nat) (a : HunkAssignment) :
  currentIndex m = Z.of_nat i ->
  elems (assignments m) !! i = Some a ->
  (len (assignments m) <= length (array (assignments m)))%nat ->
  unassign m = Ok m' ->
  elems (assignments m')
  = take i (elems (assignments m)) ++ drop (S i) (elems (assignments m))
  /\ unmatched m' = unmatched m ++ [ha_Hunk a].
Proof.
  intros Hidx Ha Hlen H.
  assert (Hi : (i < len (assignments m))%nat).
  { apply lookup_lt_Some in Ha. unfold elems in Ha.
    rewrite length_take in Ha. lia. }
  unfold unassign, assignmentAt in H. rewrite Hidx in H.
  replace (Z.of_nat i <? Z.of_nat (len (assignments m))) with true in H
    by (symmetry; apply Z.ltb_lt; lia).
  replace (Z.of_nat i <? 0) with false in H by (symmetry; apply Z.ltb_ge; lia).
  rewrite Nat2Z.id, Ha in H. injection H as <-.
  cbn [assignments unmatched]. split; [|reflexivity].
  apply removeAt_elems; assumption.
Qed.

Lemma unassign_view_witness :
  exists m',
    unassign (NewAbsorbReviewModel reviewedResponse [commit1; commit2]) = Ok m'
    /\ elems (assignments m') = [assignmentB]
    /\ unmatched m' = [hunkU; hunkA].
Proof.
  eexists. split; [reflexivity|].
  apply (unassign_view (NewAbsorbReviewModel reviewedResponse [commit1; commit2])
           _ 0%nat assignmentA);
    [reflexivity | reflexivity | simpl; lia | reflexivity].
Defined.

(** ** Further runs *)

(** A body line of no group (here the marker of a missing final newline)
    is in [Lines] and in [Content] only, so it is not rebuilt. *)
Lemma parser_marker_line_run :
  SplitDiffIntoHunks diffWithMarker = Ok [hunkWithMarker]
  /\ Lines hunkWithMarker = ["-a"; "+b"; "\ No newline at end of file"]
  /\ reconstruct hunkWithMarker = ["-a"; "+b"]
  /\ contiguous_body (Lines hunkWithMarker) = false.
Proof. repeat split; vm_compute; reflexivity. Qed.

(** A commit identifier shorter than eight bytes makes
    [parseAbsorbResponse] panic on [CommitSHA[:8]]: no response is
    produced. *)
Lemma short_sha_panics :
  parseAbsorbResponse shortShaDocument interactiveRequest = Panic.
Proof. vm_compute. reflexivity. Qed.

(** ** The diff parser on the text git prints *)

Lemma HasPrefix_Contains (s p : string) :
  HasPrefix s p = true -> Contains s p = true.
Proof. intros H. unfold Contains. destruct s; cbn [Index]; rewrite H; reflexivity. Qed.

Lemma HasPrefix_app (p s : string) : HasPrefix (p +:+ s) p = true.
Proof.
  induction p as [|c p IH]; [destruct s; reflexivity|].
  change (String c p +:+ s) with (String c (p +:+ s)).
  simpl. rewrite Ascii.eqb_refl, IH. reflexivity.
Qed.


Lemma HasPrefix_nil (s : string) : HasPrefix s "" = true.
Proof. destruct s; reflexivity. Qed.

Lemma TrimPrefix_one (c : ascii) (s : string) :
  TrimPrefix (String c s) (String c "") = s.
Proof.
  unfold TrimPrefix. cbn [HasPrefix].
  rewrite Ascii.eqb_refl, HasPrefix_nil. reflexivity.
Qed.

Lemma str_app_nil_r (s : string) : s +:+ "" = s.
Proof.
  induction s as [|c s IH]; [reflexivity|].
  change (String c s +:+ "") with (String c (s +:+ "")). rewrite IH. reflexivity.
Qed.

Lemma Split_nosep (s : string) (sep : ascii) :
  has_byte sep s = false -> Split s sep = [s].
Proof.
  induction s as [|c s IH]; simpl; intros H; [reflexivity|].
  apply orb_false_iff in H as [Hc Hs]. rewrite Hc, (IH Hs). reflexivity.
Qed.

Lemma Split_app_sep (x y : string) (sep : ascii) :
  has_byte sep x = false ->
  Split (x +:+ String sep y) sep = x :: Split y sep.
Proof.
  induction x as [|c x IH]; intros H.
  - change ("" +:+ String sep y) with (String sep y). simpl.
    rewrite Ascii.eqb_refl. reflexivity.
  - change (String c x +:+ String sep y) with (String c (x +:+ String sep y)).
    simpl in H |- *. apply orb_false_iff in H as [Hc Hx].
    rewrite Hc, (IH Hx). reflexivity.
Qed.

Lemma rev_app_rev_app (a b c : string) :
  String.rev_app (String.rev_app a b) c = String.rev_app b (a +:+ c).
Proof.
  revert b c. induction a as [|x a IH]; intros b c; [reflexivity|].
  simpl. rewrite IH. reflexivity.
Qed.

Lemma rev_rev (s : string) : String.rev (String.rev s) = s.
Proof. unfold String.rev. rewrite rev_app_rev_app. simpl. apply str_app_nil_r. Qed.

Lemma rev_app_app (a b c : string) :
  String.rev_app (a +:+ b) c = String.rev_app b (String.rev_app a c).
Proof.
  revert c. induction a as [|x a IH]; intros c; [reflexivity|].
  change (String x a +:+ b) with (String x (a +:+ b)). simpl. apply IH.
Qed.

Lemma has_space_rev_app (a b : string) :
  has_space (String.rev_app a b) = has_space a || has_space b.
Proof.
  revert b. induction a as [|x a IH]; intros b; [reflexivity|].
  simpl. rewrite IH. simpl. destruct (Ascii.is_space x), (has_space a); reflexivity.
Qed.

Lemma rev_app_nonempty (a b : string) : a <> "" -> String.rev_app a b <> "".
Proof.
  revert b. induction a as [|x a IH]; intros b H; [congruence|].
  simpl. destruct a as [|y a']; [simpl; congruence|].
  apply IH. congruence.
Qed.

Lemma plain_app (a b : string) : plain (a +:+ b) = plain a && plain b.
Proof.
  induction a as [|c a IH]; [reflexivity|].
  change (String c a +:+ b) with (String c (a +:+ b)).
  cbn [plain]. rewrite IH. apply andb_assoc.
Qed.

Lemma TrimLeftSpace_word (w s : string) :
  w <> "" -> plain w = true -> TrimLeftSpace (w +:+ s) = w +:+ s.
Proof.
  intros Hw Hs. destruct w as [|c w]; [congruence|].
  change (String c w +:+ s) with (String c (w +:+ s)).
  cbn [plain] in Hs. apply andb_true_iff in Hs as [Hc _].
  destruct (plainByte_spec c Hc) as (Hsp & _ & H2 & H3 & _).
  apply trimLeftBy_plain; assumption.
Qed.

(** A word read backwards begins with a plain byte. *)
Lemma rev_app_plain_head (w acc : string) :
  w <> "" -> plain w = true ->
  exists c r, String.rev_app w acc = String c r /\ plainByte c = true.
Proof.
  revert acc. induction w as [|x w IH]; intros acc Hw Hp; [congruence|].
  cbn [plain] in Hp. apply andb_true_iff in Hp as [Hx Hp].
  cbn [String.rev_app]. destruct w as [|y w'].
  - exists x, acc. split; [reflexivity | exact Hx].
  - apply IH; [discriminate | exact Hp].
Qed.

Lemma rev_app_eq (a b : string) : String.rev_app a b = String.rev a +:+ b.
Proof.
  revert b. induction a as [|x a IH]; intros b; [reflexivity|].
  unfold String.rev. simpl. rewrite (IH (String x b)), (IH (String x "")).
  rewrite str_app_assoc. reflexivity.
Qed.

Lemma has_space_rev (s : string) : has_space (String.rev s) = has_space s.
Proof. unfold String.rev. rewrite has_space_rev_app. simpl. apply orb_false_r. Qed.

(** A text that ends with a word ends with no white space. *)
Lemma TrimRightSpace_word (s w : string) :
  w <> "" -> plain w = true -> TrimRightSpace (s +:+ w) = s +:+ w.
Proof.
  intros Hw Hp. unfold TrimRightSpace.
  assert (E : exists c r,
            String.rev (s +:+ w) = String c r /\ plainByte c = true).
  { unfold String.rev. rewrite rev_app_app.
    apply rev_app_plain_head; assumption. }
  destruct E as (c & r & E & Hc). rewrite E.
  destruct (plainByte_spec c Hc) as (Hsp & _ & _ & _ & H2 & H3).
  rewrite trimLeftBy_plain;
    [|exact Hsp | intros x; apply H2 | intros x y; apply H3].
  rewrite <- E. apply rev_rev.
Qed.

Lemma TrimRightSpace_blank (s : string) :
  TrimRightSpace (s +:+ " ") = TrimRightSpace s.
Proof.
  unfold TrimRightSpace. unfold String.rev at 2. rewrite rev_app_app.
  reflexivity.
Qed.

(** [TrimSpace] of a text between two blanks that starts and ends with a
    word. *)
Lemma TrimSpace_pad (w1 mid w2 : string) :
  w1 <> "" -> w2 <> "" -> plain w1 = true -> plain w2 = true ->
  TrimSpace (String " " (w1 +:+ mid +:+ w2 +:+ " ")) = w1 +:+ mid +:+ w2.
Proof.
  intros H1 H2 Hs1 Hs2. unfold TrimSpace.
  change (TrimLeftSpace (String " " (w1 +:+ mid +:+ w2 +:+ " ")))
    with (TrimLeftSpace (w1 +:+ mid +:+ w2 +:+ " ")).
  rewrite (TrimLeftSpace_word _ _ H1 Hs1).
  replace (w1 +:+ mid +:+ w2 +:+ " ") with ((w1 +:+ mid +:+ w2) +:+ " ")
    by (rewrite !str_app_assoc; reflexivity).
  rewrite TrimRightSpace_blank.
  replace (w1 +:+ mid +:+ w2) with ((w1 +:+ mid) +:+ w2)
    by (rewrite !str_app_assoc; reflexivity).
  apply TrimRightSpace_word; assumption.
Qed.

Lemma fieldsFrom_plain_byte (cur : string) (c : ascii) (r : string) :
  plainByte c = true ->
  fieldsFrom cur (String c r) = fieldsFrom (cur +:+ String c "") r.
Proof.
  intros Hc. destruct (plainByte_spec c Hc) as (Hsp & _ & H2 & H3 & _).
  cbn [fieldsFrom]. rewrite Hsp.
  destruct r as [|c2 [|c3 r3]]; rewrite ?H2, ?H3; reflexivity.
Qed.

Lemma fieldsFrom_word (cur w s : string) :
  plain w = true -> fieldsFrom cur (w +:+ s) = fieldsFrom (cur +:+ w) s.
Proof.
  revert cur. induction w as [|c w IH]; intros cur H.
  - rewrite str_app_nil_r. reflexivity.
  - cbn [plain] in H. apply andb_true_iff in H as [Hc Hw].
    change (String c w +:+ s) with (String c (w +:+ s)).
    rewrite (fieldsFrom_plain_byte _ _ _ Hc), (IH _ Hw), str_app_assoc.
    reflexivity.
Qed.

Lemma endField_word (w : string) : w <> "" -> endField w = [w].
Proof. intros H. destruct w; [congruence | reflexivity]. Qed.

(** [strings.Fields] of two words with one blank between them. *)
Lemma Fields_two (w1 w2 : string) :
  w1 <> "" -> w2 <> "" -> plain w1 = true -> plain w2 = true ->
  Fields (w1 +:+ String " " w2) = [w1; w2].
Proof.
  intros H1 H2 Hs1 Hs2. unfold Fields.
  rewrite (fieldsFrom_word _ _ _ Hs1).
  change ("" +:+ w1) with w1.
  change (fieldsFrom w1 (String " " w2))
    with (endField w1 ++ fieldsFrom "" w2).
  rewrite (endField_word _ H1).
  rewrite <- (str_app_nil_r w2) at 1.
  rewrite (fieldsFrom_word _ _ _ Hs2).
  change (fieldsFrom ("" +:+ w2) "") with (endField w2).
  rewrite (endField_word _ H2). reflexivity.
Qed.

Lemma has_space_app (a b : string) :
  has_space (a +:+ b) = has_space a || has_space b.
Proof.
  induction a as [|c a IH]; [reflexivity|].
  change (String c a +:+ b) with (String c (a +:+ b)).
  simpl. rewrite IH. apply orb_assoc.
Qed.

Lemma has_space_digits (d : Decimal.uint) :
  has_space (NilEmpty.string_of_uint d) = false.
Proof. induction d; simpl; rewrite ?IHd; reflexivity. Qed.

(** What [%d] prints: an optional minus sign and digits, at least one. *)
Lemma fmt_d_shape (z : Z) :
  exists (neg : bool) (d : Decimal.uint),
    d <> Decimal.Nil
    /\ fmt_d z = (if neg then String "-" (NilEmpty.string_of_uint d)
                  else NilEmpty.string_of_uint d)
    /\ (0 <= z -> neg = false).
Proof.
  unfold fmt_d. destruct z as [|p|p].
  - exists false, (Decimal.D0 Decimal.Nil). repeat split; congruence.
  - exists false, (Pos.to_uint p).
    pose proof (DecimalPos.Unsigned.to_uint_nonnil p) as Hnil.
    change (Z.to_int (Z.pos p)) with (Decimal.Pos (Pos.to_uint p)).
    cbn [NilZero.string_of_int]. rewrite (string_of_uint_nonnil _ Hnil).
    repeat split; congruence.
  - exists true, (Pos.to_uint p).
    pose proof (DecimalPos.Unsigned.to_uint_nonnil p) as Hnil.
    change (Z.to_int (Z.neg p)) with (Decimal.Neg (Pos.to_uint p)).
    cbn [NilZero.string_of_int]. rewrite (string_of_uint_nonnil _ Hnil).
    repeat split; [congruence | lia].
Qed.

Lemma string_of_uint_nonempty (d : Decimal.uint) :
  d <> Decimal.Nil -> NilEmpty.string_of_uint d <> "".
Proof. destruct d; simpl; congruence. Qed.

Lemma fmt_d_nonempty (z : Z) : fmt_d z <> "".
Proof.
  destruct (fmt_d_shape z) as (neg & d & Hnil & -> & _).
  destruct neg; [congruence | apply string_of_uint_nonempty, Hnil].
Qed.

Lemma fmt_d_no_space (z : Z) : has_space (fmt_d z) = false.
Proof.
  destruct (fmt_d_shape z) as (neg & d & Hnil & -> & _).
  destruct neg; simpl; apply has_space_digits.
Qed.

Lemma fmt_d_plain (z : Z) : plain (fmt_d z) = true.
Proof.
  destruct (fmt_d_shape z) as (neg & d & Hnil & -> & _).
  destruct neg; [cbn [plain]; rewrite plain_digits; reflexivity
                | apply plain_digits].
Qed.

Lemma fmt_d_bytes (c : ascii) (z : Z) :
  is_digit c = false -> Ascii.eqb "-" c = false -> has_byte c (fmt_d z) = false.
Proof.
  intros Hc Hm. destruct (fmt_d_shape z) as (neg & d & Hnil & -> & _).
  destruct neg; cbn [has_byte]; rewrite ?Hm; apply has_byte_digits, Hc.
Qed.

Lemma parseLineRange_pair (s c : Z) :
  in_int64 s = true -> in_int64 c = true ->
  parseLineRange (fmt_d s +:+ "," +:+ fmt_d c) = Ok (s, c).
Proof.
  intros Hs Hc. unfold parseLineRange.
  change (fmt_d s +:+ "," +:+ fmt_d c) with (fmt_d s +:+ String "," (fmt_d c)).
  rewrite Split_app_sep by (apply fmt_d_bytes; reflexivity).
  rewrite Split_nosep by (apply fmt_d_bytes; reflexivity).
  cbn [nth].
  destruct (String.eqb_spec (fmt_d s) "") as [E|_];
    [destruct (fmt_d_nonempty s E)|].
  rewrite (Sscanf_d_fmt_d _ Hs), (Sscanf_d_fmt_d _ Hc). reflexivity.
Qed.

Lemma parseLineRange_single (s : Z) :
  in_int64 s = true -> parseLineRange (fmt_d s) = Ok (s, 1).
Proof.
  intros Hs. unfold parseLineRange.
  rewrite Split_nosep by (apply fmt_d_bytes; reflexivity).
  cbn [nth].
  destruct (String.eqb_spec (fmt_d s) "") as [E|_];
    [destruct (fmt_d_nonempty s E)|].
  rewrite (Sscanf_d_fmt_d _ Hs). reflexivity.
Qed.

Lemma LastIndex_none (s : string) :
  has_byte "@" s = false -> LastIndex s "@@" = None.
Proof.
  induction s as [|c s IH]; intros H; [reflexivity|].
  simpl in H. apply orb_false_iff in H as [Hc Hs].
  cbn [LastIndex]. rewrite (IH Hs).
  cbn [HasPrefix]. rewrite Ascii.eqb_sym, Hc. reflexivity.
Qed.

Lemma LastIndex_at (pre post : string) :
  has_byte "@" post = false ->
  LastIndex (pre +:+ "@@" +:+ post) "@@" = Some (String.length pre).
Proof.
  intros H. induction pre as [|c pre IH].
  - change ("" +:+ "@@" +:+ post) with (String "@" (String "@" post)).
    cbn [LastIndex]. rewrite (LastIndex_none _ H).
    assert (E : HasPrefix (String "@" post) "@@" = false).
    { destruct post as [|d post]; [reflexivity|].
      simpl in H. apply orb_false_iff in H as [Hd _].
      cbn [HasPrefix]. rewrite (Ascii.eqb_sym "@" d), Hd.
      rewrite andb_false_r. reflexivity. }
    rewrite E. destruct post; reflexivity.
  - change (String c pre +:+ "@@" +:+ post)
      with (String c (pre +:+ "@@" +:+ post)).
    cbn [LastIndex]. rewrite IH. reflexivity.
Qed.

Lemma str_take_app (a b : string) : str_take (String.length a) (a +:+ b) = a.
Proof.
  induction a as [|c a IH]; [destruct b; reflexivity|].
  change (String c a +:+ b) with (String c (a +:+ b)).
  simpl. rewrite IH. reflexivity.
Qed.

Lemma lineNumber_int64 (z : Z) : lineNumber z = true -> in_int64 z = true /\ 0 <= z.
Proof.
  unfold lineNumber, in_int64, int64_min. intros H.
  apply andb_true_iff in H as [H0 H1]. apply Z.leb_le in H0.
  split; [|exact H0]. rewrite H1, andb_true_r. apply Z.leb_le. lia.
Qed.

Lemma range_word (sign : ascii) (s c : Z) :
  let w := String sign (fmt_d s +:+ "," +:+ fmt_d c) in
  plainByte sign = true -> w <> "" /\ plain w = true.
Proof.
  intros w Hsign. split; [discriminate|]. unfold w. cbn [plain].
  rewrite Hsign, !plain_app, !fmt_d_plain. reflexivity.
Qed.

(** The header [@@ -a,b +c,d @@] and what [parseHunkHeader] makes of it. *)
Lemma parseHunkHeader_header (os oc ns nc : Z) (section : string) (h : Hunk) :
  lineNumber os = true -> lineNumber oc = true ->
  lineNumber ns = true -> lineNumber nc = true ->
  has_byte "@" section = false ->
  parseHunkHeader (hunkHeaderText os oc ns nc section) h
  = Ok (setLineNumbers h os oc ns nc).
Proof.
  intros Hos Hoc Hns Hnc Hsec.
  apply lineNumber_int64 in Hos as [Hos _]. apply lineNumber_int64 in Hoc as [Hoc _].
  apply lineNumber_int64 in Hns as [Hns _]. apply lineNumber_int64 in Hnc as [Hnc _].
  set (w1 := String "-" (fmt_d os +:+ "," +:+ fmt_d oc)).
  set (w2 := String "+" (fmt_d ns +:+ "," +:+ fmt_d nc)).
  set (mid := String " " (w1 +:+ " " +:+ w2 +:+ " ")).
  assert (Hhdr : hunkHeaderText os oc ns nc section
                 = ("@@" +:+ mid) +:+ "@@" +:+ section).
  { unfold hunkHeaderText, mid, w1, w2.
    change (String "-" (fmt_d os +:+ "," +:+ fmt_d oc))
      with ("-" +:+ fmt_d os +:+ "," +:+ fmt_d oc).
    change (String "+" (fmt_d ns +:+ "," +:+ fmt_d nc))
      with ("+" +:+ fmt_d ns +:+ "," +:+ fmt_d nc).
    change (String " " ?x) with (" " +:+ x).
    rewrite !str_app_assoc. reflexivity. }
  destruct (range_word "-" os oc eq_refl) as [Hw1 Hs1].
  destruct (range_word "+" ns nc eq_refl) as [Hw2 Hs2].
  fold w1 in Hw1, Hs1. fold w2 in Hw2, Hs2.
  unfold parseHunkHeader.
  assert (HI : Index (hunkHeaderText os oc ns nc section) "@@" = Some 0%nat)
    by reflexivity.
  rewrite HI, Hhdr, (LastIndex_at _ _ Hsec).
  change (String.length ("@@" +:+ mid)) with (S (S (String.length mid))).
  change (Nat.eqb 0 (S (S (String.length mid)))) with false.
  change (Nat.ltb (S (S (String.length mid))) (0 + 2)) with false.
  cbv iota.
  change (S (S (String.length mid)) - (0 + 2))%nat with (String.length mid - 0)%nat.
  rewrite Nat.sub_0_r.
  change (str_drop (0 + 2) (("@@" +:+ mid) +:+ "@@" +:+ section))
    with (mid +:+ "@@" +:+ section).
  rewrite str_take_app. unfold mid.
  rewrite (TrimSpace_pad w1 " " w2 Hw1 Hw2 Hs1 Hs2).
  change (w1 +:+ " " +:+ w2) with (w1 +:+ String " " w2).
  rewrite (Fields_two w1 w2 Hw1 Hw2 Hs1 Hs2).
  unfold w1, w2. rewrite !TrimPrefix_one.
  rewrite (parseLineRange_pair _ _ Hos Hoc), (parseLineRange_pair _ _ Hns Hnc).
  reflexivity.
Qed.


Lemma flushed_fileHeaderStep (st : ParseState) (line : string) :
  flushed (fileHeaderStep st line) = flushed st.
Proof.
  unfold fileHeaderStep. destruct (HasPrefix line "diff --git"); [|reflexivity].
  unfold flushed. cbn [hunks currentHunk inHunk].
  destruct (currentHunk st) as [h|]; [destruct (inHunk st)|]; reflexivity.
Qed.

Lemma flushed_statusStep (st : ParseState) (line : string) :
  flushed (statusStep st line) = flushed st.
Proof.
  unfold statusStep.
  destruct (HasPrefix line "new file mode"); [reflexivity|].
  destruct (HasPrefix line "deleted file mode"); [reflexivity|].
  destruct (HasPrefix line "rename from"); [reflexivity|].
  destruct (HasPrefix line "rename to"); reflexivity.
Qed.

Lemma length_flushed_hunkStep (st st' : ParseState) (line : string) :
  hunkStep st line = Ok st' ->
  length (flushed st')
  = (length (flushed st) + if HasPrefix line "@@" then 1 else 0)%nat.
Proof.
  unfold hunkStep. destruct (HasPrefix line "@@") eqn:E.
  - rewrite (HasPrefix_Contains _ _ E). cbn [andb].
    destruct (parseHunkHeader line _) as [h|m|]; intros H; inversion H; subst.
    unfold flushed at 1. cbn [hunks currentHunk inHunk].
    rewrite length_app. reflexivity.
  - cbn [andb]. rewrite Nat.add_0_r.
    destruct (currentHunk st) as [h|] eqn:Ec.
    + destruct (inHunk st) eqn:Ei; intros H; inversion H; subst; [|reflexivity].
      unfold flushed. cbn [hunks currentHunk inHunk]. rewrite Ec, Ei.
      rewrite !length_app. reflexivity.
    + intros H; inversion H; subst. reflexivity.
Qed.

Lemma length_flushed_parseLoop (lines : list string) (st st' : ParseState) :
  parseLoop st lines = Ok st' ->
  length (flushed st')
  = (length (flushed st)
     + length (List.filter (fun l => HasPrefix l "@@") lines))%nat.
Proof.
  revert st. induction lines as [|l lines IH]; intros st H.
  - inversion H; subst. simpl. lia.
  - cbn [parseLoop] in H. destruct (parseStep st l) as [st1|m|] eqn:E;
      try discriminate H.
    unfold parseStep in E. apply length_flushed_hunkStep in E.
    rewrite flushed_statusStep, flushed_fileHeaderStep in E.
    rewrite (IH _ H), E. cbn [List.filter].
    destruct (HasPrefix l "@@"); cbn [length]; lia.
Qed.

(** X5. When [SplitDiffIntoHunks] returns hunks, it returns one for
    every scanned line that starts with [@@], neither more nor fewer. *)
Theorem one_hunk_per_header (diff : string) (hs : list Hunk) :
  SplitDiffIntoHunks diff = Ok hs ->
  length hs
  = length (List.filter (fun l => HasPrefix l "@@") (fst (scanner_run diff))).
Proof.
  unfold SplitDiffIntoHunks. destruct (scanner_run diff) as [lines tooLong].
  destruct (parseLoop initParseState lines) as [st|m|] eqn:E; try discriminate.
  destruct tooLong; try discriminate. intros H; inversion H; subst.
  rewrite (length_flushed_parseLoop _ _ _ E). reflexivity.
Qed.

Lemma parseLoop_no_header (lines : list string) (st : ParseState) :
  Forall (fun l => HasPrefix l "@@" = false) lines ->
  currentHunk st = None ->
  exists st', parseLoop st lines = Ok st'
              /\ currentHunk st' = None /\ hunks st' = hunks st.
Proof.
  intros Hl. revert st. induction Hl as [|l lines Hh _ IH]; intros st Hc.
  - exists st. repeat split; assumption.
  - assert (E : exists st1, parseStep st l = Ok st1
                            /\ currentHunk st1 = None /\ hunks st1 = hunks st).
    { unfold parseStep, hunkStep. rewrite Hh. cbn [andb].
      set (st1 := statusStep (fileHeaderStep st l) l).
      assert (H1 : currentHunk st1 = None /\ hunks st1 = hunks st).
      { unfold st1, statusStep, fileHeaderStep, flushed. rewrite Hc.
        destruct (HasPrefix l "diff --git"); cbn [currentHunk hunks inHunk];
          destruct (HasPrefix l "new file mode");
          destruct (HasPrefix l "deleted file mode");
          destruct (HasPrefix l "rename from");
          destruct (HasPrefix l "rename to");
          cbn [currentHunk hunks]; rewrite ?Hc; split; reflexivity. }
      destruct H1 as [H1 H2]. rewrite H1. exists st1. repeat split; assumption. }
    destruct E as (st1 & E & Hc1 & Hh1).
    destruct (IH st1 Hc1) as (st' & E' & Hc' & Hh').
    exists st'. cbn [parseLoop]. rewrite E. repeat split; congruence.
Qed.

(** X4. A diff none of whose lines starts with [@@] (a pure rename, a
    mode change, a binary file) gives no hunk and no error. *)
Theorem no_header_no_hunk (diff : string) :
  snd (scanner_run diff) = false ->
  Forall (fun l => HasPrefix l "@@" = false) (fst (scanner_run diff)) ->
  SplitDiffIntoHunks diff = Ok [].
Proof.
  unfold SplitDiffIntoHunks. destruct (scanner_run diff) as [lines tooLong].
  cbn [fst snd]. intros -> Hl.
  destruct (parseLoop_no_header lines initParseState Hl eq_refl)
    as (st' & E & Hc & Hh).
  rewrite E. unfold flushed. rewrite Hc, Hh. reflexivity.
Qed.

Lemma parseHunkHeader_keeps (line : string) (h0 h : Hunk) :
  parseHunkHeader line h0 = Ok h ->
  exists os oc ns nc, h = setLineNumbers h0 os oc ns nc.
Proof.
  unfold parseHunkHeader. intros H.
  repeat match type of H with
         | match ?x with _ => _ end = _ => destruct x; try discriminate H
         | (if ?x then _ else _) = _ => destruct x; try discriminate H
         | (let '(_, _) := ?x in _) = _ => destruct x
         end.
  injection H as <-. eexists _, _, _, _. reflexivity.
Qed.

Lemma flushed_within (L : list string) (st : ParseState) :
  withinInv L st -> Forall (hunkWithin L) (flushed st).
Proof.
  intros [Hs Hc]. unfold flushed.
  destruct (currentHunk st) as [h|]; [|exact Hs].
  destruct (inHunk st); [|exact Hs].
  apply Forall_app. split; [exact Hs|].
  constructor; [apply Hc; reflexivity | constructor].
Qed.

Lemma parseStep_within (L : list string) (st st' : ParseState) (line : string) :
  In line L -> withinInv L st -> parseStep st line = Ok st' -> withinInv L st'.
Proof.
  intros HL Hinv H. unfold parseStep in H.
  set (st1 := fileHeaderStep st line) in *.
  assert (H1 : withinInv L st1
               /\ (HasPrefix line "diff --git" = true ->
                   forall h, currentHunk st1 = Some h -> inHunk st1 = false)).
  { unfold st1, fileHeaderStep.
    destruct (HasPrefix line "diff --git"); [|split; [exact Hinv | discriminate]].
    split.
    - split; cbn [hunks currentHunk].
      + apply flushed_within. exact Hinv.
      + intros h Hh. destruct Hinv as [_ Hc].
        destruct (currentHunk st) as [h'|]; [|discriminate Hh].
        destruct (inHunk st); [discriminate Hh|]. apply Hc. exact Hh.
    - intros _ h. cbn [currentHunk inHunk].
      destruct (currentHunk st) as [h'|]; [|discriminate].
      destruct (inHunk st); [discriminate | reflexivity]. }
  clearbody st1. destruct H1 as [Hinv1 Hclosed].
  set (st2 := statusStep st1 line) in *.
  assert (H2 : withinInv L st2 /\ currentHunk st2 = currentHunk st1
               /\ inHunk st2 = inHunk st1).
  { unfold st2, statusStep.
    repeat match goal with
           | |- context [if ?c then _ else _] => destruct c
           end; (split; [exact Hinv1 | split; reflexivity]). }
  clearbody st2. destruct H2 as (Hinv2 & Hc2 & Hi2).
  unfold hunkStep in H.
  destruct (HasPrefix line "@@") eqn:Ehdr.
  - rewrite (HasPrefix_Contains _ _ Ehdr) in H. cbn [andb] in H.
    destruct (parseHunkHeader line _) as [h| |] eqn:Hp; try discriminate H.
    injection H as <-. split; cbn [hunks currentHunk].
    + apply flushed_within. exact Hinv2.
    + intros h' [= <-].
      destruct (parseHunkHeader_keeps _ _ _ Hp) as (os & oc & ns & nc & ->).
      unfold hunkWithin. cbn [Header Lines setLineNumbers].
      repeat split; [exact Ehdr | exact HL | constructor].
  - cbn [andb] in H.
    destruct (currentHunk st2) as [h|] eqn:HcS.
    + destruct (inHunk st2) eqn:HiS.
      * injection H as <-. destruct Hinv2 as [Hs Hcur].
        split; cbn [hunks currentHunk]; [exact Hs|].
        intros h' [= <-]. destruct (Hcur h HcS) as (Hh & Hin & Hb).
        unfold hunkWithin. rewrite addLine_Header, addLine_Lines.
        repeat split; [exact Hh | exact Hin |].
        apply Forall_app. split; [exact Hb|].
        constructor; [|constructor].
        repeat split; [exact HL | exact Ehdr |].
        destruct (HasPrefix line "diff --git") eqn:Ed; [|reflexivity].
        rewrite (Hclosed eq_refl h (eq_sym Hc2)) in Hi2. discriminate Hi2.
      * injection H as <-. exact Hinv2.
    + injection H as <-. exact Hinv2.
Qed.

Lemma parseLoop_within (L lines : list string) (st st' : ParseState) :
  (forall l, In l lines -> In l L) ->
  withinInv L st -> parseLoop st lines = Ok st' -> withinInv L st'.
Proof.
  revert st. induction lines as [|line rest IH]; intros st Hsub Hinv H.
  - injection H as <-. exact Hinv.
  - cbn [parseLoop] in H.
    destruct (parseStep st line) as [st1| |] eqn:Hstep; try discriminate H.
    apply (IH st1); [intros l Hl; apply Hsub; right; exact Hl | | exact H].
    apply (parseStep_within L st st1 line); [apply Hsub; left; reflexivity | exact Hinv | exact Hstep].
Qed.

(** X6. Every hunk [SplitDiffIntoHunks] returns is cut out of the diff:
    its header is a line of the diff that starts with [@@], and its body
    lines are lines of the diff none of which starts with [@@] or with
    [diff --git], so that no hunk runs into the next hunk or the next
    file. *)
Theorem hunks_within_diff (diff : string) (hs : list Hunk) (h : Hunk) :
  SplitDiffIntoHunks diff = Ok hs -> In h hs ->
  hunkWithin (fst (scanner_run diff)) h.
Proof.
  unfold SplitDiffIntoHunks. destruct (scanner_run diff) as [lines tooLong].
  destruct (parseLoop initParseState lines) as [st| |] eqn:Hloop;
    try discriminate.
  destruct tooLong; [discriminate|]. intros [= <-] Hin. cbn [fst].
  assert (Hinv : withinInv lines st).
  { apply (parseLoop_within lines lines initParseState); [auto | | exact Hloop].
    split; [constructor | intros h' Hh; discriminate Hh]. }
  pose proof (flushed_within _ _ Hinv) as HF.
  rewrite List.Forall_forall in HF. apply HF. exact Hin.
Qed.

(** X7. In every hunk [SplitDiffIntoHunks] returns, [Content] is the
    header line and the body lines, each followed by a newline, and the
    four line groups are read off the body: [AddedLines] are the lines
    with [+] (not [+++]) and [RemovedLines] those with [-] (not [---]),
    their marker removed, in order; [ContextBefore] are the lines with a
    blank before the first of these, [ContextAfter] those after it. *)
Theorem hunk_line_groups (diff : string) (hs : list Hunk) (h : Hunk) :
  SplitDiffIntoHunks diff = Ok hs -> In h hs ->
  Content h = Header h +:+ String LF (unlines (Lines h))
  /\ AddedLines h = added_of (Lines h)
  /\ RemovedLines h = removed_of (Lines h)
  /\ ContextBefore h = context_before_of (Lines h)
  /\ ContextAfter h = context_after_of (Lines h).
Proof.
  intros Hparse Hin.
  pose proof (SplitDiffIntoHunks_built diff hs Hparse) as Hbuilt.
  rewrite List.Forall_forall in Hbuilt. specialize (Hbuilt h Hin).
  destruct (builtHunk_groups h Hbuilt) as (Ha & Hr & Hb & Hc & Hcontent).
  repeat split; assumption.
Qed.


Lemma parseLoop_app (a b : list string) (st : ParseState) :
  parseLoop st (a ++ b)
  = match parseLoop st a with
    | Ok st' => parseLoop st' b
    | Err m => Err m
    | Panic => Panic
    end.
Proof.
  revert st. induction a as [|l a IH]; intros st; [reflexivity|].
  cbn [app parseLoop]. destruct (parseStep st l); [apply IH | reflexivity ..].
Qed.

Lemma plainLine_spec (l : string) :
  plainLine l = true ->
  HasPrefix l "diff --git" = false /\ HasPrefix l "new file mode" = false
  /\ HasPrefix l "deleted file mode" = false /\ HasPrefix l "rename from" = false
  /\ HasPrefix l "rename to" = false /\ HasPrefix l "@@" = false.
Proof.
  unfold plainLine. intros H.
  repeat (apply andb_true_iff in H as [H ?]).
  repeat match goal with
         | X : negb _ = true |- _ => apply negb_true_iff in X
         end.
  repeat split; assumption.
Qed.

Lemma plain_step_closed (st : ParseState) (l : string) :
  plainLine l = true ->
  (currentHunk st = None \/ inHunk st = false) ->
  parseStep st l = Ok st.
Proof.
  intros Hp Hc. destruct (plainLine_spec l Hp) as (H1 & H2 & H3 & H4 & H5 & H6).
  unfold parseStep, fileHeaderStep, statusStep, hunkStep.
  rewrite H1, H2, H3, H4, H5, H6. cbn [andb].
  destruct Hc as [Hc|Hc]; rewrite Hc; [reflexivity|].
  destruct (currentHunk st); reflexivity.
Qed.

Lemma plain_loop_closed (ls : list string) (st : ParseState) :
  forallb plainLine ls = true ->
  (currentHunk st = None \/ inHunk st = false) ->
  parseLoop st ls = Ok st.
Proof.
  induction ls as [|l ls IH]; intros H Hc; [reflexivity|].
  cbn [forallb] in H. apply andb_true_iff in H as [Hl Hls].
  cbn [parseLoop]. rewrite (plain_step_closed _ _ Hl Hc). apply IH; assumption.
Qed.

Lemma plain_loop_open (ls : list string) (hs : list Hunk) (cf ofl : string)
  (n d r : bool) (h : Hunk) :
  forallb plainLine ls = true ->
  parseLoop (mkParseState hs cf ofl n d r (Some h) true) ls
  = Ok (mkParseState hs cf ofl n d r (Some (fold_left addLine ls h)) true).
Proof.
  revert h. induction ls as [|l ls IH]; intros h H; [reflexivity|].
  cbn [forallb] in H. apply andb_true_iff in H as [Hl Hls].
  destruct (plainLine_spec l Hl) as (H1 & H2 & H3 & H4 & H5 & H6).
  cbn [parseLoop fold_left].
  unfold parseStep, fileHeaderStep, statusStep, hunkStep.
  rewrite H1, H2, H3, H4, H5, H6. cbn [andb currentHunk inHunk].
  cbn [hunks currentFile oldFile isNew isDeleted isRenamed].
  apply IH. exact Hls.
Qed.

Lemma header_step (st : ParseState) (t : HunkText) :
  hunkTextOk t = true ->
  parseStep st (ht_header t)
  = Ok (mkParseState (flushed st) (currentFile st) (oldFile st) (isNew st)
          (isDeleted st) (isRenamed st)
          (Some (mkHunk (currentFile st) (oldFile st) (isNew st) (isDeleted st)
                   (isRenamed st) (ht_header t)
                   (ht_header t +:+ String LF EmptyString) [] [] [] [] []
                   (ht_oldStart t) (ht_oldCount t) (ht_newStart t)
                   (ht_newCount t)))
          true).
Proof.
  unfold hunkTextOk. intros H.
  apply andb_true_iff in H as [H Hbody]. apply andb_true_iff in H as [H Hsec].
  apply andb_true_iff in H as [H Hnc]. apply andb_true_iff in H as [H Hns].
  apply andb_true_iff in H as [Hos Hoc]. apply negb_true_iff in Hsec.
  unfold parseStep.
  assert (E1 : fileHeaderStep st (ht_header t) = st) by reflexivity.
  rewrite E1.
  assert (E2 : statusStep st (ht_header t) = st) by reflexivity.
  rewrite E2. unfold hunkStep.
  assert (E3 : HasPrefix (ht_header t) "@@" && Contains (ht_header t) "@@" = true)
    by reflexivity.
  rewrite E3. unfold ht_header at 1.
  rewrite parseHunkHeader_header by assumption. reflexivity.
Qed.

Lemma str_drop_app (a b : string) : str_drop (String.length a) (a +:+ b) = b.
Proof.
  induction a as [|c a IH]; [reflexivity|].
  change (String c a +:+ b) with (String c (a +:+ b)). simpl. exact IH.
Qed.

Lemma TrimPrefix_app (p s : string) : TrimPrefix (p +:+ s) p = s.
Proof. unfold TrimPrefix. rewrite HasPrefix_app. apply str_drop_app. Qed.

Lemma diff_line_step (st : ParseState) (o p : string) :
  has_byte " " o = false -> has_byte " " p = false ->
  exists st1,
    parseStep st ("diff --git a/" +:+ o +:+ " b/" +:+ p) = Ok st1
    /\ flushed st1 = flushed st
    /\ (currentHunk st1 = None \/ inHunk st1 = false)
    /\ currentFile st1 = p /\ oldFile st1 = o
    /\ isNew st1 = false /\ isDeleted st1 = false /\ isRenamed st1 = false.
Proof.
  intros Ho Hp.
  set (line := "diff --git a/" +:+ o +:+ " b/" +:+ p).
  assert (Hsplit : Split line " " = ["diff"; "--git"; "a/" +:+ o; "b/" +:+ p]).
  { assert (E : line = "diff" +:+ String " "
                         ("--git" +:+ String " "
                            (("a/" +:+ o) +:+ String " " ("b/" +:+ p)))).
    { unfold line. rewrite !str_app_assoc. reflexivity. }
    rewrite E.
    rewrite Split_app_sep by reflexivity.
    rewrite Split_app_sep by reflexivity.
    rewrite Split_app_sep by (rewrite has_byte_app, Ho; reflexivity).
    rewrite Split_nosep by (rewrite has_byte_app, Hp; reflexivity).
    reflexivity. }
  set (st1 := fileHeaderStep st line).
  assert (Hst1 : st1 = mkParseState (flushed st) p o false false false
                         (if match currentHunk st with
                             | Some _ => inHunk st | None => false end
                          then None else currentHunk st)
                         (if match currentHunk st with
                             | Some _ => inHunk st | None => false end
                          then false else inHunk st)).
  { unfold st1, fileHeaderStep.
    assert (E : HasPrefix line "diff --git" = true) by reflexivity.
    rewrite E, Hsplit. cbn [length Nat.leb nth].
    rewrite !TrimPrefix_app. reflexivity. }
  assert (Hclosed : currentHunk st1 = None \/ inHunk st1 = false).
  { rewrite Hst1. cbn [currentHunk inHunk].
    destruct (currentHunk st); [destruct (inHunk st)|]; auto. }
  exists st1. split.
  - unfold parseStep. fold st1.
    assert (E2 : statusStep st1 line = st1) by reflexivity.
    rewrite E2. unfold hunkStep.
    assert (E3 : HasPrefix line "@@" = false) by reflexivity.
    rewrite E3. cbn [andb].
    destruct Hclosed as [Hc|Hc]; rewrite Hc; [reflexivity|].
    destruct (currentHunk st1); reflexivity.
  - split; [apply flushed_fileHeaderStep|]. split; [exact Hclosed|].
    rewrite Hst1. repeat split; reflexivity.
Qed.

Lemma hunkStep_closed (st : ParseState) (l : string) :
  HasPrefix l "@@" = false ->
  (currentHunk st = None \/ inHunk st = false) ->
  hunkStep st l = Ok st.
Proof.
  intros H Hc. unfold hunkStep. rewrite H. cbn [andb].
  destruct Hc as [Hc|Hc]; rewrite Hc; [reflexivity|].
  destruct (currentHunk st); reflexivity.
Qed.

(** The file status headers of a file, read in a state in which no hunk
    is open. *)
Lemma kind_lines_loop (f : FileText) (st : ParseState) :
  (currentHunk st = None \/ inHunk st = false) ->
  currentFile st = ft_path f -> oldFile st = ft_oldPath f ->
  isNew st = false -> isDeleted st = false -> isRenamed st = false ->
  exists st',
    parseLoop st (kindLines f) = Ok st'
    /\ flushed st' = flushed st
    /\ (currentHunk st' = None \/ inHunk st' = false)
    /\ currentFile st' = ft_path f /\ oldFile st' = ft_oldPath f
    /\ isNew st' = isCreated (ft_kind f)
    /\ isDeleted st' = isRemoved (ft_kind f)
    /\ isRenamed st' = isRenamedKind (ft_kind f).
Proof.
  intros Hc Hcf Hof Hn Hd Hr. unfold kindLines.
  destruct (ft_kind f) as [|mode|mode|similarity]; cbn [parseLoop].
  - exists st. repeat split; assumption.
  - set (line := "new file mode " +:+ mode).
    set (st1 := mkParseState (hunks st) (currentFile st) (oldFile st) true
                  (isDeleted st) (isRenamed st) (currentHunk st) (inHunk st)).
    assert (E : parseStep st line = Ok st1).
    { unfold parseStep.
      change (statusStep (fileHeaderStep st line) line) with st1.
      apply hunkStep_closed; [reflexivity | exact Hc]. }
    rewrite E. exists st1. repeat split; try assumption; reflexivity.
  - set (line := "deleted file mode " +:+ mode).
    set (st1 := mkParseState (hunks st) (currentFile st) (oldFile st) (isNew st)
                  true (isRenamed st) (currentHunk st) (inHunk st)).
    assert (E : parseStep st line = Ok st1).
    { unfold parseStep.
      change (statusStep (fileHeaderStep st line) line) with st1.
      apply hunkStep_closed; [reflexivity | exact Hc]. }
    rewrite E. exists st1. repeat split; try assumption; reflexivity.
  - set (l1 := "rename from " +:+ ft_oldPath f).
    set (l2 := "rename to " +:+ ft_path f).
    set (st1 := mkParseState (hunks st) (currentFile st)
                  (TrimPrefix l1 "rename from ") (isNew st) (isDeleted st) true
                  (currentHunk st) (inHunk st)).
    set (st2 := mkParseState (hunks st1) (TrimPrefix l2 "rename to ")
                  (oldFile st1) (isNew st1) (isDeleted st1) (isRenamed st1)
                  (currentHunk st1) (inHunk st1)).
    assert (E1 : parseStep st l1 = Ok st1).
    { unfold parseStep.
      change (statusStep (fileHeaderStep st l1) l1) with st1.
      apply hunkStep_closed; [reflexivity | exact Hc]. }
    assert (E2 : parseStep st1 l2 = Ok st2).
    { unfold parseStep.
      change (statusStep (fileHeaderStep st1 l2) l2) with st2.
      apply hunkStep_closed; [reflexivity | exact Hc]. }
    rewrite (plain_step_closed st ("similarity index " +:+ similarity) eq_refl Hc).
    rewrite E1, E2. exists st2. unfold st2, st1, l1, l2.
    cbn [hunks currentFile oldFile isNew isDeleted isRenamed currentHunk inHunk].
    rewrite !TrimPrefix_app.
    repeat split; try assumption; reflexivity.
Qed.

Lemma hunk_eta (h : Hunk) :
  h = mkHunk (FilePath h) (OldFilePath h) (IsNew h) (IsDeleted h) (IsRenamed h)
        (Header h) (Content h) (Lines h) (ContextBefore h) (ContextAfter h)
        (AddedLines h) (RemovedLines h) (OldStartLine h) (OldLineCount h)
        (NewStartLine h) (NewLineCount h).
Proof. destruct h; reflexivity. Qed.

Lemma addLine_static (h : Hunk) (l : string) :
  FilePath (addLine h l) = FilePath h /\ OldFilePath (addLine h l) = OldFilePath h
  /\ IsNew (addLine h l) = IsNew h /\ IsDeleted (addLine h l) = IsDeleted h
  /\ IsRenamed (addLine h l) = IsRenamed h
  /\ OldStartLine (addLine h l) = OldStartLine h
  /\ OldLineCount (addLine h l) = OldLineCount h
  /\ NewStartLine (addLine h l) = NewStartLine h
  /\ NewLineCount (addLine h l) = NewLineCount h.
Proof.
  unfold addLine.
  repeat match goal with
         | |- context [if ?c then _ else _] => destruct c
         end; repeat split; reflexivity.
Qed.

Lemma fold_addLine_static (body : list string) (h0 : Hunk) :
  let h := fold_left addLine body h0 in
  FilePath h = FilePath h0 /\ OldFilePath h = OldFilePath h0
  /\ IsNew h = IsNew h0 /\ IsDeleted h = IsDeleted h0
  /\ IsRenamed h = IsRenamed h0
  /\ OldStartLine h = OldStartLine h0 /\ OldLineCount h = OldLineCount h0
  /\ NewStartLine h = NewStartLine h0 /\ NewLineCount h = NewLineCount h0.
Proof.
  revert h0. induction body as [|l body IH]; intros h0; cbn [fold_left].
  - repeat split; reflexivity.
  - destruct (IH (addLine h0 l)) as (H1 & H2 & H3 & H4 & H5 & H6 & H7 & H8 & H9).
    destruct (addLine_static h0 l) as (G1 & G2 & G3 & G4 & G5 & G6 & G7 & G8 & G9).
    cbv zeta. repeat split; congruence.
Qed.

Lemma fold_addLine_text (f : FileText) (t : HunkText) :
  fold_left addLine (ht_body t)
    (mkHunk (ft_path f) (ft_oldPath f) (isCreated (ft_kind f))
       (isRemoved (ft_kind f)) (isRenamedKind (ft_kind f)) (ht_header t)
       (ht_header t +:+ String LF EmptyString) [] [] [] [] []
       (ht_oldStart t) (ht_oldCount t) (ht_newStart t) (ht_newCount t))
  = hunkOfText f t.
Proof.
  set (h0 := mkHunk (ft_path f) (ft_oldPath f) (isCreated (ft_kind f))
               (isRemoved (ft_kind f)) (isRenamedKind (ft_kind f)) (ht_header t)
               (ht_header t +:+ String LF EmptyString) [] [] [] [] []
               (ht_oldStart t) (ht_oldCount t) (ht_newStart t) (ht_newCount t)).
  destruct (fold_addLine (ht_body t) h0) as (HL & HH & HC & HA & HR & _ & HU).
  destruct (HU eq_refl) as [HB HAf].
  destruct (fold_addLine_static (ht_body t) h0)
    as (H1 & H2 & H3 & H4 & H5 & H6 & H7 & H8 & H9).
  rewrite (hunk_eta (fold_left addLine (ht_body t) h0)).
  rewrite HL, HH, HC, HA, HR, HB, HAf, H1, H2, H3, H4, H5, H6, H7, H8, H9.
  unfold hunkOfText, h0.
  cbn [FilePath OldFilePath IsNew IsDeleted IsRenamed Header Content Lines
       ContextBefore ContextAfter AddedLines RemovedLines OldStartLine
       OldLineCount NewStartLine NewLineCount app].
  rewrite str_app_assoc. reflexivity.
Qed.

(** The hunks of a file, read once its headers are. *)
Lemma hunks_loop (f : FileText) (ts : list HunkText) (st : ParseState) :
  forallb hunkTextOk ts = true ->
  currentFile st = ft_path f -> oldFile st = ft_oldPath f ->
  isNew st = isCreated (ft_kind f) -> isDeleted st = isRemoved (ft_kind f) ->
  isRenamed st = isRenamedKind (ft_kind f) ->
  exists st',
    parseLoop st (concat (map hunkTextLines ts)) = Ok st'
    /\ flushed st' = flushed st ++ map (hunkOfText f) ts.
Proof.
  revert st. induction ts as [|t ts IH]; intros st H Hcf Hof Hn Hd Hr.
  - exists st. split; [reflexivity|]. cbn [map]. rewrite app_nil_r. reflexivity.
  - cbn [forallb] in H. apply andb_true_iff in H as [Ht Hts].
    cbn [map concat]. unfold hunkTextLines at 1. cbn [app parseLoop].
    rewrite (header_step st t Ht), Hcf, Hof, Hn, Hd, Hr.
    rewrite parseLoop_app.
    assert (Hbody : forallb plainLine (ht_body t) = true).
    { unfold hunkTextOk in Ht. apply andb_true_iff in Ht as [_ Ht]. exact Ht. }
    rewrite (plain_loop_open _ _ _ _ _ _ _ _ Hbody), fold_addLine_text.
    edestruct (IH (mkParseState (flushed st) (ft_path f) (ft_oldPath f)
                     (isCreated (ft_kind f)) (isRemoved (ft_kind f))
                     (isRenamedKind (ft_kind f))
                     (Some (hunkOfText f t)) true) Hts)
      as (st' & E & Hf); try reflexivity.
    exists st'. split; [exact E|]. rewrite Hf.
    unfold flushed at 1. cbn [hunks currentHunk inHunk].
    rewrite <- app_assoc. reflexivity.
Qed.

Lemma files_loop (fs : list FileText) (st : ParseState) :
  forallb fileTextOk fs = true ->
  exists st',
    parseLoop st (diffLines fs) = Ok st'
    /\ flushed st' = flushed st ++ hunksOfText fs.
Proof.
  revert st. induction fs as [|f fs IH]; intros st H.
  - exists st. split; [reflexivity|]. unfold hunksOfText. cbn [map concat].
    rewrite app_nil_r. reflexivity.
  - cbn [forallb] in H. apply andb_true_iff in H as [Hf Hfs].
    unfold fileTextOk in Hf. apply andb_true_iff in Hf as [Hf Hhunks].
    apply andb_true_iff in Hf as [Hf Hmeta].
    apply andb_true_iff in Hf as [Hold Hpath].
    apply negb_true_iff in Hold. apply negb_true_iff in Hpath.
    unfold diffLines, hunksOfText. cbn [map concat]. fold (diffLines fs).
    fold (hunksOfText fs). unfold fileTextLines at 1.
    cbn [app parseLoop].
    destruct (diff_line_step st (ft_oldPath f) (ft_path f) Hold Hpath)
      as (st1 & E1 & Hfl & Hclosed & Hcf & Hof & Hn & Hd & Hr).
    rewrite E1. rewrite <- !app_assoc, parseLoop_app.
    destruct (kind_lines_loop f st1 Hclosed Hcf Hof Hn Hd Hr)
      as (st2 & E2 & Hfl2 & Hclosed2 & Hcf2 & Hof2 & Hn2 & Hd2 & Hr2).
    rewrite E2, parseLoop_app.
    rewrite (plain_loop_closed _ _ Hmeta Hclosed2).
    rewrite parseLoop_app.
    destruct (hunks_loop f (ft_hunks f) st2 Hhunks Hcf2 Hof2 Hn2 Hd2 Hr2)
      as (st3 & E3 & Hf3).
    rewrite E3.
    destruct (IH st3 Hfs) as (st' & E & Hf').
    exists st'. split; [exact E|].
    rewrite Hf', Hf3, Hfl2, Hfl, <- app_assoc. reflexivity.
Qed.

(** X8. [SplitDiffIntoHunks] reads a diff as git prints it. For a
    sequence of files, each a [diff --git a/OLD b/NEW] line, the status
    headers of a new, deleted or renamed file, further header lines and
    hunks with headers [@@ -a,b +c,d @@], it returns the hunks of all
    files in order, each with the new path as [FilePath], the old path as
    [OldFilePath], the flags of its file, its header, its body lines, its
    line groups and its four numbers. Paths have no blank, and every line
    is one the scanner delivers unchanged. *)
Theorem SplitDiffIntoHunks_unified (fs : list FileText) :
  diffOk fs = true ->
  SplitDiffIntoHunks (unlines (diffLines fs)) = Ok (hunksOfText fs).
Proof.
  unfold diffOk. intros H. apply andb_true_iff in H as [Hfs Hclean].
  unfold SplitDiffIntoHunks. rewrite (scanner_run_unlines _ Hclean).
  destruct (files_loop fs initParseState Hfs) as (st' & E & Hf).
  rewrite E, Hf. reflexivity.
Qed.


(** X1. [parseLineRange] reads a range as [%d] prints it: ["s,c"] gives the
    start [s] and the count [c], and a start alone gives the count 1. *)
Theorem parseLineRange_printed (s c : Z) :
  in_int64 s = true -> in_int64 c = true ->
  parseLineRange (fmt_d s +:+ "," +:+ fmt_d c) = Ok (s, c)
  /\ parseLineRange (fmt_d s) = Ok (s, 1).
Proof.
  intros Hs Hc. split;
    [apply parseLineRange_pair; assumption | apply parseLineRange_single, Hs].
Qed.

Lemma parseLineRange_printed_witness :
  in_int64 10 = true /\ in_int64 5 = true
  /\ parseLineRange "10,5" = Ok (10, 5) /\ parseLineRange "10" = Ok (10, 1).
Proof.
  split; [reflexivity|]. split; [reflexivity|].
  apply (parseLineRange_printed 10 5); reflexivity.
Defined.

(** X2. [parseHunkHeader] reads a hunk header as git prints it,
    [@@ -a,b +c,d @@] with or without a section heading after it, and sets
    the four line numbers of the hunk to [a], [b], [c] and [d]; every other
    field of the hunk is left as it was. The numbers are not negative and
    fit a Go [int]; the section heading has no [@]. *)
Theorem parseHunkHeader_printed (os oc ns nc : Z) (section : string) (h : Hunk) :
  lineNumber os = true -> lineNumber oc = true ->
  lineNumber ns = true -> lineNumber nc = true ->
  has_byte "@" section = false ->
  parseHunkHeader (hunkHeaderText os oc ns nc section) h
  = Ok (setLineNumbers h os oc ns nc).
Proof.
  intros Hos Hoc Hns Hnc Hsec. apply parseHunkHeader_header; assumption.
Qed.

Lemma parseHunkHeader_printed_witness :
  parseHunkHeader "@@ -10,5 +10,7 @@ func main() {" emptyHunk
  = Ok (setLineNumbers emptyHunk 10 5 10 7).
Proof.
  apply (parseHunkHeader_printed 10 5 10 7 " func main() {" emptyHunk);
    reflexivity.
Defined.

(** X3. A line that starts with [@@] and has no second [@@] stops the
    parser: [SplitDiffIntoHunks] returns the error of [parseHunkHeader]
    and none of the hunks read before. *)
Theorem unclosed_header_fails (pre post : list string) (rest : string)
  (st : ParseState) :
  forallb cleanLine (pre ++ ("@@" +:+ rest) :: post) = true ->
  parseLoop initParseState pre = Ok st ->
  has_byte "@" rest = false ->
  SplitDiffIntoHunks (unlines (pre ++ ("@@" +:+ rest) :: post))
  = Err ("failed to parse hunk header: invalid hunk header format: "
         +:+ "@@" +:+ rest).
Proof.
  intros Hclean Hpre Hrest. unfold SplitDiffIntoHunks.
  rewrite (scanner_run_unlines _ Hclean), parseLoop_app, Hpre.
  cbn [parseLoop]. unfold parseStep, hunkStep.
  assert (E : HasPrefix ("@@" +:+ rest) "@@" = true) by apply HasPrefix_app.
  rewrite E, (HasPrefix_Contains _ _ E). cbn [andb].
  unfold parseHunkHeader.
  assert (EI : Index ("@@" +:+ rest) "@@" = Some 0%nat).
  { change ("@@" +:+ rest) with (String "@" (String "@" rest)).
    cbn [Index HasPrefix]. rewrite HasPrefix_nil. reflexivity. }
  assert (EL : LastIndex ("@@" +:+ rest) "@@" = Some 0%nat)
    by exact (LastIndex_at "" rest Hrest).
  rewrite EI, EL. reflexivity.
Qed.

Lemma unclosed_header_fails_witness :
  SplitDiffIntoHunks
    (unlines ([ "diff --git a/x b/x"; "@@ -1 +1 @@"; "-a"; "+b" ]
              ++ ("@@" +:+ " -5,2 +5,2") :: [ " c" ]))
  = Err "failed to parse hunk header: invalid hunk header format: @@ -5,2 +5,2".
Proof.
  eapply (unclosed_header_fails
            [ "diff --git a/x b/x"; "@@ -1 +1 @@"; "-a"; "+b" ] [ " c" ]
            " -5,2 +5,2"); [reflexivity | vm_compute; reflexivity | reflexivity].
Defined.

Lemma no_header_no_hunk_witness : SplitDiffIntoHunks pureRenameDiff = Ok [].
Proof. apply (no_header_no_hunk pureRenameDiff); vm_compute; repeat constructor. Defined.

Lemma one_hunk_per_header_witness :
  length [hunkContiguous]
  = length (List.filter (fun l => HasPrefix l "@@")
              (fst (scanner_run diffContiguous))).
Proof. apply (one_hunk_per_header diffContiguous [hunkContiguous]). reflexivity. Defined.

Lemma hunks_within_diff_witness :
  hunkWithin (fst (scanner_run diffWithMarker)) hunkWithMarker.
Proof.
  apply (hunks_within_diff diffWithMarker [hunkWithMarker] hunkWithMarker);
    [reflexivity | left; reflexivity].
Defined.

Lemma hunk_line_groups_witness :
  Content hunkWithInnerContext
  = Header hunkWithInnerContext +:+ String LF (unlines (Lines hunkWithInnerContext))
  /\ AddedLines hunkWithInnerContext = added_of (Lines hunkWithInnerContext)
  /\ RemovedLines hunkWithInnerContext = removed_of (Lines hunkWithInnerContext)
  /\ ContextBefore hunkWithInnerContext
     = context_before_of (Lines hunkWithInnerContext)
  /\ ContextAfter hunkWithInnerContext
     = context_after_of (Lines hunkWithInnerContext).
Proof.
  apply (hunk_line_groups diffWithInnerContext [hunkWithInnerContext]);
    [reflexivity | left; reflexivity].
Defined.

Lemma SplitDiffIntoHunks_unified_witness :
  SplitDiffIntoHunks (unlines (diffLines sampleDiffText))
  = Ok (hunksOfText sampleDiffText).
Proof. apply (SplitDiffIntoHunks_unified sampleDiffText). vm_compute. reflexivity. Defined.

(** ** The oracle client: thresholds, indices out of range, targets *)

Lemma every_hunk_placed_witness :
  exists resp,
    parseAbsorbResponse lowConfidenceDocument bestMatchRequest = Ok resp
    /\ hunkB ∈ map ha_Hunk (Assignments resp) ++ UnmatchedHunks resp.
Proof.
  eexists. split; [reflexivity|].
  apply (every_hunk_placed lowConfidenceDocument bestMatchRequest _ 1%nat hunkB);
    reflexivity.
Defined.

Lemma partition_without_repeats_witness :
  exists resp,
    parseAbsorbResponse lowConfidenceDocument bestMatchRequest = Ok resp
    /\ map ha_Hunk (Assignments resp) ++ UnmatchedHunks resp
       ≡ₚ req_Hunks bestMatchRequest.
Proof.
  eexists. split; [reflexivity|].
  apply (partition_without_repeats lowConfidenceDocument bestMatchRequest);
    [reflexivity | apply (bool_decide_unpack _); vm_compute; exact I
    | apply (bool_decide_unpack _); vm_compute; exact I].
Defined.

Lemma best_match_demotes_witness :
  exists resp,
    parseAbsorbResponse lowConfidenceDocument bestMatchRequest = Ok resp
    /\ In hunkA (UnmatchedHunks resp)
    /\ Forall (fun a => Qltb (ha_Confidence a)
                          (req_ConfidenceThreshold bestMatchRequest) = false)
         (Assignments resp).
Proof.
  eexists. split; [reflexivity|].
  apply (best_match_demotes lowConfidenceDocument bestMatchRequest _
           (mkJsonAssignment 0 "11111111" (1 # 2) "maybe" []) hunkA);
    [reflexivity | reflexivity | left; reflexivity | reflexivity | reflexivity].
Defined.


Lemma processAssignments_threshold (req : AbsorbRequest) (t : Q)
  (l : list jsonAssignment) (st : PostState) :
  String.eqb (req_Strategy req) "best-match" = false ->
  processAssignments (withThreshold req t) st l = processAssignments req st l.
Proof.
  intros H. revert st. induction l as [|e l IH]; intros st; [reflexivity|].
  cbn [processAssignments].
  assert (E : processAssignment (withThreshold req t) st e
              = processAssignment req st e).
  { unfold processAssignment, withThreshold.
    cbn [req_Hunks req_Commits req_Strategy req_ConfidenceThreshold].
    rewrite H. reflexivity. }
  rewrite E. destruct (processAssignment req st e); [apply IH | reflexivity ..].
Qed.

(** X12. Outside best-match mode the confidence threshold is not looked
    at: [parseAbsorbResponse] gives the same result for every threshold,
    so no assignment is demoted for its confidence. *)
Theorem threshold_only_in_best_match (doc : absorbJSONResponse)
  (req : AbsorbRequest) (t : Q) :
  req_Strategy req <> "best-match" ->
  parseAbsorbResponse doc (withThreshold req t) = parseAbsorbResponse doc req.
Proof.
  intros H. apply String.eqb_neq in H. unfold parseAbsorbResponse.
  rewrite (processAssignments_threshold req t _ _ H). reflexivity.
Qed.

Lemma threshold_only_in_best_match_witness :
  parseAbsorbResponse lowConfidenceDocument (withThreshold interactiveRequest (99 # 100))
  = parseAbsorbResponse lowConfidenceDocument interactiveRequest.
Proof.
  apply (threshold_only_in_best_match lowConfidenceDocument interactiveRequest).
  discriminate.
Defined.


Lemma hunkAt_invalid (hs : list Hunk) (idx : Z) :
  ~ validIndex hs idx -> hunkAt hs idx = None.
Proof.
  intros H. destruct (hunkAt hs idx) as [h|] eqn:E; [|reflexivity].
  destruct (H (hunkAt_Some_valid _ _ _ E)).
Qed.

Lemma processAssignments_in_range (req : AbsorbRequest)
  (l : list jsonAssignment) (st : PostState) :
  processAssignments req st
    (filter (fun e => validIndex (req_Hunks req) (js_HunkIndex e)) l)
  = processAssignments req st l.
Proof.
  revert st. induction l as [|e l IH]; intros st; [reflexivity|].
  rewrite filter_cons. cbn [processAssignments].
  destruct (decide (validIndex (req_Hunks req) (js_HunkIndex e))) as [Hv|Hv].
  - cbn [processAssignments].
    destruct (processAssignment req st e); [apply IH | reflexivity ..].
  - assert (E : processAssignment req st e = Ok st).
    { unfold processAssignment. rewrite (hunkAt_invalid _ _ Hv). reflexivity. }
    rewrite E. apply IH.
Qed.

Lemma processUnmatched_in_range (req : AbsorbRequest) (m : gmap Z bool)
  (l : list Z) (U : list Hunk) :
  fold_left (processUnmatched req m) (filter (validIndex (req_Hunks req)) l) U
  = fold_left (processUnmatched req m) l U.
Proof.
  revert U. induction l as [|idx l IH]; intros U; [reflexivity|].
  rewrite filter_cons. cbn [fold_left].
  destruct (decide (validIndex (req_Hunks req) idx)) as [Hv|Hv].
  - cbn [fold_left]. apply IH.
  - assert (E : processUnmatched req m U idx = U).
    { unfold processUnmatched. rewrite (hunkAt_invalid _ _ Hv). reflexivity. }
    rewrite E. apply IH.
Qed.

Lemma existsb_in_range (hs : list Hunk) (i : Z) (l : list Z) :
  validIndex hs i ->
  existsb (Z.eqb i) (filter (validIndex hs) l) = existsb (Z.eqb i) l.
Proof.
  intros Hi. induction l as [|x l IH]; [reflexivity|].
  rewrite filter_cons. cbn [existsb].
  destruct (decide (validIndex hs x)) as [Hv|Hv].
  - cbn [existsb]. rewrite IH. reflexivity.
  - rewrite IH. destruct (Z.eqb_spec i x) as [->|_]; [destruct (Hv Hi) | reflexivity].
Qed.

Lemma closeUnmentioned_in_range (hs : list Hunk) (m : gmap Z bool)
  (mentioned : list Z) (rest : list Hunk) (i : Z) (U : list Hunk) :
  0 <= i -> i + Z.of_nat (length rest) <= Z.of_nat (length hs) ->
  closeUnmentioned m (filter (validIndex hs) mentioned) i rest U
  = closeUnmentioned m mentioned i rest U.
Proof.
  revert i U. induction rest as [|h rest IH]; intros i U H0 H1; [reflexivity|].
  cbn [closeUnmentioned]. cbn [length] in H1.
  rewrite (existsb_in_range hs i mentioned) by (unfold validIndex; lia).
  apply IH; lia.
Qed.

(** X13. Hunk indices out of range are ignored: the entries of the
    oracle's document that name a hunk index below 0 or not below the
    number of hunks, among its assignments and among its unmatched
    indices, change nothing in the result of [parseAbsorbResponse]. *)
Theorem out_of_range_ignored (doc : absorbJSONResponse) (req : AbsorbRequest) :
  parseAbsorbResponse (inRangeDocument (req_Hunks req) doc) req
  = parseAbsorbResponse doc req.
Proof.
  unfold parseAbsorbResponse, inRangeDocument.
  cbn [json_Assignments json_UnmatchedHunks].
  rewrite processAssignments_in_range.
  destruct (processAssignments req _ (json_Assignments doc)) as [st| |];
    [|reflexivity ..].
  rewrite processUnmatched_in_range.
  rewrite (closeUnmentioned_in_range (req_Hunks req)) by lia.
  reflexivity.
Qed.


Lemma resolveCommit_targetOf (cs : list CommitInfo) (sha target message : string) :
  resolveCommit cs sha = Ok (target, message) -> targetOf cs sha target message.
Proof.
  induction cs as [|c cs IH]; cbn [resolveCommit]; intros H.
  - injection H as <- <-. right. repeat split. constructor.
  - destruct (Nat.ltb (String.length sha) 8); [discriminate H|].
    destruct (HasPrefix (SHA c) (str_take 8 sha)) eqn:E.
    + injection H as <- <-. left. exists [], c, cs.
      repeat split; [constructor | exact E].
    + destruct (IH H) as [(pre & c' & post & -> & Hpre & Hc & Ht & Hm)|(Hall & Ht & Hm)].
      * left. exists (c :: pre), c', post.
        repeat split; try assumption. constructor; assumption.
      * right. repeat split; try assumption. constructor; assumption.
Qed.

Lemma processAssignment_targeted (doc : absorbJSONResponse) (req : AbsorbRequest)
  (st st' : PostState) (e : jsonAssignment) :
  In e (json_Assignments doc) ->
  processAssignment req st e = Ok st' ->
  Forall (targeted doc req) (ps_Assignments st) ->
  Forall (targeted doc req) (ps_Assignments st').
Proof.
  intros Hin H Hst. unfold processAssignment in H.
  destruct (hunkAt (req_Hunks req) (js_HunkIndex e)) as [hunk|] eqn:Hat;
    [|injection H as <-; exact Hst].
  destruct (resolveCommit _ _) as [[sha msg]| |] eqn:Hres; try discriminate H.
  destruct (processAlternatives _ _) as [alts| |] eqn:Halts;
    try discriminate H.
  destruct (String.eqb _ _ && Qltb _ _); injection H as <-; [exact Hst|].
  cbn [ps_Assignments]. apply Forall_app. split; [exact Hst|].
  constructor; [|constructor].
  exists e. cbn [ha_Hunk ha_CommitSHA ha_CommitMessage ha_Reasoning].
  repeat split; [exact Hin | exact Hat |].
  apply resolveCommit_targetOf. exact Hres.
Qed.

Lemma processAssignments_targeted (doc : absorbJSONResponse) (req : AbsorbRequest)
  (l : list jsonAssignment) (st st' : PostState) :
  (forall e, In e l -> In e (json_Assignments doc)) ->
  processAssignments req st l = Ok st' ->
  Forall (targeted doc req) (ps_Assignments st) ->
  Forall (targeted doc req) (ps_Assignments st').
Proof.
  revert st. induction l as [|e rest IH]; intros st Hsub H Hst; cbn in H.
  - injection H as <-. exact Hst.
  - destruct (processAssignment req st e) as [st1| |] eqn:Hstep;
      try discriminate H.
    apply (IH st1); [intros e' He'; apply Hsub; right; exact He' | exact H |].
    apply (processAssignment_targeted doc req st st1 e);
      [apply Hsub; left; reflexivity | exact Hstep | exact Hst].
Qed.

(** X14. Every assignment of the response is made from one entry of the
    oracle's document: its hunk is the hunk at the index of the entry, and
    its target is the first commit of the request whose identifier starts
    with the first eight bytes of the identifier the oracle gave, with the
    first line of that commit's message. When no commit of the request
    starts so, the identifier is passed on as the oracle gave it, with an
    empty message: the target is not checked to be a commit of the
    request. *)
Theorem assignment_targets (doc : absorbJSONResponse) (req : AbsorbRequest)
  (resp : AbsorbResponse) :
  parseAbsorbResponse doc req = Ok resp ->
  Forall (targeted doc req) (Assignments resp).
Proof.
  unfold parseAbsorbResponse. intros H.
  destruct (processAssignments req _ (json_Assignments doc)) as [st| |] eqn:E;
    try discriminate H.
  injection H as <-. cbn [Assignments].
  apply (processAssignments_targeted doc req _ _ st (fun e He => He) E).
  constructor.
Qed.

Lemma assignment_targets_witness :
  exists resp,
    parseAbsorbResponse mixedDocument interactiveRequest = Ok resp
    /\ map ha_CommitSHA (Assignments resp) = [SHA commit1; "abcdef0123"]
    /\ map ha_CommitMessage (Assignments resp) = ["fix a"; ""]
    /\ Forall (targeted mixedDocument interactiveRequest) (Assignments resp).
Proof.
  eexists. split; [reflexivity|]. split; [reflexivity|]. split; [reflexivity|].
  apply (assignment_targets mixedDocument interactiveRequest). reflexivity.
Defined.

(** ** The review: hunks, index and alternatives *)

Lemma assignmentAt_Some (m : AbsorbReviewModel) (idx : Z) (a : HunkAssignment) :
  assignmentAt m idx = Some a ->
  0 <= idx /\ elems (assignments m) !! Z.to_nat idx = Some a
  /\ (Z.to_nat idx < len (assignments m))%nat.
Proof.
  unfold assignmentAt. destruct (Z.ltb_spec idx 0) as [Hneg|Hpos]; [discriminate|].
  intros H. repeat split; [assumption | exact H |].
  apply lookup_lt_Some in H. unfold elems in H. rewrite length_take in H. lia.
Qed.

Lemma removeAt_sliceOk {A : Type} (i : nat) (s : Slice A) :
  (i < len s)%nat -> (len s <= length (array s))%nat ->
  (len (removeAt i s) <= length (array (removeAt i s)))%nat.
Proof.
  intros Hi Hlen. unfold removeAt. cbn [array len].
  rewrite !length_app, !length_take, !length_drop. lia.
Qed.

Lemma unassign_hunks (m m' : AbsorbReviewModel) :
  unassign m = Ok m' -> sliceOk m ->
  reviewHunks m' ≡ₚ reviewHunks m /\ sliceOk m'.
Proof.
  unfold unassign, sliceOk. intros H Hok.
  destruct (currentIndex m <? Z.of_nat (len (assignments m)));
    [|injection H as <-; split; [reflexivity | exact Hok]].
  destruct (assignmentAt m (currentIndex m)) as [a|] eqn:Ha; [|discriminate H].
  injection H as <-. apply assignmentAt_Some in Ha as (H0 & Ha & Hi).
  unfold reviewHunks. cbn [assignments unmatched].
  split; [|apply removeAt_sliceOk; assumption].
  rewrite (removeAt_elems _ _ Hi Hok).
  rewrite <- (take_drop_middle _ _ _ Ha) at 3.
  rewrite !map_app. cbn [map]. rewrite <- !app_assoc. cbn [app].
  apply Permutation_app_head.
  rewrite (Permutation_app_comm (unmatched m) [ha_Hunk a]).
  cbn [app]. symmetry. apply Permutation_middle.
Qed.

Lemma map_insert_same {A B : Type} (f : A -> B) (l : list A) (i : nat) (a a' : A) :
  l !! i = Some a -> f a' = f a -> map f (<[i := a']> l) = map f l.
Proof.
  revert i. induction l as [|x l IH]; intros i Hl Hf; [reflexivity|].
  destruct i as [|i].
  - cbn in Hl |- *. injection Hl as ->. rewrite Hf. reflexivity.
  - change (<[S i := a']> (x :: l)) with (x :: <[i := a']> l).
    change ((x :: l) !! S i) with (l !! i) in Hl.
    cbn [map]. rewrite (IH i Hl Hf). reflexivity.
Qed.

Lemma applyAlternative_hunks (m m' : AbsorbReviewModel) :
  applyAlternative m = Ok m' -> sliceOk m ->
  reviewHunks m' = reviewHunks m /\ sliceOk m'.
Proof.
  unfold applyAlternative, sliceOk. intros H Hok.
  destruct (0 <? selectedAlt m);
    [|injection H as <-; split; [reflexivity | exact Hok]].
  destruct (assignmentAt m (currentIndex m)) as [cur|] eqn:Ha; [|discriminate H].
  destruct (selectedAlt m <=? Z.of_nat (length (ha_Alternatives cur)));
    [|injection H as <-; split; [reflexivity | exact Hok]].
  destruct (ha_Alternatives cur !! Z.to_nat (selectedAlt m - 1)) as [alt|];
    [|discriminate H].
  injection H as <-. apply assignmentAt_Some in Ha as (H0 & Ha & Hi).
  unfold reviewHunks, elems in *. cbn [assignments unmatched array len].
  rewrite length_insert. split; [|exact Hok].
  rewrite take_insert_lt by exact Hi.
  erewrite map_insert_same; [reflexivity | exact Ha | reflexivity].
Qed.

Ltac review_branches H :=
  repeat match type of H with
         | (if ?c then _ else _) = _ => destruct c
         | match ?x with _ => _ end = _ => destruct x eqn:?
         end;
  try discriminate H.

Lemma Update_hunks (m m' : AbsorbReviewModel) (msg : Msg) (quit : bool) :
  Update m msg = Ok (m', quit) -> sliceOk m ->
  reviewHunks m' ≡ₚ reviewHunks m /\ sliceOk m'.
Proof.
  intros H Hok. destruct msg as [w h|name|]; cbn [Update] in H.
  - injection H as <- <-. split; [reflexivity | exact Hok].
  - destruct (String.eqb (mode m) "review").
    + unfold updateReview in H.
      destruct (key_in name keys_Accept);
        [injection H as <- <-; split; [reflexivity | exact Hok]|].
      destruct (key_in name keys_Cancel);
        [injection H as <- <-; split; [reflexivity | exact Hok]|].
      destruct (key_in name keys_NextHunk).
      { destruct (_ <? _); injection H as <- <-;
          (split; [reflexivity | exact Hok]). }
      destruct (key_in name keys_PrevHunk).
      { destruct (_ <? _); injection H as <- <-;
          (split; [reflexivity | exact Hok]). }
      destruct (key_in name keys_Alternatives).
      { destruct (_ <? _); [|injection H as <- <-; split; [reflexivity | exact Hok]].
        destruct (assignmentAt m (currentIndex m)); [|discriminate H].
        destruct (Nat.ltb _ _); injection H as <- <-;
          (split; [reflexivity | exact Hok]). }
      destruct (key_in name keys_Unassign).
      { destruct (unassign m) as [m1| |] eqn:E; try discriminate H.
        injection H as <- <-. apply (unassign_hunks _ _ E Hok). }
      destruct (key_in name keys_Up);
        [injection H as <- <-; split; [reflexivity | exact Hok]|].
      destruct (key_in name keys_Down);
        [injection H as <- <-; split; [reflexivity | exact Hok]|].
      destruct (String.eqb name "ctrl+c"); injection H as <- <-;
        (split; [reflexivity | exact Hok]).
    + destruct (String.eqb (mode m) "alternatives");
        [|injection H as <- <-; split; [reflexivity | exact Hok]].
      unfold updateAlternatives in H.
      destruct (key_in name ["up"; "k"]).
      { destruct (_ <? _); injection H as <- <-;
          (split; [reflexivity | exact Hok]). }
      destruct (key_in name ["down"; "j"]).
      { destruct (assignmentAt m (currentIndex m)); [|discriminate H].
        destruct (_ <? _); injection H as <- <-;
          (split; [reflexivity | exact Hok]). }
      destruct (String.eqb name "enter").
      { destruct (applyAlternative m) as [m1| |] eqn:E; try discriminate H.
        injection H as <- <-.
        destruct (applyAlternative_hunks _ _ E Hok) as [-> Hok'].
        split; [reflexivity | exact Hok']. }
      destruct (key_in name ["q"; "esc"]); injection H as <- <-;
        (split; [reflexivity | exact Hok]).
  - injection H as <- <-. split; [reflexivity | exact Hok].
Qed.

Lemma runReview_hunks (msgs : list Msg) (m m' : AbsorbReviewModel) :
  runReview m msgs = Ok (Some m') -> sliceOk m ->
  reviewHunks m' ≡ₚ reviewHunks m.
Proof.
  revert m. induction msgs as [|msg msgs IH]; intros m H Hok; [discriminate H|].
  cbn [runReview] in H.
  destruct (Update m msg) as [[m1 [|]]| |] eqn:E; try discriminate H.
  - injection H as <-. apply (Update_hunks _ _ _ _ E Hok).
  - destruct (Update_hunks _ _ _ _ E Hok) as [Hp Hok1].
    rewrite <- Hp. apply (IH m1 H Hok1).
Qed.

(** X16. The review neither loses nor duplicates a hunk: whatever keys
    are pressed, the model the review ends with holds the hunks of the
    response it was given, each as often as before, among its assignments
    or its unmatched hunks; and so does a modified response when
    [GetResult] returns one. *)
Theorem review_keeps_hunks (resp : AbsorbResponse) (cs : list CommitInfo)
  (msgs : list Msg) (m : AbsorbReviewModel) (acc : bool)
  (modified : option AbsorbResponse) :
  ShowAbsorbReview resp cs msgs = Ok (Some (m, acc, modified)) ->
  reviewHunks m ≡ₚ responseHunks resp
  /\ (forall r, modified = Some r -> responseHunks r ≡ₚ responseHunks resp).
Proof.
  unfold ShowAbsorbReview. intros H.
  destruct (runReview _ msgs) as [[m1|]| |] eqn:E; try discriminate H.
  injection H as <- <- <-.
  assert (Hm : reviewHunks m1 ≡ₚ responseHunks resp).
  { rewrite (runReview_hunks _ _ _ E).
    - unfold reviewHunks, responseHunks, NewAbsorbReviewModel, elems.
      cbn [assignments unmatched array len]. rewrite firstn_all. reflexivity.
    - unfold sliceOk, NewAbsorbReviewModel. cbn [assignments array len]. lia. }
  split; [exact Hm|]. intros r Hr. unfold GetResult in Hr.
  destruct (cancelled m1); [discriminate Hr|].
  destruct (negb (accepted m1)); [discriminate Hr|].
  destruct (Nat.ltb 0 (size (modifications m1))); [|discriminate Hr].
  injection Hr as <-. exact Hm.
Qed.

Lemma review_keeps_hunks_witness :
  exists m,
    ShowAbsorbReview reviewedResponse [commit1; commit2]
      [KeyMsg "a"; KeyMsg "down"; KeyMsg "enter"; KeyMsg "l"; KeyMsg "u"; KeyMsg "y"]
    = Ok (Some (m, true,
                Some (mkAbsorbResponse
                        [mkHunkAssignment hunkA (SHA commit2) "add b" (3 # 5)
                           "same file" (ha_Alternatives assignmentA)]
                        [hunkU; hunkB] 0 EmptyString)))
    /\ reviewHunks m ≡ₚ responseHunks reviewedResponse
    /\ (forall r,
          Some (mkAbsorbResponse
                  [mkHunkAssignment hunkA (SHA commit2) "add b" (3 # 5)
                     "same file" (ha_Alternatives assignmentA)]
                  [hunkU; hunkB] 0 EmptyString) = Some r ->
          responseHunks r ≡ₚ responseHunks reviewedResponse).
Proof.
  eexists. split; [vm_compute; reflexivity|].
  eapply (review_keeps_hunks reviewedResponse [commit1; commit2]
            [KeyMsg "a"; KeyMsg "down"; KeyMsg "enter"; KeyMsg "l"; KeyMsg "u";
             KeyMsg "y"]).
  vm_compute. reflexivity.
Defined.


Lemma unassign_index (m m' : AbsorbReviewModel) :
  unassign m = Ok m' -> indexInRange m -> indexInRange m'.
Proof.
  unfold unassign, indexInRange. intros H [H0 Hr].
  destruct (Z.ltb_spec (currentIndex m) (Z.of_nat (len (assignments m))))
    as [Hlt|Hge]; [|injection H as <-; split; assumption].
  destruct (assignmentAt m (currentIndex m)) as [a|]; [|discriminate H].
  injection H as <-. cbn [currentIndex assignments].
  unfold removeAt. cbn [len].
  destruct (Z.leb_spec (Z.of_nat (len (assignments m) - 1)) (currentIndex m));
    destruct (Z.ltb_spec 0 (currentIndex m)); cbn [andb]; lia.
Qed.

Lemma applyAlternative_index (m m' : AbsorbReviewModel) :
  applyAlternative m = Ok m' -> indexInRange m -> indexInRange m'.
Proof.
  unfold applyAlternative, indexInRange. intros H Hin.
  destruct (0 <? selectedAlt m); [|injection H as <-; exact Hin].
  destruct (assignmentAt m (currentIndex m)) as [cur|]; [|discriminate H].
  destruct (selectedAlt m <=? Z.of_nat (length (ha_Alternatives cur)));
    [|injection H as <-; exact Hin].
  destruct (ha_Alternatives cur !! Z.to_nat (selectedAlt m - 1)) as [alt|];
    [|discriminate H].
  injection H as <-. exact Hin.
Qed.

Lemma Update_index (m m' : AbsorbReviewModel) (msg : Msg) (quit : bool) :
  Update m msg = Ok (m', quit) -> indexInRange m -> indexInRange m'.
Proof.
  intros H Hin. destruct msg as [w h|name|]; cbn [Update] in H.
  - injection H as <- <-. exact Hin.
  - destruct (String.eqb (mode m) "review").
    + unfold updateReview in H.
      destruct (key_in name keys_Accept); [injection H as <- <-; exact Hin|].
      destruct (key_in name keys_Cancel); [injection H as <- <-; exact Hin|].
      destruct (key_in name keys_NextHunk).
      { destruct (Z.ltb_spec (currentIndex m) (Z.of_nat (len (assignments m)) - 1));
          injection H as <- <-; [|exact Hin].
        unfold indexInRange, set_nav in *. cbn [currentIndex assignments]. lia. }
      destruct (key_in name keys_PrevHunk).
      { destruct (Z.ltb_spec 0 (currentIndex m));
          injection H as <- <-; [|exact Hin].
        unfold indexInRange, set_nav in *. cbn [currentIndex assignments]. lia. }
      destruct (key_in name keys_Alternatives).
      { destruct (_ <? _); [|injection H as <- <-; exact Hin].
        destruct (assignmentAt m (currentIndex m)); [|discriminate H].
        destruct (Nat.ltb _ _); injection H as <- <-; exact Hin. }
      destruct (key_in name keys_Unassign).
      { destruct (unassign m) as [m1| |] eqn:E; try discriminate H.
        injection H as <- <-. apply (unassign_index _ _ E Hin). }
      destruct (key_in name keys_Up); [injection H as <- <-; exact Hin|].
      destruct (key_in name keys_Down); [injection H as <- <-; exact Hin|].
      destruct (String.eqb name "ctrl+c"); injection H as <- <-; exact Hin.
    + destruct (String.eqb (mode m) "alternatives");
        [|injection H as <- <-; exact Hin].
      unfold updateAlternatives in H.
      destruct (key_in name ["up"; "k"]).
      { destruct (_ <? _); injection H as <- <-; exact Hin. }
      destruct (key_in name ["down"; "j"]).
      { destruct (assignmentAt m (currentIndex m)); [|discriminate H].
        destruct (_ <? _); injection H as <- <-; exact Hin. }
      destruct (String.eqb name "enter").
      { destruct (applyAlternative m) as [m1| |] eqn:E; try discriminate H.
        injection H as <- <-. apply (applyAlternative_index _ _ E Hin). }
      destruct (key_in name ["q"; "esc"]); injection H as <- <-; exact Hin.
  - injection H as <- <-. exact Hin.
Qed.

Lemma runReview_index (msgs : list Msg) (m m' : AbsorbReviewModel) :
  runReview m msgs = Ok (Some m') -> indexInRange m -> indexInRange m'.
Proof.
  revert m. induction msgs as [|msg msgs IH]; intros m H Hin; [discriminate H|].
  cbn [runReview] in H.
  destruct (Update m msg) as [[m1 [|]]| |] eqn:E; try discriminate H.
  - injection H as <-. apply (Update_index _ _ _ _ E Hin).
  - apply (IH m1 H). apply (Update_index _ _ _ _ E Hin).
Qed.

(** X17. The selection never leaves the list of assignments: whatever keys
    are pressed, the current index of the model the review ends with is
    not negative and below the number of assignments left, or 0 when none
    is left. *)
Theorem review_index_in_range (resp : AbsorbResponse) (cs : list CommitInfo)
  (msgs : list Msg) (m : AbsorbReviewModel) (acc : bool)
  (modified : option AbsorbResponse) :
  ShowAbsorbReview resp cs msgs = Ok (Some (m, acc, modified)) ->
  indexInRange m.
Proof.
  unfold ShowAbsorbReview. intros H.
  destruct (runReview _ msgs) as [[m1|]| |] eqn:E; try discriminate H.
  injection H as <- <- <-.
  apply (runReview_index _ _ _ E).
  unfold indexInRange, NewAbsorbReviewModel. cbn [currentIndex]. lia.
Qed.

Lemma review_index_in_range_witness :
  exists m,
    ShowAbsorbReview reviewedResponse [commit1; commit2]
      [KeyMsg "l"; KeyMsg "l"; KeyMsg "u"; KeyMsg "u"; KeyMsg "u"; KeyMsg "y"]
    = Ok (Some (m, true, None))
    /\ currentIndex m = 0 /\ len (assignments m) = 0%nat
    /\ indexInRange m.
Proof.
  eexists. split; [reflexivity|]. split; [reflexivity|]. split; [reflexivity|].
  eapply (review_index_in_range reviewedResponse [commit1; commit2]
            [KeyMsg "l"; KeyMsg "l"; KeyMsg "u"; KeyMsg "u"; KeyMsg "u"; KeyMsg "y"]).
  reflexivity.
Defined.


(** X18. Applying an alternative and accepting returns a modified
    response: with the alternatives of an assignment shown and one of them
    selected, [enter] and then [y] make [GetResult] return a response in
    which this assignment has the commit, the message, the confidence and
    the reasoning of the alternative, and its hunk and its alternatives as
    before; the other assignments and the unmatched hunks are unchanged.
    The returned response names no model and counts no tokens. *)
Theorem chosen_alternative_is_returned (m : AbsorbReviewModel) (i k : nat)
  (cur : HunkAssignment) (alt : AlternativeAssignment) :
  mode m = "alternatives" -> sliceOk m -> cancelled m = false ->
  currentIndex m = Z.of_nat i -> elems (assignments m) !! i = Some cur ->
  selectedAlt m = Z.of_nat (S k) -> ha_Alternatives cur !! k = Some alt ->
  exists m1 m2,
    Update m (KeyMsg "enter") = Ok (m1, false)
    /\ Update m1 (KeyMsg "y") = Ok (m2, true)
    /\ GetResult m2
       = (true,
          Some (mkAbsorbResponse
                  (<[i := mkHunkAssignment (ha_Hunk cur) (alt_CommitSHA alt)
                            (alt_CommitMessage alt) (alt_Confidence alt)
                            (alt_Reasoning alt) (ha_Alternatives cur)]>
                     (elems (assignments m)))
                  (unmatched m) 0 EmptyString)).
Proof.
  intros Hmode Hok Hcanc Hidx Hcur Hsel Halt.
  assert (Hi : (i < len (assignments m))%nat).
  { apply lookup_lt_Some in Hcur. unfold elems in Hcur.
    rewrite length_take in Hcur. lia. }
  assert (Happly : applyAlternative m
            = Ok (mkAbsorbReviewModel
                    (mkSlice (<[i := mkHunkAssignment (ha_Hunk cur)
                                       (alt_CommitSHA alt) (alt_CommitMessage alt)
                                       (alt_Confidence alt) (alt_Reasoning alt)
                                       (ha_Alternatives cur)]>
                                (array (assignments m)))
                             (len (assignments m)))
                    (unmatched m) (commits m) (currentIndex m)
                    (showAlternatives m) (selectedAlt m) (width m) (height m)
                    (ready m) (accepted m) (cancelled m) "review"
                    (<[currentIndex m := alt_CommitSHA alt]> (modifications m)))).
  { unfold applyAlternative, assignmentAt. rewrite Hsel, Hidx.
    replace (0 <? Z.of_nat (S k)) with true by (symmetry; apply Z.ltb_lt; lia).
    replace (Z.of_nat i <? 0) with false by (symmetry; apply Z.ltb_ge; lia).
    rewrite Nat2Z.id, Hcur.
    assert (Hk : (k < length (ha_Alternatives cur))%nat)
      by (apply lookup_lt_Some in Halt; exact Halt).
    replace (Z.of_nat (S k) <=? Z.of_nat (length (ha_Alternatives cur)))
      with true by (symmetry; apply Z.leb_le; lia).
    replace (Z.to_nat (Z.of_nat (S k) - 1)) with k by lia.
    rewrite Halt. reflexivity. }
  eexists _, _. split; [|split].
  - cbn [Update]. rewrite Hmode.
    change (String.eqb "alternatives" "review") with false.
    change (String.eqb "alternatives" "alternatives") with true.
    cbv iota. unfold updateAlternatives.
    change (key_in "enter" ["up"; "k"]) with false.
    change (key_in "enter" ["down"; "j"]) with false.
    change (String.eqb "enter" "enter") with true. cbv iota.
    rewrite Happly. reflexivity.
  - reflexivity.
  - unfold GetResult, set_done.
    cbn [cancelled accepted modifications assignments unmatched negb].
    rewrite Hcanc. cbn [negb].
    assert (E : Nat.ltb 0 (size (<[currentIndex m := alt_CommitSHA alt]>
                                    (modifications m))) = true).
    { apply Nat.ltb_lt.
      pose proof (proj2 (map_size_non_empty_iff
                           (<[currentIndex m := alt_CommitSHA alt]> (modifications m)))
                    (insert_non_empty _ _ _)).
      lia. }
    rewrite E. unfold elems. cbn [array len].
    rewrite take_insert_lt by exact Hi. reflexivity.
Qed.

Lemma chosen_alternative_is_returned_witness :
  exists m1 m2,
    Update (set_nav (NewAbsorbReviewModel reviewedResponse [commit1; commit2])
              0 "alternatives" 1) (KeyMsg "enter") = Ok (m1, false)
    /\ Update m1 (KeyMsg "y") = Ok (m2, true)
    /\ GetResult m2
       = (true,
          Some (mkAbsorbResponse
                  [ mkHunkAssignment hunkA (SHA commit2) "add b" (3 # 5)
                      "same file" (ha_Alternatives assignmentA);
                    assignmentB ]
                  [hunkU] 0 EmptyString)).
Proof.
  apply (chosen_alternative_is_returned
           (set_nav (NewAbsorbReviewModel reviewedResponse [commit1; commit2])
              0 "alternatives" 1) 0 0 assignmentA
           (mkAlternativeAssignment (SHA commit2) "add b" (3 # 5) "same file"));
    try reflexivity.
  unfold sliceOk. cbn. lia.
Defined.

(** ** Fixups, undo, the undo record and backups *)

Lemma run_extends {A : Type} (env : Env) (p : Prog A) (hist : list Event) :
  exists evs, snd (run env hist p) = hist ++ evs.
Proof.
  revert hist. induction p as [a|X e k IH]; intros hist.
  - exists []. cbn. rewrite app_nil_r. reflexivity.
  - cbn [run]. destruct (IH (env X hist e) (hist ++ [Ev e (env X hist e)]))
      as [evs Hevs].
    exists (Ev e (env X hist e) :: evs). rewrite Hevs, <- app_assoc. reflexivity.
Qed.

(** X19. [ApplyHunksAsFixup] leaves no patch file behind. When the
    temporary patch file cannot be created, the call returns that error
    and does nothing else; when it is created, the last thing the call
    does, whatever failed in between, is to remove it. *)
Theorem patch_file_always_removed (env : Env) (hs : list Hunk)
  (targetSHA : string) (hist : list Event) :
  hs <> [] ->
  match env _ hist (CreatePatchFile hs) with
  | None =>
      run env hist (ApplyHunksAsFixup hs targetSHA)
      = (Err "failed to create patch file",
         hist ++ [Ev (CreatePatchFile hs) None])
  | Some patch =>
      last (snd (run env hist (ApplyHunksAsFixup hs targetSHA)))
      = Some (Ev (OsRemove patch) tt)
  end.
Proof.
  intros Hne. destruct hs as [|h hs]; [congruence|].
  unfold ApplyHunksAsFixup. cbn [run mbind prog_bind bind call].
  destruct (env (option string) hist (CreatePatchFile (h :: hs))) as [patch|];
    [|reflexivity].
  change (bind (applyPatch (h :: hs) targetSHA patch) ?f)
    with (applyPatch (h :: hs) targetSHA patch ≫= f).
  rewrite run_bind. cbn [run mbind prog_bind bind call snd].
  destruct (env unit _ (OsRemove patch)). apply last_snoc.
Qed.

Lemma patch_file_always_removed_witness :
  last (snd (run applyFailsEnv [] (ApplyHunksAsFixup [hunkA] (SHA commit1))))
  = Some (Ev (OsRemove "/tmp/cmt-absorb-1.patch") tt).
Proof.
  apply (patch_file_always_removed applyFailsEnv [hunkA] (SHA commit1) []).
  discriminate.
Defined.


Lemma commitHunks_fold (asgs : list HunkAssignment)
  (m : gmap string (list Hunk)) (sha : string) :
  fold_left
    (fun (m : gmap string (list Hunk)) a =>
       <[ha_CommitSHA a := default [] (m !! ha_CommitSHA a) ++ [ha_Hunk a]]> m)
    asgs m !! sha
  = match hunksFor sha asgs with
    | [] => m !! sha
    | hs => Some (default [] (m !! sha) ++ hs)
    end.
Proof.
  revert m. induction asgs as [|a asgs IH]; intros m; [reflexivity|].
  cbn [fold_left]. rewrite IH. unfold hunksFor. rewrite filter_cons.
  destruct (decide (ha_CommitSHA a = sha)) as [<-|Hne].
  - rewrite lookup_insert_eq. cbn [map].
    destruct (map ha_Hunk (filter _ asgs)) as [|h hs'].
    + reflexivity.
    + unfold default at 1. cbn [from_option id].
      rewrite <- app_assoc. reflexivity.
  - rewrite lookup_insert_ne by exact Hne. reflexivity.
Qed.

(** X20. Step 10 of [runAbsorb] groups the hunks by target: the map it
    builds holds, for every commit that some assignment targets, the
    hunks of the assignments with this target, in the order of the
    assignments, and no entry for any other commit. So every target gets
    one call of [ApplyHunksAsFixup] with all its hunks. *)
Theorem commitHunksOf_lookup (asgs : list HunkAssignment) (sha : string) :
  commitHunksOf asgs !! sha
  = match hunksFor sha asgs with
    | [] => None
    | hs => Some hs
    end.
Proof.
  unfold commitHunksOf. rewrite commitHunks_fold.
  destruct (hunksFor sha asgs); reflexivity.
Qed.


Lemma patched_app (a b : list Event) : patched (a ++ b) = patched a ++ patched b.
Proof.
  induction a as [|[X e x] a IH]; [reflexivity|].
  destruct e; cbn [app patched]; rewrite IH; reflexivity.
Qed.

Lemma restoreEvents_quiet (hs : list Hunk) (outs : list bool) :
  patched (restoreEvents hs outs) = [] /\ printed (restoreEvents hs outs) = [].
Proof.
  unfold restoreEvents. revert outs.
  induction hs as [|h hs IH]; intros [|o outs]; try (split; reflexivity).
  cbn [zip_with patched printed]. apply IH.
Qed.

Lemma commitRun_quiet (targetSHA : string) (res : Res unit) (evs : list Event) :
  commitRun targetSHA res evs -> patched evs = [] /\ printed evs = [].
Proof.
  intros [[-> _]|(message & ok & -> & _)]; split; reflexivity.
Qed.

Lemma ApplyHunksAsFixup_seen (env : Env) (hs : list Hunk) (targetSHA : string)
  (hist : list Event) :
  hs <> [] ->
  patched (snd (run env hist (ApplyHunksAsFixup hs targetSHA)))
  = patched hist ++ [hs]
  /\ printed (snd (run env hist (ApplyHunksAsFixup hs targetSHA)))
     = printed hist.
Proof.
  intros Hne. destruct hs as [|h hs]; [congruence|].
  unfold ApplyHunksAsFixup. cbn [run mbind prog_bind bind call].
  destruct (env (option string) hist (CreatePatchFile (h :: hs))) as [patch|].
  - change (bind (applyPatch (h :: hs) targetSHA patch) ?f)
      with (applyPatch (h :: hs) targetSHA patch ≫= f).
    rewrite run_bind. cbn [run mbind prog_bind bind call snd].
    rewrite patched_app, printed_app. cbn [patched printed].
    rewrite !app_nil_r.
    destruct (applyPatch_run env (h :: hs) targetSHA patch
                (hist ++ [Ev (CreatePatchFile (h :: hs)) (Some patch)]))
      as [(outs & done & h' & rest & _ & _ & _ & -> & _)
         |(outs & applied & evs & _ & -> & Hafter)].
    + rewrite !patched_app, !printed_app.
      destruct (restoreEvents_quiet (h :: hs) (outs ++ [false])) as [-> ->].
      cbn [patched printed]. rewrite !app_nil_r. split; reflexivity.
    + rewrite !patched_app, !printed_app.
      destruct (restoreEvents_quiet (h :: hs) outs) as [-> ->].
      cbn [patched printed app].
      assert (Hq : patched evs = [] /\ printed evs = []).
      { destruct Hafter as [(_ & -> & _)|(_ & Hc)];
          [split; reflexivity | apply (commitRun_quiet _ _ _ Hc)]. }
      destruct Hq as [-> ->]. rewrite !app_nil_r. split; reflexivity.
  - cbn [run snd]. rewrite patched_app, printed_app. cbn [patched printed].
    rewrite app_nil_r. split; reflexivity.
Qed.

(** X21. When step 10 of [runAbsorb] goes through, every target has been
    handled exactly once: the loop asked for one patch file per entry of
    the map, with the hunks of that entry and in the order the map was
    enumerated, and printed one line per entry. *)
Theorem fixups_all_created (env : Env) (entries : list (string * list Hunk))
  (hist tr : list Event) :
  run env hist (createFixups entries) = (Ok tt, tr) ->
  patched tr = patched hist ++ map snd entries
  /\ printed tr = printed hist ++ map createdLine entries.
Proof.
  revert hist. induction entries as [|[sha hs] entries IH]; intros hist H.
  - cbn in H. injection H as <-. cbn [map]. rewrite !app_nil_r.
    split; reflexivity.
  - rewrite createFixups_cons in H. cbv zeta in H.
    destruct (fst (run env hist (ApplyHunksAsFixup hs sha))) as [[]|m|] eqn:E.
    + assert (Hne : hs <> []).
      { intros ->. cbn in E. discriminate E. }
      destruct (ApplyHunksAsFixup_seen env hs sha hist Hne) as [Hp Hq].
      destruct (Nat.ltb (String.length sha) 8); [discriminate H|].
      destruct (IH _ H) as [Hp' Hq'].
      rewrite Hp', Hq', patched_app, printed_app, Hp, Hq.
      cbn [patched printed map snd createdLine fst].
      rewrite <- !app_assoc. split; reflexivity.
    + destruct (Nat.ltb (String.length sha) 8); discriminate H.
    + discriminate H.
Qed.

Lemma fixups_all_created_witness :
  exists tr,
    run diskEnv [] (createFixups sampleEntries) = (Ok tt, tr)
    /\ patched tr = patched [] ++ map snd sampleEntries
    /\ printed tr = printed [] ++ map createdLine sampleEntries.
Proof.
  eexists. split; [vm_compute; reflexivity|].
  apply (fixups_all_created diskEnv sampleEntries []). vm_compute. reflexivity.
Defined.


Lemma undo_runs (env : Env) (repo : Repository) (hist : list Event) :
  (exists m evs,
     run env hist (UndoAbsorb repo) = (Err m, hist ++ evs)
     /\ (evs = [] \/ exists path file, evs = [Ev (OsOpen path) file]))
  \/ (exists evs, run env hist (UndoAbsorb repo) = (Panic, hist ++ evs)
                  /\ exists path file, evs = [Ev (OsOpen path) file])
  \/ (exists root text st switched reset popped deleted,
        RootPath repo = Some root
        /\ parseAbsorbState text = Ok st
        /\ BackupRef st <> EmptyString
        /\ run env hist (UndoAbsorb repo)
           = (undoResult switched reset,
              hist ++ undoEvents root text st switched reset popped deleted)).
Proof.
  unfold UndoAbsorb, LoadAbsorbState, StashPop, DeleteBackupRef.
  destruct (RootPath repo) as [root|];
    [|left; exists "failed to get repository root", []; cbn;
      rewrite app_nil_r; split; [reflexivity | left; reflexivity]].
  cbn [run mbind prog_bind bind call app default].
  destruct (env FileRead hist (OsOpen (stateFile root))) as [text| |] eqn:Hopen.
  2: { left. eexists _, _. split; [reflexivity|]. right. eexists _, _. reflexivity. }
  2: { left. eexists _, _. split; [reflexivity|]. right. eexists _, _. reflexivity. }
  cbn [run mbind prog_bind bind call app].
  destruct (parseAbsorbState text) as [st| |] eqn:Hparse.
  2: { left. eexists _, _. split; [reflexivity|]. right. eexists _, _. reflexivity. }
  2: { right. left. eexists. split; [reflexivity|]. eexists _, _. reflexivity. }
  destruct (String.eqb_spec (BackupRef st) EmptyString) as [Hempty|Hbackup].
  { left. eexists _, _. split; [reflexivity|]. right. eexists _, _. reflexivity. }
  right. right. exists root, text, st.
  cbn [run mbind prog_bind bind call app].
  unfold undoEvents, undoResult.
  destruct (env bool _ (GitCheckout (CurrentBranch st))).
  2: { exists false, false, false, false.
       repeat split; try assumption. cbn [run]. rewrite <- app_assoc. reflexivity. }
  cbn [run mbind prog_bind bind call app].
  destruct (env bool _ (GitResetMixed (BackupRef st))).
  2: { exists true, false, false, false.
       repeat split; try assumption. cbn [run]. rewrite <- !app_assoc. reflexivity. }
  destruct (String.eqb (StashSHA st) EmptyString).
  { cbn [run mbind prog_bind bind call app].
    destruct (env bool _ (GitUpdateRefDelete (BackupRef st))) eqn:Hdel;
      cbn [run mbind prog_bind bind call app].
    - match goal with
      | |- context [env unit ?h ?e] => destruct (env unit h e)
      end.
      exists true, true, false, true.
      repeat split; try assumption. rewrite <- !app_assoc. reflexivity.
    - destruct (env unit _ (Print "Warning: Could not delete backup ref")).
      match goal with
      | |- context [env unit ?h ?e] => destruct (env unit h e)
      end.
      exists true, true, false, false.
      repeat split; try assumption. rewrite <- !app_assoc. reflexivity. }
  cbn [run mbind prog_bind bind call app].
  destruct (env bool _ GitStashPop).
  { cbn [run mbind prog_bind bind call app].
    destruct (env bool _ (GitUpdateRefDelete (BackupRef st))) eqn:Hdel;
      cbn [run mbind prog_bind bind call app].
    - match goal with
      | |- context [env unit ?h ?e] => destruct (env unit h e)
      end.
      exists true, true, true, true.
      repeat split; try assumption. rewrite <- !app_assoc. reflexivity.
    - destruct (env unit _ (Print "Warning: Could not delete backup ref")).
      match goal with
      | |- context [env unit ?h ?e] => destruct (env unit h e)
      end.
      exists true, true, true, false.
      repeat split; try assumption. rewrite <- !app_assoc. reflexivity. }
  cbn [run mbind prog_bind bind call app].
  destruct (env unit _ (Print "Warning: Could not restore stashed changes")).
  destruct (env unit _ (Print "   You may need to manually run: git stash pop")).
  destruct (env bool _ (GitUpdateRefDelete (BackupRef st))) eqn:Hdel;
    cbn [run mbind prog_bind bind call app].
  - match goal with
    | |- context [env unit ?h ?e] => destruct (env unit h e)
    end.
    exists true, true, false, true.
    repeat split; try assumption. rewrite <- !app_assoc. reflexivity.
  - destruct (env unit _ (Print "Warning: Could not delete backup ref")).
    match goal with
    | |- context [env unit ?h ?e] => destruct (env unit h e)
    end.
    exists true, true, false, false.
    repeat split; try assumption. rewrite <- !app_assoc. reflexivity.
Qed.

(** X22. An undo that fails has deleted nothing: when [UndoAbsorb]
    returns an error (no record, a record without backup reference, a
    failed checkout or a failed reset), it has neither deleted the backup
    reference nor removed the state file nor run [git stash pop], so the
    undo can be tried again. *)
Theorem failed_undo_deletes_nothing (env : Env) (repo : Repository)
  (hist tr : list Event) (res : Res unit) :
  run env hist (UndoAbsorb repo) = (res, tr) ->
  res <> Ok tt ->
  exists evs, tr = hist ++ evs /\ existsb destructive evs = false.
Proof.
  intros Hrun Hres.
  destruct (undo_runs env repo hist)
    as [(m & evs & E & Hevs)|[(evs & E & Hevs)
       |(root & text & st & switched & reset & popped & deleted & _ & _ & _ & E)]];
    rewrite E in Hrun; injection Hrun as <- <-.
  - exists evs. split; [reflexivity|].
    destruct Hevs as [->|(path & file & ->)]; reflexivity.
  - exists evs. split; [reflexivity|].
    destruct Hevs as (path & file & ->). reflexivity.
  - eexists. split; [reflexivity|]. unfold undoResult in Hres.
    destruct switched; [|reflexivity].
    destruct reset; [congruence | reflexivity].
Qed.

Lemma failed_undo_deletes_nothing_witness :
  exists evs,
    [ Ev (OsOpen "/work/repo/.git/cmt/absorb-undo") FileNotExist ] = [] ++ evs
    /\ existsb destructive evs = false.
Proof.
  apply (failed_undo_deletes_nothing diskEnv sampleRepo [] _
           (Err "no absorb state found to undo"));
    [reflexivity | discriminate].
Defined.

(** X23. [git stash pop] is run only for a record that names a stash:
    when an undo runs it, the record it loaded from the state file has a
    [stash_sha]. *)
Theorem undo_pops_recorded_stash_only (env : Env) (repo : Repository)
  (tr : list Event) (res : Res unit) (ok : bool) :
  run env [] (UndoAbsorb repo) = (res, tr) ->
  In (Ev GitStashPop ok) tr ->
  exists path text st,
    In (Ev (OsOpen path) (FileContent text)) tr
    /\ parseAbsorbState text = Ok st
    /\ StashSHA st <> EmptyString.
Proof.
  intros Hrun Hin.
  destruct (undo_runs env repo [])
    as [(m & evs & E & Hevs)|[(evs & E & Hevs)
       |(root & text & st & switched & reset & popped & deleted & _ & Hp & _ & E)]];
    rewrite E in Hrun; injection Hrun as <- <-; cbn [app] in Hin.
  - destruct Hevs as [->|(path & file & ->)]; cbn in Hin;
      [destruct Hin | destruct Hin as [Hin|[]]; discriminate Hin].
  - destruct Hevs as (path & file & ->). cbn in Hin.
    destruct Hin as [Hin|[]]; discriminate Hin.
  - exists (stateFile root), text, st.
    split; [left; reflexivity|]. split; [exact Hp|].
    intros Hs. unfold undoEvents in Hin. rewrite Hs in Hin.
    change (String.eqb EmptyString EmptyString) with true in Hin.
    cbn [app] in Hin.
    destruct switched, reset, deleted; cbn in Hin;
      repeat (destruct Hin as [Hin|Hin]; [discriminate Hin|]); exact Hin.
Qed.

Lemma undo_pops_recorded_stash_only_witness :
  exists path text st,
    In (Ev (OsOpen path) (FileContent text))
       (undoDespiteStash "/work/repo" (renderAbsorbState sampleState)
          sampleState true)
    /\ parseAbsorbState text = Ok st
    /\ StashSHA st <> EmptyString.
Proof.
  apply (undo_pops_recorded_stash_only stashFailsEnv sampleRepo _ (Ok tt) false);
    [vm_compute; reflexivity | vm_compute; auto 10].
Defined.

Lemma diskLookup_app (a b : list Event) (path : string) (cur : FileRead) :
  diskLookup (a ++ b) path cur = diskLookup b path (diskLookup a path cur).
Proof.
  revert cur. induction a as [|[X e x] a IH]; intros cur; [reflexivity|].
  destruct e; cbn [app diskLookup]; try apply IH.
  destruct x; apply IH.
Qed.

(** After an undo that went through, on a disk that keeps what is written
    to it, the state file is gone: the next [UndoAbsorb] opens it in vain
    and stops. *)
Lemma second_undo_run (env : Env) (repo : Repository) (hist tr : list Event) :
  diskBacked env ->
  run env hist (UndoAbsorb repo) = (Ok tt, tr) ->
  exists root,
    RootPath repo = Some root
    /\ run env tr (UndoAbsorb repo)
       = (Err "no absorb state found to undo",
          tr ++ [Ev (OsOpen (stateFile root)) FileNotExist]).
Proof.
  intros Hdisk Hrun.
  destruct (undo_runs env repo hist)
    as [(m & evs & E & _)|[(evs & E & _)
       |(root & text & st & switched & reset & popped & deleted & Hroot & _ & _ & E)]];
    rewrite E in Hrun; try discriminate Hrun.
  injection Hrun as Hres <-. unfold undoResult in Hres.
  destruct switched; [|discriminate Hres]. destruct reset; [|discriminate Hres].
  exists root. split; [exact Hroot|].
  assert (Hlast : exists front,
            hist ++ undoEvents root text st true true popped deleted
            = front ++ [Ev (OsRemove (stateFile root)) tt]).
  { unfold undoEvents.
    set (pop := if String.eqb (StashSHA st) EmptyString then [] else _).
    set (warn := if deleted then [] else _).
    exists (hist
            ++ [ Ev (OsOpen (stateFile root)) (FileContent text);
                 Ev (GitCheckout (CurrentBranch st)) true;
                 Ev (GitResetMixed (BackupRef st)) true ]
            ++ pop ++ [Ev (GitUpdateRefDelete (BackupRef st)) deleted] ++ warn).
    cbn [app]. rewrite <- !app_assoc. cbn [app].
    rewrite <- !app_assoc. reflexivity. }
  destruct Hlast as [front Hfront].
  unfold UndoAbsorb, LoadAbsorbState. rewrite Hroot.
  cbn [run mbind prog_bind bind call].
  rewrite (Hdisk _ (stateFile root)), Hfront, diskLookup_app.
  cbn [diskLookup]. rewrite stateFile_eqb. reflexivity.
Qed.

(** X24. An undo cannot be repeated: once [UndoAbsorb] has gone through,
    on a disk that keeps what is written to it and removed from it and
    that no one else writes to, the state file is gone: another
    [UndoAbsorb] of the same repository returns "no absorb state found to
    undo" and changes nothing, making no checkout, no reset, no stash pop,
    no deletion of a reference and no removal of a file. *)
Theorem undo_only_once (env : Env) (repo : Repository) (hist tr : list Event) :
  diskBacked env ->
  run env hist (UndoAbsorb repo) = (Ok tt, tr) ->
  exists evs,
    run env tr (UndoAbsorb repo)
    = (Err "no absorb state found to undo", tr ++ evs)
    /\ existsb changing evs = false.
Proof.
  intros Hdisk Hrun.
  destruct (second_undo_run env repo hist tr Hdisk Hrun) as (root & _ & E).
  exists [Ev (OsOpen (stateFile root)) FileNotExist].
  split; [exact E | reflexivity].
Qed.

Lemma undo_only_once_witness :
  exists evs,
    run diskEnv
      (snd (run diskEnv [] (SaveAbsorbState sampleRepo sampleState ≫= fun _ =>
                            UndoAbsorb sampleRepo)))
      (UndoAbsorb sampleRepo)
    = (Err "no absorb state found to undo",
       snd (run diskEnv [] (SaveAbsorbState sampleRepo sampleState ≫= fun _ =>
                            UndoAbsorb sampleRepo))
       ++ evs)
    /\ existsb changing evs = false.
Proof.
  apply (undo_only_once diskEnv sampleRepo
           (snd (run diskEnv [] (SaveAbsorbState sampleRepo sampleState)))).
  - intros hist path. reflexivity.
  - vm_compute. reflexivity.
Defined.

(** X25. What [SaveAbsorbState] has written is what [LoadAbsorbState]
    reads next: after a save that returned no error, on a disk that keeps
    what is written to it, a load returns the saved record, whatever the
    state file held before. The text fields of the record have no newline
    and no carriage return at their end, and its lines fit the scanner's
    buffer. *)
Theorem load_after_save (env : Env) (repo : Repository) (st : AbsorbState)
  (hist tr : list Event) :
  diskBacked env ->
  savableState st = true ->
  run env hist (SaveAbsorbState repo st) = (Ok tt, tr) ->
  fst (run env tr (LoadAbsorbState repo)) = Ok st.
Proof.
  intros Hdisk Hsav Hrun. unfold SaveAbsorbState, LoadAbsorbState in *.
  destruct (RootPath repo) as [root|]; [|discriminate Hrun].
  cbn [run mbind prog_bind bind call] in Hrun.
  destruct (env bool hist (OsMkdirAll (cmtDir root))); [|discriminate Hrun].
  cbn [run mbind prog_bind bind call] in Hrun.
  destruct (env bool _ (OsCreate (stateFile root) (renderAbsorbState st)))
    eqn:Hc; [|discriminate Hrun].
  injection Hrun as <-.
  cbn [run mbind prog_bind bind call].
  rewrite (Hdisk _ (stateFile root)), diskLookup_app.
  cbn [diskLookup]. rewrite stateFile_eqb. cbn [run fst].
  apply parse_printed. exact Hsav.
Qed.

Lemma load_after_save_witness :
  fst (run diskEnv
         (snd (run diskEnv [] (SaveAbsorbState sampleRepo stateWithCR ≫= fun _ =>
                               SaveAbsorbState sampleRepo sampleState)))
         (LoadAbsorbState sampleRepo))
  = Ok sampleState.
Proof.
  apply (load_after_save diskEnv sampleRepo sampleState
           (snd (run diskEnv [] (SaveAbsorbState sampleRepo stateWithCR)))).
  - intros hist path. reflexivity.
  - vm_compute. reflexivity.
  - vm_compute. reflexivity.
Defined.


Lemma loadLine_skipped (st : AbsorbState) (l : string) :
  skippedLine l = true -> loadLine st l = st.
Proof.
  unfold skippedLine, loadLine.
  destruct (SplitN2 l "=") as [|key [|value [|x rest]]]; try reflexivity.
  intros H. apply negb_true_iff in H. cbn [existsb storedKeys] in H.
  repeat (apply orb_false_iff in H as [?E H]).
  rewrite E, E0, E1, E2, E3, E4. reflexivity.
Qed.

(** X26. [LoadAbsorbState] skips what it does not know: a line of the
    state file without [=], or with a key that is none of the six it
    stores (so also the [backup_branch] of older records), changes nothing
    in what is loaded. *)
Theorem unknown_lines_skipped (pre post : list string) (l : string) :
  forallb cleanLine (pre ++ l :: post) = true ->
  skippedLine l = true ->
  parseAbsorbState (unlines (pre ++ l :: post))
  = parseAbsorbState (unlines (pre ++ post)).
Proof.
  intros Hclean Hskip.
  assert (Hclean' : forallb cleanLine (pre ++ post) = true).
  { rewrite forallb_app in Hclean |- *. cbn [forallb] in Hclean.
    apply andb_true_iff in Hclean as [H1 H2].
    apply andb_true_iff in H2 as [_ H2]. rewrite H1, H2. reflexivity. }
  unfold parseAbsorbState.
  rewrite (scanner_run_unlines _ Hclean), (scanner_run_unlines _ Hclean').
  rewrite !fold_left_app. cbn [fold_left].
  rewrite (loadLine_skipped _ _ Hskip). reflexivity.
Qed.

Lemma unknown_lines_skipped_witness :
  parseAbsorbState
    (unlines ([ "original_head=4f2a9c1e"; "backup_ref=refs/cmt-backup/absorb-1" ]
              ++ "backup_branch=cmt-absorb-backup-1600000000"
                 :: [ "current_branch=main"; "timestamp=1700000000" ]))
  = parseAbsorbState
      (unlines ([ "original_head=4f2a9c1e"; "backup_ref=refs/cmt-backup/absorb-1" ]
                ++ [ "current_branch=main"; "timestamp=1700000000" ])).
Proof.
  apply (unknown_lines_skipped
           [ "original_head=4f2a9c1e"; "backup_ref=refs/cmt-backup/absorb-1" ]
           [ "current_branch=main"; "timestamp=1700000000" ]
           "backup_branch=cmt-absorb-backup-1600000000"); reflexivity.
Defined.


Lemma token_fits_short (s : string) :
  (String.length s <= 1000)%nat -> token_fits s = true.
Proof.
  intros H. unfold token_fits, MaxScanTokenSize. apply Z.ltb_lt. lia.
Qed.

Lemma savable_number_line (prefix pre post : string) (z : Z) :
  in_int64 z = true ->
  has_byte LF pre = false -> has_byte LF post = false ->
  ends_with CR post = false ->
  (String.length prefix + String.length pre + String.length post <= 900)%nat ->
  savable prefix (pre +:+ fmt_d z +:+ post) = true.
Proof.
  intros Hz Hpre Hpost Hcr Hlen. unfold savable.
  destruct (fmt_d_clean z) as [Hlf Hc].
  rewrite !has_byte_app, Hpre, Hlf, Hpost. cbn [orb negb andb].
  rewrite token_fits_short
    by (rewrite !str_length_app; pose proof (length_fmt_d z Hz); lia).
  rewrite andb_true_r. apply negb_true_iff.
  rewrite ends_with_app.
  destruct (fmt_d z +:+ post) eqn:E.
  - destruct (fmt_d z) eqn:E2; [destruct (fmt_d_nonempty z E2) | discriminate E].
  - rewrite <- E, ends_with_app. destruct post; [exact Hc | exact Hcr].
Qed.

(** X27. The record [runAbsorb] writes for undo is read back as it is.
    With the identifier of HEAD and the branch name as git prints them (no
    newline, no carriage return at the end, shorter than the scanner's
    buffer), the record of step 13, whose backup reference is the one of
    step 11, satisfies what [LoadAbsorbState] needs to read it back
    unchanged; it names a backup reference and no stash. *)
Theorem absorb_record_loads (headSHA : option string) (currentBranch : string)
  (clock backupTime now : Z) (fixups : nat) :
  match headSHA with
  | Some head => savable "original_head=" head = true
  | None => True
  end ->
  savable "current_branch=" currentBranch = true ->
  in_int64 backupTime = true -> in_int64 now = true ->
  in_int64 (Z.of_nat fixups) = true ->
  let st := absorbRecord headSHA (backupRefPath clock (backupName backupTime))
              currentBranch now fixups in
  parseAbsorbState (renderAbsorbState st) = Ok st
  /\ StashSHA st = EmptyString
  /\ BackupRef st <> EmptyString.
Proof.
  intros Hhead Hbranch Hbt Hnow Hfix st.
  assert (Href : forall prefix,
            (String.length prefix <= 100)%nat ->
            savable prefix (backupRefPath clock (backupName backupTime)) = true).
  { intros prefix Hp.
    replace (backupRefPath clock (backupName backupTime))
      with ("refs/cmt-backup/absorb-" +:+ fmt_d backupTime +:+ "")
      by (rewrite str_app_nil_r; reflexivity).
    apply savable_number_line; try reflexivity; try assumption.
    cbn [String.length]. lia. }
  split; [|split; [reflexivity | discriminate]].
  apply parse_printed. unfold savableState, st, absorbRecord.
  cbn [OriginalHEAD BackupRef CurrentBranch StashSHA Operations Timestamp forallb].
  rewrite Hbranch, Hnow, (Href "backup_ref=") by (cbn; lia).
  assert (E1 : savable "original_head="
                 (default (backupRefPath clock (backupName backupTime)) headSHA) = true).
  { destruct headSHA as [head|]; [exact Hhead | apply Href; cbn; lia]. }
  rewrite E1.
  assert (E2 : savable "operation="
                 ("Created " +:+ fmt_d (Z.of_nat fixups) +:+ " fixup commits") = true).
  { apply savable_number_line; try reflexivity; try assumption.
    cbn [String.length]. lia. }
  rewrite E2.
  assert (E3 : savable "operation="
                 ("Backup ref: " +:+ backupRefPath clock (backupName backupTime)) = true).
  { replace ("Backup ref: " +:+ backupRefPath clock (backupName backupTime))
      with ("Backup ref: refs/cmt-backup/absorb-" +:+ fmt_d backupTime +:+ "")
      by (rewrite str_app_nil_r; reflexivity).
    apply savable_number_line; try reflexivity; try assumption.
    cbn [String.length]. lia. }
  rewrite E3. reflexivity.
Qed.

Lemma absorb_record_loads_witness :
  parseAbsorbState
    (renderAbsorbState
       (absorbRecord (Some "4f2a9c1e") (backupRefPath 1700000001 (backupName 1700000000))
          "feature/x" 1700000002 2))
  = Ok (absorbRecord (Some "4f2a9c1e") (backupRefPath 1700000001 (backupName 1700000000))
          "feature/x" 1700000002 2)
  /\ StashSHA (absorbRecord (Some "4f2a9c1e")
                 (backupRefPath 1700000001 (backupName 1700000000)) "feature/x" 1700000002 2)
     = EmptyString
  /\ BackupRef (absorbRecord (Some "4f2a9c1e")
                  (backupRefPath 1700000001 (backupName 1700000000)) "feature/x" 1700000002 2)
     <> EmptyString.
Proof.
  apply (absorb_record_loads (Some "4f2a9c1e") "feature/x" 1700000001
           1700000000 1700000002 2); reflexivity.
Defined.






Lemma deletedRefs_app (a b : list Event) :
  deletedRefs (a ++ b) = deletedRefs a + deletedRefs b.
Proof.
  induction a as [|[X e x] a IH]; [cbn; lia|].
  destruct e; cbn [app deletedRefs]; try exact IH.
  destruct x; lia.
Qed.

Lemma cleanupLoop_count (env : Env) (active : string) (refs : list string)
  (n : Z) (hist : list Event) :
  exists evs,
    run env hist (cleanupLoop active refs n) = (n + deletedRefs evs, hist ++ evs).
Proof.
  revert n hist. induction refs as [|ref rest IH]; intros n hist.
  - exists []. cbn. rewrite app_nil_r, Z.add_0_r. reflexivity.
  - cbn [cleanupLoop]. destruct (String.eqb ref active).
    + rewrite run_bind, run_call. cbn [fst snd].
      destruct (env unit hist (Print _)).
      destruct (IH n (hist ++ [Ev (Print ("Skipping active backup: " +:+ refName ref)) tt]))
        as (evs & Hrun).
      exists (Ev (Print ("Skipping active backup: " +:+ refName ref)) tt :: evs).
      rewrite Hrun, <- app_assoc. reflexivity.
    + unfold DeleteBackupRef. rewrite !run_bind, run_call. cbn [fst snd run].
      destruct (env bool hist (GitUpdateRefDelete ref)) eqn:Hok.
      * rewrite run_bind, run_call. cbn [fst snd].
        destruct (env unit _ (Print _)).
        destruct (IH (n + 1)
                    ((hist ++ [Ev (GitUpdateRefDelete ref) true])
                     ++ [Ev (Print ("Deleted backup: " +:+ refName ref)) tt]))
          as (evs & Hrun).
        exists (Ev (GitUpdateRefDelete ref) true
                :: Ev (Print ("Deleted backup: " +:+ refName ref)) tt :: evs).
        rewrite Hrun, <- !app_assoc. cbn [app deletedRefs]. f_equal. lia.
      * rewrite run_bind, run_call. cbn [fst snd].
        destruct (env unit _ (Print _)).
        destruct (IH n
                    ((hist ++ [Ev (GitUpdateRefDelete ref) false])
                     ++ [Ev (Print ("Failed to delete ref " +:+ ref)) tt]))
          as (evs & Hrun).
        exists (Ev (GitUpdateRefDelete ref) false
                :: Ev (Print ("Failed to delete ref " +:+ ref)) tt :: evs).
        rewrite Hrun, <- !app_assoc. reflexivity.
Qed.

(** X29. [runCleanupBackups] counts what it deleted. Whenever the listing
    gives at least one reference the command succeeds, whatever the single
    deletions did, and the last line it prints is the summary for the
    number of deletions that succeeded: the number itself, or, when none
    succeeded, that no backup was deleted. *)
Theorem cleanup_reports_count (env : Env) (repo : Repository)
  (res : Res unit) (tr : list Event) :
  run env [] (runCleanupBackups repo) = (res, tr) ->
  listedRefs tr <> [] ->
  res = Ok tt
  /\ last (printed tr) = Some (cleanupSummary (deletedRefs tr)).
Proof.
  intros Hrun Hlisted.
  unfold runCleanupBackups in Hrun. rewrite run_bind in Hrun.
  set (active := match fst (run env [] (LoadAbsorbState repo)) with
                 | Ok state => BackupRef state
                 | _ => EmptyString
                 end) in Hrun.
  assert (Hload : exists load,
            snd (run env [] (LoadAbsorbState repo)) = load
            /\ deletedRefs load = 0
            /\ forall rest, listedRefs (load ++ rest) = listedRefs rest).
  { destruct (LoadAbsorbState_run env repo)
      as [[Hnil _]|(path & file & Hone & _)].
    - exists []. rewrite Hnil. repeat split.
    - exists [Ev (OsOpen path) file]. rewrite Hone. repeat split. }
  destruct Hload as (load & Hsnd & Hnone & Hpass).
  rewrite Hsnd in Hrun. clear Hsnd.
  unfold ListBackupRefs in Hrun. rewrite !run_bind, run_call in Hrun.
  cbn [fst snd run] in Hrun.
  destruct (env ShowRef load GitShowRef) as [refs| |] eqn:Hout.
  - destruct refs as [|ref rest].
    + rewrite run_bind, run_call in Hrun. cbn [fst snd run] in Hrun.
      injection Hrun as _ <-. rewrite <- app_assoc, Hpass in Hlisted.
      destruct Hlisted. reflexivity.
    + rewrite run_bind in Hrun.
      destruct (cleanupLoop_count env active (ref :: rest) 0
                  (load ++ [Ev GitShowRef (ShowRefOutput (ref :: rest))]))
        as (evs & Hloop).
      rewrite Hloop in Hrun. cbn [fst snd] in Hrun. rewrite Z.add_0_l in Hrun.
      assert (Hend : forall msg u,
                deletedRefs (((load ++ [Ev GitShowRef (ShowRefOutput (ref :: rest))])
                              ++ evs) ++ [Ev (Print msg) u])
                = deletedRefs evs
                /\ last (printed (((load ++ [Ev GitShowRef (ShowRefOutput (ref :: rest))])
                                   ++ evs) ++ [Ev (Print msg) u]))
                   = Some msg).
      { intros msg u. rewrite !deletedRefs_app, Hnone, printed_app.
        cbn [deletedRefs printed]. rewrite last_snoc. split; [lia | reflexivity]. }
      unfold cleanupSummary.
      destruct (deletedRefs evs =? 0) eqn:Hzero;
        rewrite run_bind, run_call in Hrun; cbn [fst snd run] in Hrun;
        injection Hrun as <- <-;
        match goal with
        | |- context [ [Ev (Print ?msg) ?u] ] => destruct (Hend msg u) as [Hd Hl]
        end;
        rewrite Hd, Hl, Hzero; split; reflexivity.
  - rewrite run_bind, run_call in Hrun. cbn [fst snd run] in Hrun.
    injection Hrun as _ <-. rewrite <- app_assoc, Hpass in Hlisted.
    destruct Hlisted. reflexivity.
  - cbn [run] in Hrun. injection Hrun as _ <-.
    rewrite Hpass in Hlisted. destruct Hlisted. reflexivity.
Qed.

Lemma cleanup_reports_count_witness :
  exists res tr,
    run partialEnv [] (runCleanupBackups sampleRepo) = (res, tr)
    /\ deletes tr = [(olderBackup, false); (secondBackup, true)]
    /\ res = Ok tt
    /\ last (printed tr) = Some "Cleaned up 1 backup(s)".
Proof.
  eexists _, _. split; [vm_compute; reflexivity|].
  split; [vm_compute; reflexivity|].
  apply (cleanup_reports_count partialEnv sampleRepo); [vm_compute; reflexivity|].
  vm_compute. discriminate.
Defined.


Lemma unlines_joinLF (l : string) (ls : list string) :
  unlines (l :: ls) = joinLF l ls +:+ String LF EmptyString.
Proof.
  revert l. induction ls as [|l' ls IH]; intros l; [reflexivity|].
  change (unlines (l :: l' :: ls)) with (l +:+ String LF (unlines (l' :: ls))).
  rewrite IH. cbn [joinLF]. rewrite str_app_assoc. reflexivity.
Qed.

Lemma has_space_LF (s : string) : has_space s = false -> has_byte LF s = false.
Proof.
  induction s as [|c s IH]; [reflexivity|]. simpl. intros H.
  apply orb_false_iff in H as [Hc Hs]. rewrite (IH Hs), orb_false_r.
  destruct (Ascii.eqb_spec c LF) as [->|]; [discriminate Hc | reflexivity].
Qed.

Lemma Split_joinLF (l : string) (ls : list string) :
  forallb (fun l => negb (has_byte LF l)) (l :: ls) = true ->
  Split (joinLF l ls) LF = l :: ls.
Proof.
  revert l. induction ls as [|l' ls IH]; intros l H;
    cbn [forallb] in H; apply andb_true_iff in H as [Hl Hls];
    apply negb_true_iff in Hl.
  - apply Split_nosep. exact Hl.
  - cbn [joinLF]. rewrite (Split_app_sep _ _ _ Hl), (IH _ Hls). reflexivity.
Qed.

Lemma ends_word_nonempty (s : string) : ends_word s = true -> s <> "".
Proof. destruct s; [discriminate | discriminate]. Qed.

Lemma ends_word_app (a b : string) : b <> "" -> ends_word (a +:+ b) = ends_word b.
Proof.
  intros Hb. induction a as [|c a IH]; [reflexivity|].
  change (String c a +:+ b) with (String c (a +:+ b)).
  cbn [ends_word]. destruct (a +:+ b) eqn:E; [|exact IH].
  destruct a; [|discriminate E]. destruct Hb. exact E.
Qed.

Lemma ends_word_word (w : string) :
  w <> "" -> plain w = true -> ends_word w = true.
Proof.
  induction w as [|c w IH]; [congruence|]. intros _ H. cbn [plain] in H.
  apply andb_true_iff in H as [Hc Hw]. cbn [ends_word].
  destruct w as [|d w']; [exact Hc|].
  apply IH; [discriminate | exact Hw].
Qed.

Lemma starts_word_rev_app (s acc : string) :
  s <> "" -> starts_word (String.rev_app s acc) = ends_word s.
Proof.
  revert acc. induction s as [|c s IH]; intros acc H; [congruence|].
  simpl. destruct s as [|d s']; [reflexivity|].
  apply IH. discriminate.
Qed.

Lemma TrimLeftSpace_starts (s : string) : starts_word s = true -> TrimLeftSpace s = s.
Proof.
  destruct s as [|c s]; [reflexivity|]. cbn [starts_word]. intros H.
  destruct (plainByte_spec c H) as (Hsp & _ & H2 & H3 & _).
  apply trimLeftBy_plain; assumption.
Qed.

(** [TrimSpace] takes the last newline off a text that starts and ends
    with a byte that is no white space. *)
Lemma TrimSpace_final_LF (body : string) :
  starts_word body = true -> ends_word body = true ->
  TrimSpace (body +:+ String LF EmptyString) = body.
Proof.
  intros Hs He. unfold TrimSpace.
  rewrite (TrimLeftSpace_starts (body +:+ String LF EmptyString))
    by (destruct body; [discriminate Hs | exact Hs]).
  unfold TrimRightSpace. unfold String.rev at 2. rewrite rev_app_app.
  change (String.rev_app (String LF "") ?x) with (String LF x).
  change (trimLeftBy ?p2 ?p3 (String LF ?x)) with (trimLeftBy p2 p3 x).
  assert (E : exists c r,
            String.rev_app body "" = String c r /\ plainByte c = true).
  { pose proof (starts_word_rev_app body "" (ends_word_nonempty _ He)) as Hst.
    rewrite He in Hst. destruct (String.rev_app body "") as [|c r];
      [discriminate Hst | exists c, r; split; [reflexivity | exact Hst]]. }
  destruct E as (c & r & E & Hc). rewrite E.
  destruct (plainByte_spec c Hc) as (Hsp & _ & _ & _ & H2 & H3).
  rewrite trimLeftBy_plain;
    [|exact Hsp | intros x; apply H2 | intros x y; apply H3].
  rewrite <- E. apply rev_rev.
Qed.

Lemma plain_of_word (w : string) :
  has_space w = false -> forallb asciiByte (list_ascii_of_string w) = true ->
  plain w = true.
Proof.
  induction w as [|c w IH]; [reflexivity|]. simpl. intros Hsp Ha.
  apply orb_false_iff in Hsp as [Hc Hw]. apply andb_true_iff in Ha as [Hac Haw].
  unfold plainByte. rewrite Hac, Hc, (IH Hw Haw). reflexivity.
Qed.

Lemma isWord_spec (w : string) :
  isWord w = true -> w <> "" /\ has_space w = false /\ plain w = true.
Proof.
  unfold isWord. intros H.
  apply andb_true_iff in H as [H Ha]. apply andb_true_iff in H as [Hne Hsp].
  apply negb_true_iff in Hne, Hsp.
  split; [intros ->; discriminate Hne|].
  split; [exact Hsp | apply plain_of_word; assumption].
Qed.

Lemma showRefLine_spec (e : string * string) :
  isWord (fst e) && isWord (snd e) = true ->
  starts_word (showRefLine e) = true /\ ends_word (showRefLine e) = true
  /\ has_byte LF (showRefLine e) = false
  /\ String.eqb (showRefLine e) "" = false
  /\ Fields (showRefLine e) = [fst e; snd e].
Proof.
  intros H. apply andb_true_iff in H as [H1 H2].
  apply isWord_spec in H1 as (Hne1 & Hsp1 & Hp1).
  apply isWord_spec in H2 as (Hne2 & Hsp2 & Hp2).
  unfold showRefLine. destruct e as [sha ref]. cbn [fst snd] in *.
  split; [|split; [|split; [|split]]].
  - destruct sha as [|c sha]; [congruence|].
    cbn [plain] in Hp1. apply andb_true_iff in Hp1 as [Hc _].
    change (starts_word (String c (sha +:+ String " " ref)) = true).
    exact Hc.
  - rewrite ends_word_app by discriminate.
    change (String " " ref) with (" " +:+ ref).
    rewrite ends_word_app by exact Hne2. apply ends_word_word; assumption.
  - apply has_space_LF in Hsp1, Hsp2.
    rewrite has_byte_app, Hsp1. cbn [has_byte orb]. rewrite Hsp2. reflexivity.
  - destruct sha; [congruence | reflexivity].
  - apply Fields_two; assumption.
Qed.

Lemma joinLF_ends (l : string) (ls : list string) :
  forallb (fun l => ends_word l) (l :: ls) = true ->
  ends_word (joinLF l ls) = true.
Proof.
  revert l. induction ls as [|l' ls IH]; intros l H;
    cbn [forallb] in H; apply andb_true_iff in H as [Hl Hls].
  - exact Hl.
  - cbn [joinLF]. rewrite ends_word_app by discriminate.
    pose proof (IH _ Hls) as He.
    cbn [ends_word]. destruct (joinLF l' ls); [discriminate He | exact He].
Qed.

Lemma joinLF_starts (l : string) (ls : list string) :
  starts_word l = true -> starts_word (joinLF l ls) = true.
Proof.
  intros H. destruct ls as [|l' ls]; [exact H|].
  cbn [joinLF]. destruct l as [|c l]; [discriminate H | exact H].
Qed.

(** X30. [ListBackupRefs] reads the listing git prints. From the output
    of [git show-ref], one line for each reference with the object name,
    a blank and the reference (both words: not empty, ASCII, no white
    space), the references are extracted in the order of the lines; the
    empty output gives none. *)
Theorem ListBackupRefs_reads_listing (entries : list (string * string)) :
  forallb (fun e => isWord (fst e) && isWord (snd e)) entries = true ->
  parseShowRef (unlines (map showRefLine entries)) = map snd entries.
Proof.
  intros Hall. unfold parseShowRef.
  assert (Hfold : forall (es : list (string * string)) (acc : list string),
            forallb (fun e => isWord (fst e) && isWord (snd e)) es = true ->
            fold_left
              (fun refs line =>
                 if String.eqb line EmptyString then refs
                 else match Fields line with
                      | _ :: ref :: _ => refs ++ [ref]
                      | _ => refs
                      end)
              (map showRefLine es) acc
            = acc ++ map snd es).
  { induction es as [|e es IH]; intros acc H.
    - cbn. rewrite app_nil_r. reflexivity.
    - cbn [forallb] in H. apply andb_true_iff in H as [He Hes].
      destruct (showRefLine_spec e He) as (_ & _ & _ & Hne & Hf).
      cbn [map fold_left]. rewrite Hne, Hf, (IH _ Hes), <- app_assoc.
      reflexivity. }
  destruct entries as [|e es]; [reflexivity|].
  cbn [map]. rewrite unlines_joinLF.
  assert (Hlines : forallb (fun l => starts_word l && ends_word l
                                     && negb (has_byte LF l))
                     (map showRefLine (e :: es)) = true).
  { apply forallb_forall. intros l Hl. apply in_map_iff in Hl as (e' & <- & Hin).
    rewrite forallb_forall in Hall.
    destruct (showRefLine_spec e' (Hall e' Hin)) as (H1 & H2 & H3 & _).
    rewrite H1, H2, H3. reflexivity. }
  rewrite TrimSpace_final_LF.
  - rewrite Split_joinLF.
    + exact (Hfold (e :: es) [] Hall).
    + apply forallb_forall. intros l Hl.
      rewrite forallb_forall in Hlines. specialize (Hlines l Hl).
      apply andb_true_iff in Hlines as [_ H]. exact H.
  - apply joinLF_starts. cbn [map forallb] in Hlines.
    apply andb_true_iff in Hlines as [H _].
    apply andb_true_iff in H as [H _]. apply andb_true_iff in H as [H _]. exact H.
  - apply joinLF_ends. apply forallb_forall. intros l Hl.
    rewrite forallb_forall in Hlines. specialize (Hlines l Hl).
    apply andb_true_iff in Hlines as [H _]. apply andb_true_iff in H as [_ H].
    exact H.
Qed.

Lemma ListBackupRefs_reads_listing_witness :
  parseShowRef
    (unlines
       (map showRefLine
          [ ("4f2a9c1e5d7b8a6c3e1f0d9b2a4c6e8f0a1b3c5d", "refs/cmt-backup/absorb-1600000000");
            ("9b2a4c6e8f0a1b3c5d4f2a9c1e5d7b8a6c3e1f0d", "refs/cmt-backup/absorb-1700000000") ]))
  = [ "refs/cmt-backup/absorb-1600000000"; "refs/cmt-backup/absorb-1700000000" ].
Proof.
  apply (ListBackupRefs_reads_listing
           [ ("4f2a9c1e5d7b8a6c3e1f0d9b2a4c6e8f0a1b3c5d", "refs/cmt-backup/absorb-1600000000");
             ("9b2a4c6e8f0a1b3c5d4f2a9c1e5d7b8a6c3e1f0d", "refs/cmt-backup/absorb-1700000000") ]).
  reflexivity.
Defined.

(** ** The diff parser: hunks rebuilt from their line groups *)








